(** * Data shaping of the benchmark plots

    A shallow embedding of the two scripts [diet/plot.py] and [disk/plot.py]:
    the loading block that turns the decoded JSON document into a dictionary
    of sorted series, and the part of [scatter] that resolves a series and
    splits it into the two coordinate sequences handed to the plotting
    library.

    The scripts are dynamically typed, so the model works on the values that
    [json.load] returns and keeps the exceptions that Python's built-in
    operations raise.  Drawing calls (matplotlib) are not modelled; the
    regression of [disk/plot.py] (scikit-learn) is a parameter. *)

From Stdlib Require Import ZArith List String Ascii Bool Lia Permutation Sorted.
From Stdlib Require Import Floats.
Import ListNotations.

Set Warnings "-register-all,-inexact-float".

Local Open Scope Z_scope.

(** ** Python values and built-in operations *)

Module Py.

(** What [json.load] returns: [None], [bool], [int] (unbounded), [float]
    (binary64), [str], [list] and [dict] with string keys.  A [PDict] lists
    its entries in insertion order, keys pairwise distinct.  Strings are
    sequences of 8-bit characters (exact for ASCII documents).

    The JSON grammar has no literal for a NaN.  Where one occurs all the
    same, comparisons follow its value (unequal to everything, itself
    included); CPython's shortcut for one and the same object is not
    modelled, and the statements on order below exclude NaN values. *)
Inductive value : Type :=
| PNone
| PBool (b : bool)
| PInt (z : Z)
| PFloat (f : float)
| PStr (s : string)
| PList (items : list value)
| PDict (entries : list (string * value)).

(** The built-in exceptions the scripts can run into. *)
Inductive exn : Type := TypeError | ValueError | KeyError.

Inductive result (A : Type) : Type :=
| Ok (a : A)
| Raise (e : exn).
Arguments Ok {A} a.
Arguments Raise {A} e.

Definition rbind {A B} (r : result A) (k : A -> result B) : result B :=
  match r with
  | Ok a => k a
  | Raise e => Raise e
  end.

(** *** Numbers

    Python compares [bool], [int] and [float] operands by their exact
    numerical value, whatever the mix of types.  A finite number is kept as
    [m * 2^e].  On two floats this is the comparison of the machine
    (lemmas [py_lt_float] and [py_eq_float]). *)
Inductive xnum : Type :=
| XNaN
| XNegInf
| XFin (m e : Z)
| XPosInf.

Definition sf_xnum (x : spec_float) : xnum :=
  match x with
  | S754_nan => XNaN
  | S754_infinity s => if s then XNegInf else XPosInf
  | S754_zero _ => XFin 0 0
  | S754_finite s m e => XFin (if s then Z.neg m else Z.pos m) e
  end.

Definition float_xnum (f : float) : xnum := sf_xnum (Prim2SF f).

Definition number (v : value) : option xnum :=
  match v with
  | PBool b => Some (XFin (Z.b2z b) 0)
  | PInt z => Some (XFin z 0)
  | PFloat f => Some (float_xnum f)
  | _ => None
  end.

Definition xcompare (a b : xnum) : option comparison :=
  match a, b with
  | XNaN, _ => None
  | _, XNaN => None
  | XNegInf, XNegInf => Some Eq
  | XNegInf, _ => Some Lt
  | _, XNegInf => Some Gt
  | XPosInf, XPosInf => Some Eq
  | XPosInf, _ => Some Gt
  | _, XPosInf => Some Lt
  | XFin m1 e1, XFin m2 e2 =>
      let e := Z.min e1 e2 in
      Some (m1 * 2 ^ (e1 - e) ?= m2 * 2 ^ (e2 - e))
  end.

Definition xeqb (a b : xnum) : bool :=
  match xcompare a b with Some Eq => true | _ => false end.

Definition xltb (a b : xnum) : bool :=
  match xcompare a b with Some Lt => true | _ => false end.

(** [a <= b]; a NaN is below and above nothing. *)
Definition xle (a b : xnum) : Prop :=
  match xcompare a b with
  | Some Lt | Some Eq => True
  | _ => False
  end.

(** *** [a == b] *)
Fixpoint py_eq (a b : value) {struct a} : bool :=
  match a, b with
  | PNone, PNone => true
  | PStr s, PStr t => String.eqb s t
  | PList la, PList lb =>
      (fix go (la lb : list value) {struct la} : bool :=
         match la, lb with
         | [], [] => true
         | x :: xs, y :: ys => py_eq x y && go xs ys
         | _, _ => false
         end) la lb
  | PDict da, PDict db =>
      Nat.eqb (List.length da) (List.length db) &&
      (fix go (da : list (string * value)) {struct da} : bool :=
         match da with
         | [] => true
         | (k, x) :: da' =>
             match find (fun kv => String.eqb (fst kv) k) db with
             | Some (_, y) => py_eq x y && go da'
             | None => false
             end
         end) da
  | _, _ =>
      match number a, number b with
      | Some x, Some y => xeqb x y
      | _, _ => false
      end
  end.

(** *** [a < b]: numbers by value, strings and lists lexicographically;
    every other pair of operand types raises [TypeError]. *)
Fixpoint py_lt (a b : value) {struct a} : result bool :=
  match a, b with
  | PStr s, PStr t => Ok (String.ltb s t)
  | PList la, PList lb =>
      (fix go (la lb : list value) {struct la} : result bool :=
         match la, lb with
         | [], [] => Ok false
         | [], _ :: _ => Ok true
         | _ :: _, [] => Ok false
         | x :: xs, y :: ys => if py_eq x y then go xs ys else py_lt x y
         end) la lb
  | _, _ =>
      match number a, number b with
      | Some x, Some y => Ok (xltb x y)
      | _, _ => Raise TypeError
      end
  end.

(** *** [v * 1000] *)
Definition mul1000 (v : value) : result value :=
  match v with
  | PBool b => Ok (PInt (Z.b2z b * 1000))
  | PInt z => Ok (PInt (z * 1000))
  | PFloat f => Ok (PFloat (PrimFloat.mul f 1000%float))
  | PStr s => Ok (PStr (String.concat "" (repeat s 1000%nat)))
  | PList l => Ok (PList (List.concat (repeat l 1000%nat)))
  | PNone | PDict _ => Raise TypeError
  end.

(** *** Iteration and unpacking

    [iter v] is the sequence a [for] loop or an unpacking assignment draws
    from [v]: the items of a list, the characters of a string, the keys of
    a dict; anything else is not iterable. *)
Definition chars (s : string) : list value :=
  map (fun c => PStr (String c EmptyString)) (list_ascii_of_string s).

Definition iter (v : value) : result (list value) :=
  match v with
  | PList l => Ok l
  | PStr s => Ok (chars s)
  | PDict d => Ok (map (fun kv => PStr (fst kv)) d)
  | _ => Raise TypeError
  end.

(** [[a, b] = v] *)
Definition unpack2 (v : value) : result (value * value) :=
  rbind (iter v) (fun l =>
    match l with
    | [a; b] => Ok (a, b)
    | _ => Raise ValueError
    end).

(** [[a, b, c] = v] *)
Definition unpack3 (v : value) : result (value * value * value) :=
  rbind (iter v) (fun l =>
    match l with
    | [a; b; c] => Ok (a, b, c)
    | _ => Raise ValueError
    end).

(** *** Dictionaries built by the scripts

    Insertion-ordered association lists; a key is found with [==], so the
    keys [1], [1.0] and [True] are one key.  Lists and dicts are not
    hashable. *)
Definition dict (V : Type) : Type := list (value * V).

Definition hashable (k : value) : bool :=
  match k with
  | PList _ | PDict _ => false
  | _ => true
  end.

Definition keys {V} (d : dict V) : list value := map fst d.

Fixpoint lookup {V} (k : value) (d : dict V) : option V :=
  match d with
  | [] => None
  | (k', x) :: d' => if py_eq k' k then Some x else lookup k d'
  end.

Fixpoint update {V} (k : value) (f : V -> V) (d : dict V) : dict V :=
  match d with
  | [] => []
  | (k', x) :: d' =>
      if py_eq k' k then (k', f x) :: d' else (k', x) :: update k f d'
  end.

Definition add_default {V} (k : value) (dflt : V) (d : dict V) : dict V :=
  match lookup k d with
  | Some _ => d
  | None => d ++ [(k, dflt)]
  end.

(** *** Programs over a mutable store

    A computation reads and writes a store and ends normally or with an
    exception; the store it leaves is the one reached when the exception
    was raised. *)
Definition M (S A : Type) : Type := S -> result A * S.

Definition ret {S A} (a : A) : M S A := fun s => (Ok a, s).

Definition bind {S A B} (c : M S A) (k : A -> M S B) : M S B :=
  fun s =>
    match c s with
    | (Ok a, s') => k a s'
    | (Raise e, s') => (Raise e, s')
    end.

Definition lift {S A} (r : result A) : M S A := fun s => (r, s).

Definition get {S} : M S S := fun s => (Ok s, s).

Definition put {S} (s : S) : M S unit := fun _ => (Ok tt, s).

Definition modify {S} (f : S -> S) : M S unit := fun s => (Ok tt, f s).

Declare Scope py_scope.
Delimit Scope py_scope with py.
Notation "x <- c ;; k" := (bind c (fun x => k))
  (at level 61, c at next level, right associativity) : py_scope.
Notation "' p <- c ;; k" := (bind c (fun x => let 'p := x in k))
  (at level 61, p pattern, c at next level, right associativity) : py_scope.
Notation "c ;; k" := (bind c (fun _ => k))
  (at level 61, right associativity) : py_scope.
Local Open Scope py_scope.

(** [for x in xs: body(x)] *)
Fixpoint for_each {S X} (xs : list X) (body : X -> M S unit) : M S unit :=
  match xs with
  | [] => ret tt
  | x :: xs' => body x ;; for_each xs' body
  end.

(** [d.setdefault(k, dflt)]: the entry is created when absent.  The object
    it returns is the one stored under [k], reached below with [at_key]. *)
Definition setdefault {V} (k : value) (dflt : V) : M (dict V) unit :=
  if hashable k then modify (add_default k dflt) else lift (Raise TypeError).

(** A computation on the object stored under [k]: [d[k]] is looked up, the
    computation mutates that object in place.  The key is found with [==].
    CPython first looks for the very same object, which makes a difference
    for a NaN key only: there the scripts find the entry, and this model
    raises [KeyError].  The statements on keys concern string keys. *)
Definition at_key {V A} (k : value) (c : M V A) : M (dict V) A :=
  fun d =>
    if hashable k then
      match lookup k d with
      | Some x => let (r, x') := c x in (r, update k (fun _ => x') d)
      | None => (Raise KeyError, d)
      end
    else (Raise TypeError, d).

(** [d[k]] as an expression. *)
Definition getitem {V} (d : dict V) (k : value) : result V :=
  if hashable k then
    match lookup k d with
    | Some x => Ok x
    | None => Raise KeyError
    end
  else Raise TypeError.

(** *** Series: lists of 2-tuples [(n, v)] *)
Definition tuple : Type := value * value.
Definition series : Type := list tuple.

(** [series.append(t)] *)
Definition append (t : tuple) : M series unit := modify (fun s => s ++ [t]).

(** [s < t] on 2-tuples: the first components that differ decide. *)
Definition tuple_lt (s t : tuple) : result bool :=
  if negb (py_eq (fst s) (fst t)) then py_lt (fst s) (fst t)
  else if negb (py_eq (snd s) (snd t)) then py_lt (snd s) (snd t)
  else Ok false.

(** [list.sort()] uses [<] only and is stable.  It is modelled by stable
    insertion: each element goes behind every element that it is not less
    than.  On a list whose elements are mutually comparable and hold no
    NaN this is the result of any stable sort, CPython's included; a
    comparison that raises aborts the sort.  On other lists the outcome of
    CPython's merge sort depends on the comparisons that it happens to
    make (with a NaN it may leave [(1, 5); (1, nan); (1, 3)] as it is;
    with incomparable items it may end without having compared them):
    these are not modelled, beyond lists of one or two elements, and the
    statements that fix the order of a series exclude them. *)
Fixpoint insert (x : tuple) (l : series) : result series :=
  match l with
  | [] => Ok [x]
  | y :: l' =>
      rbind (tuple_lt x y) (fun b =>
        if b then Ok (x :: y :: l')
        else rbind (insert x l') (fun l'' => Ok (y :: l'')))
  end.

Fixpoint sort_from (acc : series) (l : series) : result series :=
  match l with
  | [] => Ok acc
  | x :: l' => rbind (insert x acc) (fun acc' => sort_from acc' l')
  end.

Definition list_sort (s : series) : result series := sort_from [] s.

(** [s.sort()] on the stored object. *)
Definition sort : M series unit :=
  s <- get ;; s' <- lift (list_sort s) ;; put s'.

(** [x, y = zip( *s )]: the two coordinate tuples of a series of 2-tuples;
    on an empty series [zip()] yields nothing and the unpacking fails. *)
Definition zip_star (s : series) : result (list value * list value) :=
  match s with
  | [] => Raise ValueError
  | _ :: _ => Ok (map fst s, map snd s)
  end.

(** *** Notions used to state properties *)

(** [d.get(k, dflt)] *)
Definition get_default {V} (dflt : V) (k : value) (d : dict V) : V :=
  match lookup k d with
  | Some x => x
  | None => dflt
  end.

(** The series stored under [k], empty when there is none. *)
Definition entries (k : value) (d : dict series) : series :=
  @get_default series [] k d.

(** [d.setdefault(k, dflt)] followed by an in-place change of what is
    stored under [k]. *)
Definition touch {V} (k : value) (f : V -> V) (dflt : V) (d : dict V)
  : dict V :=
  update k f (add_default k dflt d).

(** All keys are strings, none occurs twice. *)
Definition str_keys {V} (d : dict V) : Prop :=
  NoDup (keys d) /\ Forall (fun k => exists a, k = PStr a) (keys d).

(** What [list.sort()] leaves in the list. *)
Definition sorted_or_same (s : series) : series :=
  match list_sort s with
  | Ok s' => s'
  | Raise _ => s
  end.

End Py.

(** ** disk/plot.py *)

Module Disk.
Import Py.
Local Open Scope py_scope.

(** The global [data]: metric -> series. *)
Definition store : Type := dict series.

(** Lines 15-17, one turn of the first loop:
<<
    for [m, n, v] in json.load(file):
        series = data.setdefault(m, [])
        series.append((n, v * 1000))
>> *)
Definition aggregate (record : value) : M store unit :=
  ' (m, n, v) <- lift (unpack3 record) ;;
  setdefault m [] ;;
  scaled <- lift (mul1000 v) ;;
  at_key m (append (n, scaled)).

(** Lines 18-19:
<<
    for k in data:
        data[k].sort()
>> *)
Definition sort_all : M store unit :=
  data <- get ;;
  for_each (keys data) (fun k => at_key k sort).

(** Lines 13-19: the body of the [with] block, on the decoded document;
    it starts with [data = {}]. *)
Definition load (doc : value) : M store unit :=
  put [] ;;
  records <- lift (iter doc) ;;
  for_each records aggregate ;;
  sort_all.

Section Scatter.

(** [model.fit(x, y)] followed by [model.predict(x)]: scikit-learn's
    estimator, whose code is not part of the repository. *)
Variable LinearRegression : list value -> list value -> result (list value).

(** Lines 21-29: what [scatter] computes from [data] for one key, namely the
    coordinates given to [ax.scatter] and the ordinates of the fitted line
    given to [ax.plot]. *)
Definition scatter (data : store) (key : value)
  : result (list value * list value * list value) :=
  rbind (getitem data key) (fun s =>
  rbind (zip_star s) (fun xy =>
  rbind (LinearRegression (fst xy) (snd xy)) (fun line =>
  Ok (fst xy, snd xy, line)))).

End Scatter.

End Disk.

(** ** diet/plot.py *)

Module Diet.
Import Py.
Local Open Scope py_scope.

(** The global [data]: kind -> metric -> series. *)
Definition store : Type := dict (dict series).

(** Lines 17-19, one turn of the inner loop; [sub_data] is the object
    stored under [kind]:
<<
        for [m, n, v] in measures:
            series = sub_data.setdefault(m, [])
            series.append((n, v))
>> *)
Definition aggregate (kind record : value) : M store unit :=
  ' (m, n, v) <- lift (unpack3 record) ;;
  at_key kind (setdefault m [] ;; at_key m (append (n, v))).

(** Lines 15-19, one turn of the outer loop:
<<
    for [kind, measures] in json.load(file):
        sub_data = data.setdefault(kind, {})
        for [m, n, v] in measures: ...
>> *)
Definition aggregate_group (group : value) : M store unit :=
  ' (kind, measures) <- lift (unpack2 group) ;;
  setdefault kind [] ;;
  records <- lift (iter measures) ;;
  for_each records (aggregate kind).

(** Lines 20-22:
<<
    for kind in data:
        for k in data[kind]:
            data[kind][k].sort()
>> *)
Definition sort_all : M store unit :=
  data <- get ;;
  for_each (keys data) (fun kind =>
    at_key kind
      (sub_data <- get ;; for_each (keys sub_data) (fun k => at_key k sort))).

(** Lines 13-22: the body of the [with] block, on the decoded document. *)
Definition load (doc : value) : M store unit :=
  put [] ;;
  groups <- lift (iter doc) ;;
  for_each groups aggregate_group ;;
  sort_all.

(** Lines 24-26: the coordinates [scatter] gives to [ax.scatter]; [data] is
    the sub-dictionary of one kind. *)
Definition scatter (data : dict series) (key : value)
  : result (list value * list value) :=
  rbind (getitem data key) zip_star.

(** Lines 28-31: [plot] draws the three operations of one kind. *)
Definition plot (data : dict series)
  : result (list (list value * list value)) :=
  rbind (scatter data (PStr "diet/add_interval")) (fun a =>
  rbind (scatter data (PStr "diet/remove_interval")) (fun r =>
  rbind (scatter data (PStr "diet/take_interval")) (fun t =>
  Ok [a; r; t]))).

(** Lines 45-51: one panel per kind, [plot(axs[i], data[kind])]. *)
Definition panel (data : store) (kind : value)
  : result (list (list value * list value)) :=
  rbind (getitem data kind) plot.

(** The series of a (kind, metric) pair, when both keys are present. *)
Definition lookup2 (kind m : value) (data : store) : option series :=
  match lookup kind data with
  | Some sub_data => lookup m sub_data
  | None => None
  end.

(** The series of a (kind, metric) pair, empty when there is none. *)
Definition series_of (kind m : value) (data : store) : series :=
  match lookup2 kind m data with
  | Some s => s
  | None => []
  end.

End Diet.

(** ** Well-shaped documents

    The two input formats: a measure is [[metric, n, value]] with a string,
    an integer and a number; the disk document is an array of measures, the
    diet document an array of [[kind, measures]]. *)

Module Doc.
Import Py.

Inductive num : Type :=
| NInt (z : Z)
| NFloat (f : float).

Definition num_value (x : num) : value :=
  match x with
  | NInt z => PInt z
  | NFloat f => PFloat f
  end.

Definition measure : Type := string * Z * num.

Definition metric (r : measure) : string := fst (fst r).

Definition measure_value (r : measure) : value :=
  PList [PStr (metric r); PInt (snd (fst r)); num_value (snd r)].

Definition flat (records : list measure) : value :=
  PList (map measure_value records).

Definition group : Type := string * list measure.

Definition group_value (g : group) : value :=
  PList [PStr (fst g); flat (snd g)].

Definition grouped (groups : list group) : value :=
  PList (map group_value groups).

(** A point of a series. *)
Definition point : Type := Z * num.

Definition point_value (p : point) : tuple :=
  (PInt (fst p), num_value (snd p)).

Definition point_of (r : measure) : point := (snd (fst r), snd r).

(** The points submitted under a metric, in the order of the document. *)
Definition under (m : string) (records : list measure) : list point :=
  map point_of (filter (fun r => String.eqb (metric r) m) records).

(** The measures submitted under a kind, in the order of the document. *)
Definition of_kind (kind : string) (groups : list group) : list measure :=
  flat_map (fun g => if String.eqb (fst g) kind then snd g else []) groups.

(** [v * 1000] on a number. *)
Definition scale (x : num) : num :=
  match x with
  | NInt z => NInt (z * 1000)
  | NFloat f => NFloat (PrimFloat.mul f 1000%float)
  end.

Definition scale_point (p : point) : point := (fst p, scale (snd p)).

(** Numerical order of numbers; a NaN is below and above nothing. *)
Definition num_xnum (x : num) : xnum :=
  match x with
  | NInt z => XFin z 0
  | NFloat f => float_xnum f
  end.

Definition is_nan (x : num) : bool :=
  match num_xnum x with
  | XNaN => true
  | _ => false
  end.

Definition num_le (x y : num) : Prop := xle (num_xnum x) (num_xnum y).

(** Python's order on the tuples [(n, v)]: by [n], then by [v]. *)
Definition point_le (a b : point) : Prop :=
  fst a < fst b \/ (fst a = fst b /\ num_le (snd a) (snd b)).

(** [a < b] on points, and the stable insertion sort it induces. *)
Definition point_ltb (a b : point) : bool :=
  if negb (fst a =? fst b) then fst a <? fst b
  else if negb (xeqb (num_xnum (snd a)) (num_xnum (snd b)))
       then xltb (num_xnum (snd a)) (num_xnum (snd b))
       else false.

Fixpoint insert_point (x : point) (l : list point) : list point :=
  match l with
  | [] => [x]
  | y :: l' => if point_ltb x y then x :: y :: l' else y :: insert_point x l'
  end.

Fixpoint sort_points_from (acc l : list point) : list point :=
  match l with
  | [] => acc
  | x :: l' => sort_points_from (insert_point x acc) l'
  end.

Definition sort_points (l : list point) : list point := sort_points_from [] l.

(** The tuple each loader appends for a measure. *)
Definition disk_tuple (r : measure) : tuple :=
  point_value (scale_point (point_of r)).

Definition diet_tuple (r : measure) : tuple := point_value (point_of r).

(** The store after one more measure: the series of its metric is created
    when absent and extended by the tuple. *)
Definition collect (f : measure -> tuple) (d : dict series) (r : measure)
  : dict series :=
  touch (PStr (metric r)) (fun s => s ++ [f r]) [] d.

(** The diet store after one more group. *)
Definition collect_group (d : Diet.store) (g : group) : Diet.store :=
  touch (PStr (fst g)) (fun sub => fold_left (collect diet_tuple) (snd g) sub)
    [] d.

(** No two different points of the list stand level in Python's order, as
    [(1, 2)] and [(1, 2.0)] do, or [(1, 0.0)] and [(1, -0.0)]. *)
Definition no_ties (l : list point) : Prop :=
  forall p q, In p l -> In q l -> point_le p q -> point_le q p -> p = q.

End Doc.

(** ** Calls into the plotting library

    What the scripts do after the loading block is a sequence of calls into
    matplotlib.  The calls are recorded, with their arguments, in the order
    in which the script makes them; matplotlib itself is not modelled and
    is taken to return from each call. *)

Module Plt.
Import Py.
Local Open Scope string_scope.
Local Open Scope list_scope.
Local Open Scope py_scope.

Inductive call : Type :=
| StyleUse (name : string)
| RcParam (key : string) (v : value)
| Subplots (nrows ncols : nat)
| Suptitle (text weight : string)
| Scatter (ax : nat) (x y : list value) (label : string) (s : Z)
| Plot (ax : nat) (x y : list value) (linewidth : Z)
| Legend (ax : nat)
| SetXLabel (ax : nat) (text fontstyle : string) (labelpad : Z)
| SetYLabel (ax : nat) (text fontstyle : string) (labelpad : Z)
| TightLayout
| Show.

Definition trace : Type := list call.

Definition emit (c : call) : M trace unit := modify (fun t => t ++ [c]).

(** Lines 35-40 of diet/plot.py, 31-36 of disk/plot.py:
<<
    plt.style.use("seaborn")
    plt.rcParams["font.family"] = "sans-serif"
    plt.rcParams["font.sans-serif"] = "SF Pro Display"
    plt.rcParams["font.size"] = 13
    plt.rcParams["xtick.labelsize"] = 9
    plt.rcParams["ytick.labelsize"] = 9
>> *)
Definition style : M trace unit :=
  emit (StyleUse "seaborn") ;;
  emit (RcParam "font.family" (PStr "sans-serif")) ;;
  emit (RcParam "font.sans-serif" (PStr "SF Pro Display")) ;;
  emit (RcParam "font.size" (PInt 13)) ;;
  emit (RcParam "xtick.labelsize" (PInt 9)) ;;
  emit (RcParam "ytick.labelsize" (PInt 9)).

(** How a run of a script ends: with the usage line on the standard output
    (lines 8-10), with an exception of [open] or [json.load] (the file is
    missing or is no JSON document; these are not detailed), with an
    exception of the loading block or of the drawing, or with the figure
    on the screen.  The trace holds the calls made until then. *)
Inductive outcome : Type :=
| Usage (line : string)
| NoDocument
| Stopped (e : exn) (t : trace)
| Shown (t : trace).

(** The layers a trace puts on the axes. *)
Definition is_show (c : call) : bool :=
  match c with
  | Show => true
  | _ => false
  end.

Definition scatters (t : trace) : list (nat * list value * list value * string) :=
  flat_map (fun c =>
              match c with
              | Scatter ax x y label _ => [(ax, x, y, label)]
              | _ => []
              end) t.

Definition lines (t : trace) : list (nat * list value * list value) :=
  flat_map (fun c =>
              match c with
              | Plot ax x y _ => [(ax, x, y)]
              | _ => []
              end) t.

(** A computation that only adds calls satisfying [P] to the trace,
    however it ends. *)
Definition appends (P : call -> Prop) {A} (c : M trace A) : Prop :=
  forall t r t', c t = (r, t') -> exists u, t' = t ++ u /\ Forall P u.

(** A computation that calls [plt.show()] last when it ends normally, and
    not at all when it raises. *)
Definition shows_last {A} (c : M trace A) : Prop :=
  forall t r t',
    c t = (r, t') ->
    exists u,
      Forall (fun c => is_show c = false) u /\
      match r with
      | Ok _ => t' = t ++ u ++ [Show]
      | Raise _ => t' = t ++ u
      end.

(** The calls made by a run. *)
Definition calls (o : outcome) : trace :=
  match o with
  | Usage _ | NoDocument => []
  | Stopped _ t | Shown t => t
  end.

(** How a computation ends: normally, or with the exception [stop]. *)
Definition ends {A} (r : result A) (stop : option exn) : Prop :=
  match stop with
  | None => exists a, r = Ok a
  | Some e => r = Raise e
  end.

(** A computation that, whatever the calls made before, adds the point
    layers [points] and the lines [curves] and ends as [stop] tells. *)
Definition draws {A} (c : M trace A)
           (points : list (nat * list value * list value * string))
           (curves : list (nat * list value * list value))
           (stop : option exn) : Prop :=
  forall t,
    exists r u,
      c t = (r, t ++ u) /\ scatters u = points /\ lines u = curves /\
      ends r stop.

End Plt.

(** ** disk/plot.py, lines 8-12 and 21-55 *)

Module DiskScript.
Import Py Plt.
Local Open Scope string_scope.
Local Open Scope list_scope.
Local Open Scope py_scope.

Section Regression.

(** [model.fit(x, y)] followed by [model.predict(x)], as in [Disk.scatter]. *)
Variable LinearRegression : list value -> list value -> result (list value).

(** Lines 21-29, with the axes and the label:
<<
    def scatter(ax, key, label):
        x, y = zip( *data[key] )
        ax.scatter(x, y, label=label, s=10)
        model = LinearRegression()
        x = np.reshape(x, (-1, 1))
        model.fit(x, y)
        ax.plot(x, model.predict(x), linewidth=1)
>>
    The points are on the axes before the regression runs.  [np.reshape]
    turns [x] into a column and keeps its items: it is part of what
    [LinearRegression] stands for, and the abscissas given to [ax.plot]
    are those of the points. *)
Definition scatter (data : Disk.store) (ax : nat) (key label : string)
  : M trace unit :=
  s <- lift (getitem data (PStr key)) ;;
  xy <- lift (zip_star s) ;;
  emit (Scatter ax (fst xy) (snd xy) label 10) ;;
  line <- lift (LinearRegression (fst xy) (snd xy)) ;;
  emit (Plot ax (fst xy) line 1).

(** Lines 31-55. *)
Definition figure (data : Disk.store) : M trace unit :=
  style ;;
  emit (Subplots 2 1) ;;
  emit (Suptitle
          "Read and write performance using different disk access patterns"
          "bold") ;;
  scatter data 0 "sequential.read" "Sequential read" ;;
  scatter data 0 "append.read" "Sequential read with O_APPEND" ;;
  scatter data 0 "random.read" "Random-offset read" ;;
  emit (Legend 0) ;;
  emit (SetXLabel 0 "Number of 128-byte blocks read" "italic" 10) ;;
  emit (SetYLabel 0 "Duration (ms)" "italic" 20) ;;
  scatter data 1 "sequential.write" "Sequential write" ;;
  scatter data 1 "append.write" "Sequential write with O_APPEND" ;;
  scatter data 1 "random.write" "Random-offset write" ;;
  emit (Legend 1) ;;
  emit (SetXLabel 1 "Number of 128-byte blocks written" "italic" 10) ;;
  emit (SetYLabel 1 "Duration (ms)" "italic" 25) ;;
  emit TightLayout ;;
  emit Show.

(** The whole script.  [prog] is [sys.argv[0]], [args] the rest of
    [sys.argv]; [json_load path] is the document decoded from the file, if
    [open(path)] and [json.load] succeed.
<<
    if len(sys.argv) < 2:
        print("Usage: %s path" % sys.argv[0])
        exit()
    path = sys.argv[1]
    with open(path) as file: ...
>> *)
Definition script (prog : string) (args : list string)
           (json_load : string -> option value) : outcome :=
  match args with
  | [] => Usage (String.append "Usage: " (String.append prog " path"))
  | path :: _ =>
      match json_load path with
      | None => NoDocument
      | Some doc =>
          match Disk.load doc [] with
          | (Raise e, _) => Stopped e []
          | (Ok _, data) =>
              match figure data [] with
              | (Raise e, t) => Stopped e t
              | (Ok _, t) => Shown t
              end
          end
      end
  end.

End Regression.

(** The keys and labels of the six series, with their axes. *)
Definition layers : list (nat * string * string) :=
  [(0%nat, "sequential.read", "Sequential read");
   (0%nat, "append.read", "Sequential read with O_APPEND");
   (0%nat, "random.read", "Random-offset read");
   (1%nat, "sequential.write", "Sequential write");
   (1%nat, "append.write", "Sequential write with O_APPEND");
   (1%nat, "random.write", "Random-offset write")].

Definition metrics : list string := map (fun l => snd (fst l)) layers.

(** What drawing the series of [l], one after the other, puts on the axes:
    the point layers [(ax, x, y, label)], the regression lines
    [(ax, x, line)], and the exception that stops the drawing, if any.
    [series_at key] is the series found under [key]. *)
Fixpoint drawn (fit : list value -> list value -> result (list value))
         (series_at : string -> option series)
         (l : list (nat * string * string))
  : list (nat * list value * list value * string) *
    list (nat * list value * list value) * option exn :=
  match l with
  | [] => ([], [], None)
  | (ax, key, label) :: l' =>
      match series_at key with
      | None => ([], [], Some KeyError)
      | Some s =>
          match fit (map fst s) (map snd s) with
          | Raise e => ([(ax, map fst s, map snd s, label)], [], Some e)
          | Ok line =>
              let '(points, curves, stop) := drawn fit series_at l' in
              ((ax, map fst s, map snd s, label) :: points,
               (ax, map fst s, line) :: curves, stop)
          end
      end
  end.

(** The series that the measures of a well-shaped document without NaN
    values make for a metric: their points, scaled and in Python's tuple
    order; none when no measure bears the metric.  (With a NaN among the
    values the order that [list.sort()] leaves is another one.) *)
Definition submitted (records : list Doc.measure) (m : string)
  : option series :=
  match Doc.under m records with
  | [] => None
  | pts =>
      Some (map Doc.point_value
              (Doc.sort_points (map Doc.scale_point pts)))
  end.

End DiskScript.

(** ** diet/plot.py, lines 8-12 and 24-55 *)

Module DietScript.
Import Py Plt.
Local Open Scope string_scope.
Local Open Scope list_scope.
Local Open Scope py_scope.

(** Lines 24-26, with the axes and the label:
<<
    def scatter(ax, data, key, label):
        x, y = zip( *data[key] )
        ax.scatter(x, y, label=label, s=6)
>> *)
Definition scatter (ax : nat) (data : dict series) (key label : string)
  : M trace unit :=
  xy <- lift (Diet.scatter data (PStr key)) ;;
  emit (Scatter ax (fst xy) (snd xy) label 6).

(** Lines 28-33:
<<
    def plot(ax, data):
        scatter(ax, data, "diet/add_interval", "Adding an interval")
        scatter(ax, data, "diet/remove_interval", "Deleting an interval")
        scatter(ax, data, "diet/take_interval", "Finding a sub-interval")
        ax.legend()
        ax.set_xlabel("Number of intervals in the structure", ...)
>> *)
Definition plot (ax : nat) (data : dict series) : M trace unit :=
  scatter ax data "diet/add_interval" "Adding an interval" ;;
  scatter ax data "diet/remove_interval" "Deleting an interval" ;;
  scatter ax data "diet/take_interval" "Finding a sub-interval" ;;
  emit (Legend ax) ;;
  emit (SetXLabel ax "Number of intervals in the structure" "italic" 10).

(** [plot(axs[i], data[kind])] and [axs[i].set_ylabel(...)]. *)
Definition panel (data : Diet.store) (ax : nat) (kind ylabel : string)
  : M trace unit :=
  sub_data <- lift (getitem data (PStr kind)) ;;
  plot ax sub_data ;;
  emit (SetYLabel ax ylabel "italic" 10).

(** Lines 35-55. *)
Definition figure (data : Diet.store) : M trace unit :=
  style ;;
  emit (Subplots 1 3) ;;
  emit (Suptitle "Time and memory benchmark of DIET operations" "bold") ;;
  panel data 0 "monotonic-clock" "Duration (ns)" ;;
  panel data 1 "major-allocated" "Major-heap allocations (mw/run)" ;;
  panel data 2 "minor-allocated" "Minor-heap allocations (w/run)" ;;
  emit TightLayout ;;
  emit Show.

(** The whole script, as for the disk one. *)
Definition script (prog : string) (args : list string)
           (json_load : string -> option value) : outcome :=
  match args with
  | [] => Usage (String.append "Usage: " (String.append prog " path"))
  | path :: _ =>
      match json_load path with
      | None => NoDocument
      | Some doc =>
          match Diet.load doc [] with
          | (Raise e, _) => Stopped e []
          | (Ok _, data) =>
              match figure data [] with
              | (Raise e, t) => Stopped e t
              | (Ok _, t) => Shown t
              end
          end
      end
  end.

(** The kinds of the three panels, with their axes, and the metrics and
    labels of the three series of a panel. *)
Definition kinds : list (nat * string) :=
  [(0%nat, "monotonic-clock"); (1%nat, "major-allocated");
   (2%nat, "minor-allocated")].

Definition metrics : list (string * string) :=
  [("diet/add_interval", "Adding an interval");
   ("diet/remove_interval", "Deleting an interval");
   ("diet/take_interval", "Finding a sub-interval")].

(** The nine series of the figure in the order in which they are drawn:
    axes, kind, metric, label. *)
Definition required : list (nat * string * string * string) :=
  flat_map (fun k => map (fun m => (fst k, snd k, fst m, snd m)) metrics)
    kinds.

(** What drawing the series of [l], one after the other, puts on the axes:
    the point layers [(ax, x, y, label)], and the exception that stops the
    drawing, if any.  [series_at kind m] is the series found for the pair. *)
Fixpoint drawn (series_at : string -> string -> option series)
         (l : list (nat * string * string * string))
  : list (nat * list value * list value * string) * option exn :=
  match l with
  | [] => ([], None)
  | (ax, kind, m, label) :: l' =>
      match series_at kind m with
      | None => ([], Some KeyError)
      | Some s =>
          let '(points, stop) := drawn series_at l' in
          ((ax, map fst s, map snd s, label) :: points, stop)
      end
  end.

(** The series that the measures of a well-shaped document without NaN
    values make for a (kind, metric) pair: their points in Python's tuple
    order; none when no measure of the kind bears the metric.  (With a NaN
    among the values the order that [list.sort()] leaves is another
    one.) *)
Definition submitted (groups : list Doc.group) (kind m : string)
  : option series :=
  match Doc.under m (Doc.of_kind kind groups) with
  | [] => None
  | pts => Some (map Doc.point_value (Doc.sort_points pts))
  end.

End DietScript.

Import Py Doc.
Local Open Scope string_scope.
Local Open Scope Z_scope.
Local Open Scope list_scope.
Local Open Scope py_scope.

(** * Properties *)

(** ** Keys *)

Lemma py_eq_str (a b : string) : py_eq (PStr a) (PStr b) = String.eqb a b.
Proof. reflexivity. Qed.

Lemma py_eq_str_l (a : string) (k : value) :
  py_eq (PStr a) k = true -> k = PStr a.
Proof.
  destruct k; simpl; try discriminate.
  intros H. apply String.eqb_eq in H. now subst.
Qed.

Lemma py_eq_str_r (a : string) (k : value) :
  py_eq k (PStr a) = true -> k = PStr a.
Proof.
  destruct k; simpl; try discriminate.
  intros H. apply String.eqb_eq in H. now subst.
Qed.

Lemma py_eq_str_refl (a : string) : py_eq (PStr a) (PStr a) = true.
Proof. simpl. apply String.eqb_refl. Qed.

(** ** Dictionaries *)

Section DictFacts.
Context {V : Type}.
Implicit Types (d : dict V) (k : value).

Lemma lookup_app k d1 d2 :
  lookup k (d1 ++ d2) =
  match lookup k d1 with Some x => Some x | None => lookup k d2 end.
Proof.
  induction d1 as [|[k' x] d1 IH]; simpl; [reflexivity|].
  destruct (py_eq k' k); [reflexivity|apply IH].
Qed.

Lemma update_app_none k f d1 d2 :
  lookup k d1 = None -> update k f (d1 ++ d2) = d1 ++ update k f d2.
Proof.
  induction d1 as [|[k' x] d1 IH]; simpl; [reflexivity|].
  destruct (py_eq k' k); [discriminate|]. intros H. now rewrite IH.
Qed.

Lemma lookup_update_same k f d :
  lookup k (update k f d) = option_map f (lookup k d).
Proof.
  induction d as [|[k' x] d IH]; simpl; [reflexivity|].
  destruct (py_eq k' k) eqn:E; simpl; rewrite E; [reflexivity|apply IH].
Qed.

Lemma lookup_update_str a b f d :
  a <> b -> lookup (PStr b) (update (PStr a) f d) = lookup (PStr b) d.
Proof.
  intros Hab. induction d as [|[k' x] d IH]; simpl; [reflexivity|].
  destruct (py_eq k' (PStr a)) eqn:E; simpl.
  - apply py_eq_str_r in E. subst k'. rewrite !py_eq_str.
    destruct (String.eqb a b) eqn:E'; [|reflexivity].
    apply String.eqb_eq in E'. contradiction.
  - now rewrite IH.
Qed.

Lemma keys_update k f d : keys (update k f d) = keys d.
Proof.
  unfold keys. induction d as [|[k' x] d IH]; simpl; [reflexivity|].
  destruct (py_eq k' k); simpl; [reflexivity|now rewrite IH].
Qed.

Lemma update_update k f g d :
  update k f (update k g d) = update k (fun x => f (g x)) d.
Proof.
  induction d as [|[k' x] d IH]; simpl; [reflexivity|].
  destruct (py_eq k' k) eqn:E; simpl; rewrite E; [reflexivity|now rewrite IH].
Qed.

Lemma update_id k x d : lookup k d = Some x -> update k (fun _ => x) d = d.
Proof.
  induction d as [|[k' y] d IH]; simpl; [reflexivity|].
  destruct (py_eq k' k).
  - now intros [= ->].
  - intros H. now rewrite IH.
Qed.

Lemma update_ext k f g d :
  (forall x, lookup k d = Some x -> f x = g x) -> update k f d = update k g d.
Proof.
  induction d as [|[k' y] d IH]; simpl; [reflexivity|].
  destruct (py_eq k' k).
  - intros H. now rewrite H.
  - intros H. now rewrite IH.
Qed.

Lemma lookup_In k x d : lookup k d = Some x -> exists k', In (k', x) d /\ py_eq k' k = true.
Proof.
  induction d as [|[k' y] d IH]; simpl; [discriminate|].
  destruct (py_eq k' k) eqn:E.
  - intros [= ->]. exists k'. auto.
  - intros H. destruct (IH H) as (k'' & Hin & He). exists k''. auto.
Qed.

Lemma In_lookup k x d :
  In (k, x) d -> py_eq k k = true -> exists y, lookup k d = Some y.
Proof.
  induction d as [|[k' y] d IH]; simpl; [contradiction|].
  intros [[= -> ->]|Hin] Hk.
  - rewrite Hk. eauto.
  - destruct (py_eq k' k); eauto.
Qed.

Lemma In_update k f d kv :
  In kv (update k f d) ->
  In kv d \/ exists x, lookup k d = Some x /\ snd kv = f x.
Proof.
  induction d as [|[k' y] d IH]; simpl; [contradiction|].
  destruct (py_eq k' k) eqn:E; simpl.
  - intros [<-|Hin]; [right; eauto|left; auto].
  - intros [<-|Hin]; [left; auto|].
    destruct (IH Hin) as [H|H]; [left; auto|right; exact H].
Qed.

End DictFacts.

(** ** Running programs *)

Lemma at_key_run {V A} (k : value) (c : M V A) (d : dict V) x r x' :
  hashable k = true -> lookup k d = Some x -> c x = (r, x') ->
  at_key k c d = (r, update k (fun _ => x') d).
Proof. intros Hh Hl Hc. unfold at_key. now rewrite Hh, Hl, Hc. Qed.

Lemma for_each_fold {S X} (body : X -> M S unit) (g : S -> X -> S) xs :
  (forall x s, In x xs -> body x s = (Ok tt, g s x)) ->
  forall s, for_each xs body s = (Ok tt, fold_left g xs s).
Proof.
  induction xs as [|x xs IH]; intros Hb s; simpl; [reflexivity|].
  unfold bind. rewrite Hb by (left; reflexivity).
  apply IH. intros y s' Hy. apply Hb. now right.
Qed.

Lemma for_each_invariant {S X} (P : S -> Prop) (body : X -> M S unit) xs :
  (forall x s s', In x xs -> P s -> body x s = (Ok tt, s') -> P s') ->
  forall s s', P s -> for_each xs body s = (Ok tt, s') -> P s'.
Proof.
  induction xs as [|x xs IH]; intros Hb s s' Hs; simpl.
  - unfold ret. now intros [= <-].
  - unfold bind. destruct (body x s) as [[[]|e] s1] eqn:E; [|discriminate].
    apply IH; [|eapply Hb; eauto; now left].
    intros y t t' Hy. apply Hb. now right.
Qed.

Lemma for_each_raises {S X} (body : X -> M S unit) xs x :
  In x xs -> (forall s, exists e s', body x s = (Raise e, s')) ->
  forall s, exists e s', for_each xs body s = (Raise e, s').
Proof.
  intros Hin Hx. induction xs as [|y xs IH]; [contradiction|].
  intros s. simpl. unfold bind.
  destruct (body y s) as [[[]|e] s1] eqn:E.
  - destruct Hin as [->|Hin].
    + destruct (Hx s) as (e & s' & He). congruence.
    + apply IH, Hin.
  - eauto.
Qed.

(** ** Order of numbers *)

Lemma pow2_pos (e : Z) : 0 <= e -> 0 < 2 ^ e.
Proof. intros. apply Z.pow_pos_nonneg; lia. Qed.

Lemma fin_compare_shift (m1 e1 m2 e2 e e' : Z) :
  e <= e1 -> e <= e2 -> e' <= e ->
  (m1 * 2 ^ (e1 - e') ?= m2 * 2 ^ (e2 - e')) =
  (m1 * 2 ^ (e1 - e) ?= m2 * 2 ^ (e2 - e)).
Proof.
  intros H1 H2 H.
  replace (e1 - e') with ((e1 - e) + (e - e')) by lia.
  replace (e2 - e') with ((e2 - e) + (e - e')) by lia.
  rewrite !Z.pow_add_r by lia. rewrite !Z.mul_assoc.
  symmetry. apply Zmult_compare_compat_r.
  apply Z.lt_gt, pow2_pos. lia.
Qed.

Lemma xcompare_antisym (a b : xnum) c :
  xcompare a b = Some c -> xcompare b a = Some (CompOpp c).
Proof.
  destruct a as [| |m1 e1|], b as [| |m2 e2|]; simpl; try discriminate;
    try (intros [= <-]; reflexivity).
  intros [= <-]. rewrite (Z.min_comm e2 e1).
  now rewrite (Z.compare_antisym (m1 * _)).
Qed.

Lemma xcompare_total (a b : xnum) :
  a <> XNaN -> b <> XNaN -> exists c, xcompare a b = Some c.
Proof.
  destruct a, b; simpl; intros; try congruence; eauto.
Qed.

Lemma xcompare_int (a b : Z) : xcompare (XFin a 0) (XFin b 0) = Some (a ?= b).
Proof. simpl. now rewrite !Z.mul_1_r. Qed.

Lemma xle_fin (m1 e1 m2 e2 e : Z) :
  e <= e1 -> e <= e2 ->
  xle (XFin m1 e1) (XFin m2 e2) <-> m1 * 2 ^ (e1 - e) <= m2 * 2 ^ (e2 - e).
Proof.
  intros H1 H2. unfold xle. simpl.
  rewrite <- (fin_compare_shift m1 e1 m2 e2 (Z.min e1 e2) e) by lia.
  unfold Z.le. destruct (_ ?= _); split; intros; try easy.
Qed.

Lemma xle_trans (a b c : xnum) : xle a b -> xle b c -> xle a c.
Proof.
  destruct a as [| |m1 e1|], b as [| |m2 e2|], c as [| |m3 e3|];
    try (unfold xle; simpl; tauto).
  set (e := Z.min e1 (Z.min e2 e3)).
  rewrite (xle_fin m1 e1 m2 e2 e), (xle_fin m2 e2 m3 e3 e),
    (xle_fin m1 e1 m3 e3 e) by lia.
  lia.
Qed.

(** ** The order of numbers on floats is the IEEE comparison *)

Lemma digits2_bounds (m : positive) :
  2 ^ (Z.pos (digits2_pos m) - 1) <= Z.pos m < 2 ^ Z.pos (digits2_pos m).
Proof.
  induction m as [p IH|p IH|]; simpl digits2_pos.
  - rewrite Pos2Z.inj_succ.
    replace (Z.succ (Z.pos (digits2_pos p)) - 1)
      with (Z.succ (Z.pos (digits2_pos p) - 1)) by lia.
    rewrite !Z.pow_succ_r by lia. lia.
  - rewrite Pos2Z.inj_succ.
    replace (Z.succ (Z.pos (digits2_pos p)) - 1)
      with (Z.succ (Z.pos (digits2_pos p) - 1)) by lia.
    rewrite !Z.pow_succ_r by lia. lia.
  - simpl. lia.
Qed.

Lemma bounded_facts (m : positive) (e : Z) :
  bounded prec emax m e = true ->
  Z.pos m < 2 ^ 53 /\ (2 ^ 52 <= Z.pos m \/ e = -1074) /\ -1074 <= e.
Proof.
  unfold bounded, canonical_mantissa, fexp, emin, prec, emax.
  intros H. apply andb_prop in H as [H _]. apply Z.eqb_eq in H.
  pose proof (digits2_bounds m) as [Hl Hu].
  set (d := Z.pos (digits2_pos m)) in *.
  assert (Hd : 0 < d) by (unfold d; lia).
  assert (Hd53 : d <= 53) by lia.
  split; [|split].
  - eapply Z.lt_le_trans; [exact Hu|]. apply Z.pow_le_mono_r; lia.
  - destruct (Z.eq_dec d 53) as [E|E].
    + left. rewrite E in Hl. exact Hl.
    + right. lia.
  - lia.
Qed.

Lemma pow2_ge2 (k : Z) : 0 < k -> 2 <= 2 ^ k.
Proof.
  intros H. replace k with (Z.succ (k - 1)) by lia.
  rewrite Z.pow_succ_r by lia.
  assert (0 < 2 ^ (k - 1)) by (apply Z.pow_pos_nonneg; lia). lia.
Qed.

Lemma pos_lt_shift (m1 m2 : positive) (e1 e2 : Z) :
  bounded prec emax m1 e1 = true -> bounded prec emax m2 e2 = true ->
  e1 < e2 -> Z.pos m1 < Z.pos m2 * 2 ^ (e2 - e1).
Proof.
  intros H1 H2 H.
  apply bounded_facts in H1 as (U1 & _ & L1).
  apply bounded_facts in H2 as (_ & [N2|N2] & _); [|lia].
  pose proof (pow2_ge2 (e2 - e1) ltac:(lia)).
  change (2 ^ 53) with (2 ^ 52 * 2) in U1. nia.
Qed.

Lemma xcompare_SFcompare (x y : spec_float) :
  FloatAxioms.valid_binary x = true -> FloatAxioms.valid_binary y = true ->
  xcompare (sf_xnum x) (sf_xnum y) = SFcompare x y.
Proof.
  destruct x as [sx|sx| |sx mx ex], y as [sy|sy| |sy my ey];
    cbn [sf_xnum xcompare SFcompare SpecFloat.valid_binary];
    intros Hx Hy; try reflexivity;
    try (destruct sx; reflexivity); try (destruct sy; reflexivity);
    try (destruct sx, sy; reflexivity).
  - assert (0 < 2 ^ (ey - Z.min 0 ey)) by (apply Z.pow_pos_nonneg; lia).
    destruct sy; f_equal.
    + apply Z.compare_gt_iff. nia.
    + apply Z.compare_lt_iff. nia.
  - assert (0 < 2 ^ (ex - Z.min ex 0)) by (apply Z.pow_pos_nonneg; lia).
    destruct sx; f_equal.
    + apply Z.compare_lt_iff. nia.
    + apply Z.compare_gt_iff. nia.
  - assert (P1 : 0 < 2 ^ (ex - Z.min ex ey)) by (apply Z.pow_pos_nonneg; lia).
    assert (P2 : 0 < 2 ^ (ey - Z.min ex ey)) by (apply Z.pow_pos_nonneg; lia).
    f_equal. destruct sx, sy.
    + destruct (Z.compare_spec ex ey) as [E|E|E].
      * subst ey. rewrite Z.min_id, Z.sub_diag. change (2 ^ 0) with 1.
        rewrite !Z.mul_1_r, Pos.compare_cont_spec. simpl.
        now destruct (mx ?= my)%positive.
      * rewrite Z.min_l, Z.sub_diag by lia.
        apply Z.compare_gt_iff.
        pose proof (pos_lt_shift mx my ex ey Hx Hy E).
        change (2 ^ 0) with 1. lia.
      * rewrite Z.min_r, Z.sub_diag by lia.
        apply Z.compare_lt_iff.
        pose proof (pos_lt_shift my mx ey ex Hy Hx E).
        change (2 ^ 0) with 1. lia.
    + apply Z.compare_lt_iff. nia.
    + apply Z.compare_gt_iff. nia.
    + destruct (Z.compare_spec ex ey) as [E|E|E].
      * subst ey. rewrite Z.min_id, Z.sub_diag. change (2 ^ 0) with 1.
        rewrite !Z.mul_1_r, Pos.compare_cont_spec. simpl.
        now destruct (mx ?= my)%positive.
      * rewrite Z.min_l, Z.sub_diag by lia.
        apply Z.compare_lt_iff.
        pose proof (pos_lt_shift mx my ex ey Hx Hy E).
        change (2 ^ 0) with 1. lia.
      * rewrite Z.min_r, Z.sub_diag by lia.
        apply Z.compare_gt_iff.
        pose proof (pos_lt_shift my mx ey ex Hy Hx E).
        change (2 ^ 0) with 1. lia.
Qed.

Lemma py_lt_float (a b : float) :
  py_lt (PFloat a) (PFloat b) = Ok (PrimFloat.ltb a b).
Proof.
  simpl. unfold xltb, float_xnum.
  rewrite xcompare_SFcompare by apply Prim2SF_valid.
  now rewrite ltb_spec.
Qed.

Lemma py_eq_float (a b : float) :
  py_eq (PFloat a) (PFloat b) = PrimFloat.eqb a b.
Proof.
  simpl. unfold xeqb, float_xnum.
  rewrite xcompare_SFcompare by apply Prim2SF_valid.
  now rewrite eqb_spec.
Qed.

(** ** Sorting a series of points *)

Lemma number_num_value (x : num) : number (num_value x) = Some (num_xnum x).
Proof. now destruct x. Qed.

Lemma py_eq_num (x y : num) :
  py_eq (num_value x) (num_value y) = xeqb (num_xnum x) (num_xnum y).
Proof. now destruct x, y. Qed.

Lemma py_lt_num (x y : num) :
  py_lt (num_value x) (num_value y) = Ok (xltb (num_xnum x) (num_xnum y)).
Proof. now destruct x, y. Qed.

Lemma py_eq_int (a b : Z) : py_eq (PInt a) (PInt b) = (a =? b).
Proof.
  simpl. unfold xeqb. rewrite xcompare_int.
  destruct (Z.eqb_spec a b) as [->|H]; [now rewrite Z.compare_refl|].
  destruct (a ?= b) eqn:E; try reflexivity.
  apply Z.compare_eq_iff in E. contradiction.
Qed.

Lemma py_lt_int (a b : Z) : py_lt (PInt a) (PInt b) = Ok (a <? b).
Proof.
  simpl. unfold xltb. rewrite xcompare_int. unfold Z.ltb.
  now destruct (a ?= b).
Qed.

Lemma tuple_lt_point (a b : point) :
  tuple_lt (point_value a) (point_value b) = Ok (point_ltb a b).
Proof.
  unfold tuple_lt, point_ltb, point_value. simpl fst. simpl snd.
  rewrite py_eq_int, py_eq_num.
  destruct (negb (fst a =? fst b)); [apply py_lt_int|].
  destruct (negb _); [apply py_lt_num|reflexivity].
Qed.

Lemma insert_points (x : point) (l : list point) :
  insert (point_value x) (map point_value l) =
  Ok (map point_value (insert_point x l)).
Proof.
  induction l as [|y l IH]; simpl; [reflexivity|].
  rewrite tuple_lt_point. simpl.
  destruct (point_ltb x y); [reflexivity|].
  now rewrite IH.
Qed.

Lemma sort_from_points (acc l : list point) :
  sort_from (map point_value acc) (map point_value l) =
  Ok (map point_value (sort_points_from acc l)).
Proof.
  revert acc. induction l as [|x l IH]; intros acc; simpl; [reflexivity|].
  rewrite insert_points. simpl. apply IH.
Qed.

Lemma list_sort_points (l : list point) :
  list_sort (map point_value l) = Ok (map point_value (sort_points l)).
Proof. apply (sort_from_points [] l). Qed.

Lemma insert_point_perm (x : point) (l : list point) :
  Permutation (insert_point x l) (x :: l).
Proof.
  induction l as [|y l IH]; simpl; [reflexivity|].
  destruct (point_ltb x y); [reflexivity|].
  rewrite IH. apply perm_swap.
Qed.

Lemma sort_points_from_perm (acc l : list point) :
  Permutation (sort_points_from acc l) (acc ++ l).
Proof.
  revert acc. induction l as [|x l IH]; intros acc; simpl.
  - now rewrite app_nil_r.
  - rewrite IH, insert_point_perm. apply Permutation_middle.
Qed.

Lemma sort_points_perm (l : list point) : Permutation (sort_points l) l.
Proof. apply (sort_points_from_perm [] l). Qed.

Lemma point_ltb_le (a b : point) : point_ltb a b = true -> point_le a b.
Proof.
  unfold point_ltb, point_le, num_le, xle, xltb.
  destruct (Z.eqb_spec (fst a) (fst b)) as [E|E]; simpl.
  - destruct (negb _); [|discriminate].
    destruct (xcompare _ _) as [[]|]; try discriminate. auto.
  - intros H. apply Z.ltb_lt in H. auto.
Qed.

Lemma point_ltb_ge (a b : point) :
  is_nan (snd a) = false -> is_nan (snd b) = false ->
  point_ltb a b = false -> point_le b a.
Proof.
  unfold point_ltb, point_le, num_le, xle, xltb, xeqb, is_nan.
  intros Ha Hb.
  destruct (Z.eqb_spec (fst a) (fst b)) as [E|E]; simpl.
  - intros H. right. split; [auto|].
    destruct (xcompare_total (num_xnum (snd a)) (num_xnum (snd b)))
      as [c Hc]; [now destruct (num_xnum (snd a))
                 |now destruct (num_xnum (snd b))|].
    rewrite (xcompare_antisym _ _ _ Hc). rewrite Hc in H.
    destruct c; simpl in *; auto; discriminate.
  - intros H. apply Z.ltb_ge in H. left. lia.
Qed.

Lemma point_le_trans (a b c : point) :
  point_le a b -> point_le b c -> point_le a c.
Proof.
  unfold point_le, num_le.
  intros [H1|[H1 L1]] [H2|[H2 L2]]; try (left; lia).
  right. split; [lia|]. eapply xle_trans; eauto.
Qed.

Lemma insert_point_sorted (x : point) (l : list point) :
  is_nan (snd x) = false -> Forall (fun p => is_nan (snd p) = false) l ->
  StronglySorted point_le l -> StronglySorted point_le (insert_point x l).
Proof.
  intros Hx Hl Hs. induction Hs as [|y l Hs IH Hy]; simpl.
  - repeat constructor.
  - inversion Hl as [|? ? Hny Hl']; subst.
    destruct (point_ltb x y) eqn:E.
    + apply point_ltb_le in E. constructor; [now constructor|].
      constructor; [exact E|].
      eapply Forall_impl; [|exact Hy]. intros z Hz.
      eapply point_le_trans; eauto.
    + apply point_ltb_ge in E; auto. constructor; [auto|].
      rewrite insert_point_perm. constructor; auto.
Qed.

Lemma sort_points_from_sorted (acc l : list point) :
  Forall (fun p => is_nan (snd p) = false) acc ->
  Forall (fun p => is_nan (snd p) = false) l ->
  StronglySorted point_le acc ->
  StronglySorted point_le (sort_points_from acc l).
Proof.
  revert acc. induction l as [|x l IH]; intros acc Ha Hl Hs; simpl; [exact Hs|].
  inversion Hl; subst. apply IH; auto.
  - rewrite insert_point_perm. now constructor.
  - now apply insert_point_sorted.
Qed.

Lemma sort_points_sorted (l : list point) :
  Forall (fun p => is_nan (snd p) = false) l ->
  StronglySorted point_le (sort_points l).
Proof.
  intros H. apply sort_points_from_sorted; auto. constructor.
Qed.

(** ** Dictionaries with string keys *)

Section StrKeys.
Context {V : Type}.
Implicit Types (d : dict V).

Lemma lookup_none_not_in (a : string) d :
  Forall (fun k => exists b, k = PStr b) (keys d) ->
  ~ In (PStr a) (keys d) -> lookup (PStr a) d = None.
Proof.
  intros Hs Hn. destruct (lookup (PStr a) d) as [x|] eqn:E; [|reflexivity].
  apply lookup_In in E as (k' & Hin & He).
  apply py_eq_str_r in He. subst k'. exfalso. apply Hn.
  unfold keys. apply in_map_iff. exists (PStr a, x). auto.
Qed.

Lemma not_in_lookup_none (a : string) d :
  lookup (PStr a) d = None -> ~ In (PStr a) (keys d).
Proof.
  intros Hl Hin. unfold keys in Hin. apply in_map_iff in Hin as ([k x] & Hk & Hin).
  simpl in Hk. subst k.
  destruct (In_lookup _ _ _ Hin (py_eq_str_refl a)) as [y Hy]. congruence.
Qed.

Lemma str_keys_nil : str_keys (@nil (value * V)).
Proof. split; constructor. Qed.

Lemma str_keys_lookup k x d : str_keys d -> In (k, x) d -> lookup k d = Some x.
Proof.
  intros [Hnd Hs]. induction d as [|[k' y] d IH]; simpl; [contradiction|].
  simpl in Hnd, Hs. inversion Hnd as [|? ? Hni Hnd']; subst.
  inversion Hs as [|? ? [a ->] Hs']; subst.
  intros [[= <- <-]|Hin].
  - now rewrite py_eq_str_refl.
  - destruct (py_eq (PStr a) k) eqn:E.
    + apply py_eq_str_l in E. subst k. exfalso. apply Hni.
      unfold keys. apply in_map_iff. exists (PStr a, x). auto.
    + auto.
Qed.

Lemma str_keys_in k d :
  str_keys d -> (In k (keys d) <-> lookup k d <> None).
Proof.
  intros Hd. split.
  - intros Hin. unfold keys in Hin. apply in_map_iff in Hin as ([k' x] & Hk & Hin).
    simpl in Hk. subst k'. rewrite (str_keys_lookup _ _ _ Hd Hin). discriminate.
  - intros Hl. destruct (lookup k d) as [x|] eqn:E; [|congruence].
    apply lookup_In in E as (k' & Hin & He).
    assert (Hk' : In k' (keys d)).
    { unfold keys. apply in_map_iff. exists (k', x). auto. }
    destruct Hd as [_ Hs]. rewrite Forall_forall in Hs.
    destruct (Hs _ Hk') as [a ->]. apply py_eq_str_l in He. now subst.
Qed.

Lemma str_keys_same_keys d (d' : dict V) :
  keys d' = keys d -> str_keys d -> str_keys d'.
Proof. unfold str_keys. now intros ->. Qed.

Lemma str_keys_add_default (a : string) (x : V) d :
  str_keys d -> str_keys (add_default (PStr a) x d).
Proof.
  intros Hd. unfold add_default.
  destruct (lookup (PStr a) d) eqn:E; [exact Hd|].
  destruct Hd as [Hnd Hs]. unfold str_keys, keys. rewrite map_app. simpl. split.
  - apply NoDup_app; [exact Hnd|repeat constructor; auto|].
    intros k Hk [<-|[]]. now apply (not_in_lookup_none a d).
  - apply Forall_app. split; [exact Hs|]. repeat constructor. eauto.
Qed.

Lemma str_keys_touch (a : string) (f : V -> V) (x : V) d :
  str_keys d -> str_keys (touch (PStr a) f x d).
Proof.
  intros Hd. unfold touch.
  eapply str_keys_same_keys; [apply keys_update|].
  now apply str_keys_add_default.
Qed.

Lemma lookup_add_default (a b : string) (x : V) d :
  lookup (PStr b) (add_default (PStr a) x d) =
  if String.eqb a b then Some (get_default x (PStr a) d)
  else lookup (PStr b) d.
Proof.
  unfold add_default, get_default.
  destruct (String.eqb_spec a b) as [->|Hab].
  - destruct (lookup (PStr b) d) eqn:E; [exact E|].
    rewrite lookup_app, E. simpl. now rewrite String.eqb_refl.
  - destruct (lookup (PStr a) d) eqn:E; [reflexivity|].
    rewrite lookup_app. destruct (lookup (PStr b) d); [reflexivity|].
    simpl. apply String.eqb_neq in Hab. now rewrite Hab.
Qed.

Lemma lookup_touch (a b : string) (f : V -> V) (x : V) d :
  lookup (PStr b) (touch (PStr a) f x d) =
  if String.eqb a b then Some (f (get_default x (PStr a) d))
  else lookup (PStr b) d.
Proof.
  unfold touch. destruct (String.eqb_spec a b) as [->|Hab].
  - rewrite lookup_update_same, lookup_add_default.
    now rewrite String.eqb_refl.
  - rewrite lookup_update_str by exact Hab. rewrite lookup_add_default.
    apply String.eqb_neq in Hab. now rewrite Hab.
Qed.

Lemma lookup_map_values (f : V -> V) k d :
  lookup k (map (fun kx => (fst kx, f (snd kx))) d) = option_map f (lookup k d).
Proof.
  induction d as [|[k' x] d IH]; simpl; [reflexivity|].
  destruct (py_eq k' k); [reflexivity|exact IH].
Qed.

Lemma keys_map_values (f : V -> V) d :
  keys (map (fun kx => (fst kx, f (snd kx))) d) = keys d.
Proof. unfold keys. rewrite map_map. reflexivity. Qed.

(** [for k in d: c(d[k])] when [c] ends normally on every stored object. *)
Lemma for_keys_run (c : M V unit) (f : V -> V) d :
  str_keys d ->
  (forall k x, In (k, x) d -> c x = (Ok tt, f x)) ->
  for_each (keys d) (fun k => at_key k c) d =
  (Ok tt, map (fun kx => (fst kx, f (snd kx))) d).
Proof.
  intros Hd Hc.
  enough (H : forall suf pre,
             str_keys (pre ++ suf) ->
             (forall k x, In (k, x) suf -> c x = (Ok tt, f x)) ->
             for_each (keys suf) (fun k => at_key k c) (pre ++ suf) =
             (Ok tt, pre ++ map (fun kx => (fst kx, f (snd kx))) suf))
    by (apply (H d []); auto).
  clear. induction suf as [|[k x] suf IH]; intros pre Hd Hc; simpl.
  - now rewrite app_nil_r.
  - unfold bind.
    assert (Hk : exists a, k = PStr a).
    { destruct Hd as [_ Hs]. unfold keys in Hs. rewrite map_app in Hs.
      apply Forall_app in Hs as [_ Hs]. now inversion Hs. }
    destruct Hk as [a ->].
    assert (Hpre : lookup (PStr a) pre = None).
    { destruct Hd as [Hnd Hs]. unfold keys in Hnd, Hs. rewrite map_app in Hnd, Hs.
      apply Forall_app in Hs as [Hs _].
      apply lookup_none_not_in; [exact Hs|].
      simpl in Hnd. apply NoDup_remove_2 in Hnd. intros Hin. apply Hnd.
      apply in_or_app. now left. }
    rewrite (at_key_run (PStr a) c (pre ++ (PStr a, x) :: suf) x (Ok tt) (f x)).
    + rewrite update_app_none by exact Hpre. simpl. rewrite String.eqb_refl.
      change (pre ++ (PStr a, f x) :: suf) with (pre ++ [(PStr a, f x)] ++ suf).
      rewrite app_assoc. rewrite IH.
      * now rewrite <- app_assoc.
      * eapply str_keys_same_keys; [|exact Hd].
        unfold keys. now rewrite <- app_assoc, !map_app.
      * intros k y Hin. apply (Hc k y). now right.
    + reflexivity.
    + rewrite lookup_app, Hpre. simpl. now rewrite String.eqb_refl.
    + apply (Hc (PStr a) x). now left.
Qed.

End StrKeys.

(** ** The aggregation loops on well-shaped documents *)

Lemma mul1000_num (v : num) : mul1000 (num_value v) = Ok (num_value (scale v)).
Proof. now destruct v. Qed.

Lemma touch_run {V} (a : string) (c : M V unit) (f : V -> V) (x : V)
      (d : dict V) :
  (forall y, c y = (Ok tt, f y)) ->
  (setdefault (PStr a) x ;; at_key (PStr a) c) d =
  (Ok tt, touch (PStr a) f x d).
Proof.
  intros Hc. unfold bind, setdefault, modify. simpl.
  pose proof (lookup_add_default a a x d) as Hl.
  rewrite String.eqb_refl in Hl.
  rewrite (at_key_run (PStr a) c _ _ (Ok tt) (f (get_default x (PStr a) d))
             eq_refl Hl (Hc _)).
  unfold touch. f_equal. apply update_ext. intros y Hy.
  rewrite Hl in Hy. now injection Hy as <-.
Qed.

Lemma disk_aggregate_run (r : measure) (d : Disk.store) :
  Disk.aggregate (measure_value r) d = (Ok tt, collect disk_tuple d r).
Proof.
  destruct r as [[m n] v].
  unfold Disk.aggregate, measure_value, metric. simpl.
  unfold bind at 1. unfold lift at 1.
  change ((setdefault (PStr m) [] ;;
           scaled <- lift (mul1000 (num_value v)) ;;
           at_key (PStr m) (append (PInt n, scaled))) d =
          (Ok tt, collect disk_tuple d (m, n, v))).
  unfold bind, setdefault, modify, lift. simpl. rewrite mul1000_num.
  pose proof (lookup_add_default m m [] d) as Hl.
  rewrite String.eqb_refl in Hl.
  erewrite at_key_run; [|reflexivity|exact Hl|reflexivity].
  unfold collect, touch, disk_tuple, point_value, scale_point, point_of, metric.
  simpl. f_equal. apply update_ext. intros y Hy.
  pose proof (eq_trans (eq_sym Hl) Hy) as E. now injection E as <-.
Qed.

Lemma disk_loop_run (records : list measure) (d : Disk.store) :
  for_each (map measure_value records) Disk.aggregate d =
  (Ok tt, fold_left (collect disk_tuple) records d).
Proof.
  revert d. induction records as [|r records IH]; intros d; simpl;
    [reflexivity|].
  unfold bind. rewrite disk_aggregate_run. apply IH.
Qed.

Lemma lookup_collect (f : measure -> tuple) (records : list measure)
      (d : dict series) (k : string) :
  lookup (PStr k) (fold_left (collect f) records d) =
  match filter (fun r => String.eqb (metric r) k) records with
  | [] => lookup (PStr k) d
  | l => Some (entries (PStr k) d ++ map f l)
  end.
Proof.
  revert d. induction records as [|r records IH]; intros d; simpl;
    [reflexivity|].
  rewrite IH. unfold entries, get_default, collect.
  rewrite lookup_touch.
  destruct (String.eqb_spec (metric r) k) as [->|Hn]; simpl.
  - unfold get_default.
    destruct (filter _ records); simpl; [reflexivity|].
    rewrite ?lookup_touch, ?String.eqb_refl. unfold get_default.
    now rewrite <- app_assoc.
  - destruct (filter _ records); simpl; [reflexivity|].
    rewrite ?lookup_touch. apply String.eqb_neq in Hn. now rewrite ?Hn.
Qed.

Lemma str_keys_collect (f : measure -> tuple) (records : list measure)
      (d : dict series) :
  str_keys d -> str_keys (fold_left (collect f) records d).
Proof.
  revert d. induction records as [|r records IH]; intros d Hd; simpl;
    [exact Hd|].
  apply IH. now apply str_keys_touch.
Qed.

(** ** The sorting loops on series of points *)

Lemma sort_run (s s' : series) :
  list_sort s = Ok s' -> Py.sort s = (Ok tt, sorted_or_same s).
Proof.
  intros H. unfold Py.sort, sorted_or_same, bind, get, lift, put.
  now rewrite H.
Qed.

Lemma sorted_points (pts : list point) :
  sorted_or_same (map point_value pts) = map point_value (sort_points pts).
Proof. unfold sorted_or_same. now rewrite list_sort_points. Qed.

Lemma collect_entry (g : measure -> point) (records : list measure) k s :
  In (k, s) (fold_left (collect (fun r => point_value (g r))) records []) ->
  exists a, k = PStr a /\
    s = map point_value
          (map g (filter (fun r => String.eqb (metric r) a) records)).
Proof.
  intros Hin.
  assert (Hd : str_keys
                 (fold_left (collect (fun r => point_value (g r))) records []))
    by apply str_keys_collect, str_keys_nil.
  assert (Hk : exists a, k = PStr a).
  { destruct Hd as [_ Hs]. rewrite Forall_forall in Hs. apply Hs.
    unfold keys. apply in_map_iff. exists (k, s). auto. }
  destruct Hk as [a ->]. exists a. split; [reflexivity|].
  pose proof (str_keys_lookup _ _ _ Hd Hin) as Hl.
  rewrite lookup_collect in Hl.
  destruct (filter _ records) as [|r l]; [discriminate|].
  injection Hl as <-. unfold entries, get_default. simpl.
  now rewrite map_map.
Qed.

Lemma disk_sort_all_run (records : list measure) :
  Disk.sort_all (fold_left (collect disk_tuple) records []) =
  (Ok tt, map (fun kx => (fst kx, sorted_or_same (snd kx)))
            (fold_left (collect disk_tuple) records [])).
Proof.
  unfold Disk.sort_all, bind, get.
  apply for_keys_run; [apply str_keys_collect, str_keys_nil|].
  intros k s Hin.
  apply (collect_entry (fun r => scale_point (point_of r))) in Hin
    as (a & -> & ->).
  eapply sort_run. apply list_sort_points.
Qed.

(** The disk loader on a well-shaped document. *)
Lemma disk_load_typed (records : list measure) (s0 : Disk.store) :
  exists data,
    Disk.load (flat records) s0 = (Ok tt, data) /\
    str_keys data /\
    forall m,
      lookup (PStr m) data =
      match under m records with
      | [] => None
      | pts => Some (map point_value (sort_points (map scale_point pts)))
      end.
Proof.
  eexists. split; [|split].
  - unfold Disk.load, flat, bind, put, lift. simpl.
    rewrite disk_loop_run. apply disk_sort_all_run.
  - eapply str_keys_same_keys; [apply keys_map_values|].
    apply str_keys_collect, str_keys_nil.
  - intros m. rewrite lookup_map_values, lookup_collect. unfold under.
    destruct (filter _ records) as [|r l]; [reflexivity|].
    transitivity
      (Some (map point_value
               (sort_points (map scale_point (map point_of (r :: l))))));
      [|reflexivity].
    simpl option_map. f_equal. rewrite <- sorted_points, !map_map.
    reflexivity.
Qed.

(** ** The diet loader on well-shaped documents *)

Lemma append_run (t : tuple) (s : series) : append t s = (Ok tt, s ++ [t]).
Proof. reflexivity. Qed.

Lemma diet_aggregate_run (K : string) (r : measure) (d : Diet.store) sub :
  lookup (PStr K) d = Some sub ->
  Diet.aggregate (PStr K) (measure_value r) d =
  (Ok tt, update (PStr K) (fun _ => collect diet_tuple sub r) d).
Proof.
  intros Hl. destruct r as [[m n] v].
  unfold Diet.aggregate, measure_value, metric. simpl.
  unfold bind at 1. unfold lift at 1.
  apply (at_key_run (PStr K) _ d sub); [reflexivity|exact Hl|].
  apply (touch_run m (append (PInt n, num_value v))
           (fun s => s ++ [diet_tuple (m, n, v)])).
  intros y. apply append_run.
Qed.

Lemma diet_inner_run (K : string) (ms : list measure) :
  forall (d : Diet.store) sub,
    lookup (PStr K) d = Some sub ->
    for_each (map measure_value ms) (Diet.aggregate (PStr K)) d =
    (Ok tt, update (PStr K) (fun _ => fold_left (collect diet_tuple) ms sub) d).
Proof.
  induction ms as [|r ms IH]; intros d sub Hl; simpl.
  - unfold ret. now rewrite update_id.
  - unfold bind. rewrite (diet_aggregate_run K r d sub Hl).
    rewrite (IH _ (collect diet_tuple sub r)).
    + now rewrite update_update.
    + rewrite lookup_update_same, Hl. reflexivity.
Qed.

Lemma diet_group_run (g : group) (d : Diet.store) :
  Diet.aggregate_group (group_value g) d = (Ok tt, collect_group d g).
Proof.
  destruct g as [K ms].
  unfold Diet.aggregate_group, group_value. simpl.
  unfold bind at 1. unfold lift at 1.
  unfold bind, setdefault, modify, lift, flat. simpl.
  pose proof (lookup_add_default K K (@nil (value * series)) d) as Hl.
  rewrite String.eqb_refl in Hl.
  rewrite (diet_inner_run K ms _ _ Hl).
  unfold collect_group, touch. simpl. f_equal. apply update_ext.
  intros y Hy. pose proof (eq_trans (eq_sym Hl) Hy) as E.
  now injection E as <-.
Qed.

Lemma diet_loop_run (groups : list group) (d : Diet.store) :
  for_each (map group_value groups) Diet.aggregate_group d =
  (Ok tt, fold_left collect_group groups d).
Proof.
  revert d. induction groups as [|g groups IH]; intros d; simpl;
    [reflexivity|].
  unfold bind. rewrite diet_group_run. apply IH.
Qed.

Lemma of_kind_absent (groups : list group) (K : string) :
  existsb (fun g => String.eqb (fst g) K) groups = false ->
  of_kind K groups = [].
Proof.
  induction groups as [|g groups IH]; simpl; [reflexivity|].
  destruct (String.eqb (fst g) K); simpl; [discriminate|exact IH].
Qed.

Lemma lookup_collect_group (groups : list group) (d : Diet.store)
      (K : string) :
  lookup (PStr K) (fold_left collect_group groups d) =
  if existsb (fun g => String.eqb (fst g) K) groups
  then Some (fold_left (collect diet_tuple) (of_kind K groups)
               (get_default [] (PStr K) d))
  else lookup (PStr K) d.
Proof.
  revert d. induction groups as [|g groups IH]; intros d; simpl;
    [reflexivity|].
  rewrite IH, fold_left_app. unfold get_default, collect_group.
  rewrite lookup_touch.
  rewrite !lookup_touch.
  destruct (String.eqb_spec (fst g) K) as [->|Hn]; simpl.
  - unfold get_default.
    match goal with
    | |- context [existsb ?f groups] => destruct (existsb f groups) eqn:E
    end; [reflexivity|].
    now rewrite (of_kind_absent groups K E).
  - reflexivity.
Qed.

Lemma str_keys_collect_group (groups : list group) (d : Diet.store) :
  str_keys d -> str_keys (fold_left collect_group groups d).
Proof.
  revert d. induction groups as [|g groups IH]; intros d Hd; simpl;
    [exact Hd|].
  apply IH. now apply str_keys_touch.
Qed.

Lemma collect_group_entry (groups : list group) k sub :
  In (k, sub) (fold_left collect_group groups []) ->
  exists K, k = PStr K /\
    sub = fold_left (collect diet_tuple) (of_kind K groups) [].
Proof.
  intros Hin.
  assert (Hd : str_keys (fold_left collect_group groups []))
    by apply str_keys_collect_group, str_keys_nil.
  assert (Hk : exists a, k = PStr a).
  { destruct Hd as [_ Hs]. rewrite Forall_forall in Hs. apply Hs.
    unfold keys. apply in_map_iff. exists (k, sub). auto. }
  destruct Hk as [K ->]. exists K. split; [reflexivity|].
  pose proof (str_keys_lookup _ _ _ Hd Hin) as Hl.
  rewrite lookup_collect_group in Hl.
  match type of Hl with
  | context [existsb ?f groups] => destruct (existsb f groups)
  end; [|discriminate].
  now injection Hl as <-.
Qed.

Lemma sort_sub_run (ms : list measure) :
  (sub_data <- get ;;
   for_each (keys sub_data) (fun k => at_key k Py.sort))
    (fold_left (collect diet_tuple) ms []) =
  (Ok tt, map (fun kx => (fst kx, sorted_or_same (snd kx)))
            (fold_left (collect diet_tuple) ms [])).
Proof.
  unfold bind, get.
  apply for_keys_run; [apply str_keys_collect, str_keys_nil|].
  intros k s Hin.
  apply (collect_entry point_of) in Hin as (a & -> & ->).
  eapply sort_run. apply list_sort_points.
Qed.

Lemma lookup_sorted_sub (ms : list measure) (m : string) :
  lookup (PStr m)
    (map (fun kx => (fst kx, sorted_or_same (snd kx)))
       (fold_left (collect diet_tuple) ms [])) =
  match under m ms with
  | [] => None
  | pts => Some (map point_value (sort_points pts))
  end.
Proof.
  rewrite lookup_map_values, lookup_collect. unfold under.
  destruct (filter _ ms) as [|r l]; [reflexivity|].
  transitivity
    (Some (map point_value (sort_points (map point_of (r :: l)))));
    [|reflexivity].
  simpl option_map. f_equal. rewrite <- sorted_points, !map_map.
  reflexivity.
Qed.

(** The diet loader on a well-shaped document. *)
Lemma diet_load_typed (groups : list group) (s0 : Diet.store) :
  exists data,
    Diet.load (grouped groups) s0 = (Ok tt, data) /\
    str_keys data /\
    (forall K,
        lookup (PStr K) data =
        if existsb (fun g => String.eqb (fst g) K) groups
        then Some (map (fun kx => (fst kx, sorted_or_same (snd kx)))
                     (fold_left (collect diet_tuple) (of_kind K groups) []))
        else None).
Proof.
  exists (map (fun kx =>
                 (fst kx,
                  map (fun kx' => (fst kx', sorted_or_same (snd kx')))
                    (snd kx)))
            (fold_left collect_group groups [])).
  split; [|split].
  - unfold Diet.load, grouped, bind, put, lift. simpl.
    rewrite diet_loop_run. unfold Diet.sort_all, bind, get.
    apply (for_keys_run _
             (fun sub => map (fun kx' => (fst kx', sorted_or_same (snd kx')))
                           sub));
      [apply str_keys_collect_group, str_keys_nil|].
    intros k sub Hin. apply collect_group_entry in Hin as (K & -> & ->).
    apply sort_sub_run.
  - eapply str_keys_same_keys;
      [apply (keys_map_values
                (fun sub : dict series =>
                   map (fun kx' => (fst kx', sorted_or_same (snd kx'))) sub))|].
    apply str_keys_collect_group, str_keys_nil.
  - intros K.
    rewrite (lookup_map_values
               (fun sub : dict series =>
                  map (fun kx' => (fst kx', sorted_or_same (snd kx'))) sub)).
    rewrite lookup_collect_group.
    match goal with
    | |- context [existsb ?f groups] => destruct (existsb f groups)
    end; reflexivity.
Qed.

Lemma str_keys_sorted_sub (ms : list measure) :
  str_keys (map (fun kx => (fst kx, sorted_or_same (snd kx)))
              (fold_left (collect diet_tuple) ms [])).
Proof.
  eapply str_keys_same_keys; [apply keys_map_values|].
  apply str_keys_collect, str_keys_nil.
Qed.

Lemma under_nonempty (m : string) (ms : list measure) :
  under m ms <> [] <-> exists r, In r ms /\ metric r = m.
Proof.
  unfold under. split.
  - intros H. destruct (filter _ ms) as [|r l] eqn:E; [now elim H|].
    assert (Hin : In r (filter (fun r => String.eqb (metric r) m) ms))
      by (rewrite E; now left).
    apply filter_In in Hin as [Hin He]. apply String.eqb_eq in He. eauto.
  - intros (r & Hin & He) E.
    assert (Hr : In r (filter (fun r => String.eqb (metric r) m) ms)).
    { apply filter_In. split; [exact Hin|]. now apply String.eqb_eq. }
    apply (in_map point_of) in Hr. rewrite E in Hr. exact Hr.
Qed.

Lemma in_of_kind (K : string) (groups : list group) (r : measure) :
  In r (of_kind K groups) <-> exists g, In g groups /\ fst g = K /\ In r (snd g).
Proof.
  unfold of_kind. rewrite in_flat_map. split.
  - intros (g & Hg & Hr). destruct (String.eqb_spec (fst g) K); [eauto|].
    contradiction.
  - intros (g & Hg & He & Hr). exists g. split; [exact Hg|].
    apply String.eqb_eq in He. now rewrite He.
Qed.

(** ** What the loaders store for every key *)

Lemma disk_entries_typed (records : list measure) (s0 : Disk.store) :
  exists data,
    Disk.load (flat records) s0 = (Ok tt, data) /\
    str_keys data /\
    (forall m, lookup (PStr m) data <> None <-> under m records <> []) /\
    forall m,
      entries (PStr m) data =
      map point_value (sort_points (map scale_point (under m records))).
Proof.
  destruct (disk_load_typed records s0) as (data & Hrun & Hkeys & Hl).
  exists data. split; [exact Hrun|]. split; [exact Hkeys|]. split.
  - intros m. rewrite Hl. now destruct (under m records).
  - intros m. unfold entries, get_default. rewrite Hl.
    now destruct (under m records).
Qed.

Lemma diet_lookup2_typed (groups : list group) (s0 : Diet.store) :
  exists data,
    Diet.load (grouped groups) s0 = (Ok tt, data) /\
    str_keys data /\
    (forall K sub, lookup (PStr K) data = Some sub -> str_keys sub) /\
    (forall K, lookup (PStr K) data <> None <->
               exists g, In g groups /\ fst g = K) /\
    forall K m,
      Diet.lookup2 (PStr K) (PStr m) data =
      match under m (of_kind K groups) with
      | [] => None
      | pts => Some (map point_value (sort_points pts))
      end.
Proof.
  destruct (diet_load_typed groups s0) as (data & Hrun & Hkeys & Hl).
  exists data. split; [exact Hrun|]. split; [exact Hkeys|].
  split; [|split].
  - intros K sub H. rewrite Hl in H.
    match type of H with
    | context [existsb ?f groups] => destruct (existsb f groups)
    end; [|discriminate].
    injection H as <-. apply str_keys_sorted_sub.
  - intros K. rewrite Hl.
    match goal with
    | |- context [existsb ?f groups] => destruct (existsb f groups) eqn:E
    end.
    + split; [intros _|discriminate].
      apply existsb_exists in E as (g & Hg & He).
      apply String.eqb_eq in He. eauto.
    + split; [congruence|]. intros (g & Hg & He).
      assert (Ht : existsb (fun g => String.eqb (fst g) K) groups = true).
      { apply existsb_exists. exists g. split; [exact Hg|].
        now apply String.eqb_eq. }
      congruence.
  - intros K m. unfold Diet.lookup2. rewrite Hl.
    match goal with
    | |- context [existsb ?f groups] => destruct (existsb f groups) eqn:E
    end.
    + apply lookup_sorted_sub.
    + now rewrite (of_kind_absent groups K E).
Qed.

Lemma diet_series_typed (groups : list group) (s0 : Diet.store) :
  exists data,
    Diet.load (grouped groups) s0 = (Ok tt, data) /\
    forall K m,
      Diet.series_of (PStr K) (PStr m) data =
      map point_value (sort_points (under m (of_kind K groups))).
Proof.
  destruct (diet_lookup2_typed groups s0) as (data & Hrun & _ & _ & _ & Hl).
  exists data. split; [exact Hrun|]. intros K m.
  unfold Diet.series_of. rewrite Hl. now destruct (under m (of_kind K groups)).
Qed.

(** ** Aggregation keeps exactly what was submitted *)

(** C1. For every sequence of input tuples, the series that the loader
    builds for a key holds exactly the [(n, value)] pairs submitted under
    that key (with the value times 1000 in the disk form): as multisets the
    two agree, so no pair is dropped, none is invented, and pairs with
    equal [n] stay separate entries.  The loaders end normally on every
    such input. *)
Theorem series_hold_exactly_the_submitted_pairs :
  (forall (records : list measure) (s0 : Disk.store),
      exists data,
        Disk.load (flat records) s0 = (Ok tt, data) /\
        forall m,
          Permutation (entries (PStr m) data)
            (map point_value (map scale_point (under m records))))
  /\
  (forall (groups : list group) (s0 : Diet.store),
      exists data,
        Diet.load (grouped groups) s0 = (Ok tt, data) /\
        forall kind m,
          Permutation (Diet.series_of (PStr kind) (PStr m) data)
            (map point_value (under m (of_kind kind groups)))).
Proof.
  split.
  - intros records s0.
    destruct (disk_entries_typed records s0) as (data & Hrun & _ & _ & He).
    exists data. split; [exact Hrun|]. intros m. rewrite He.
    apply Permutation_map, sort_points_perm.
  - intros groups s0.
    destruct (diet_series_typed groups s0) as (data & Hrun & He).
    exists data. split; [exact Hrun|]. intros kind m. rewrite He.
    apply Permutation_map, sort_points_perm.
Qed.

(** ** Scaling a number never gives a NaN *)

Lemma shr_1_nonneg (mrs : shr_record) :
  0 <= shr_m mrs -> 0 <= shr_m (shr_1 mrs).
Proof.
  destruct mrs as [m r s]. simpl.
  destruct m as [|[p|p|]|[p|p|]]; simpl; lia.
Qed.

Lemma iter_shr_1_nonneg (p : positive) :
  forall mrs, 0 <= shr_m mrs -> 0 <= shr_m (iter_pos shr_1 p mrs).
Proof.
  induction p as [p IH|p IH|]; intros mrs H; simpl.
  - apply IH, IH, shr_1_nonneg, H.
  - apply IH, IH, H.
  - apply shr_1_nonneg, H.
Qed.

Lemma shr_fexp_nonneg (prec emax m e : Z) (l : location) :
  0 <= m -> 0 <= shr_m (fst (shr_fexp prec emax m e l)).
Proof.
  intros H. unfold shr_fexp, shr.
  assert (H0 : 0 <= shr_m (shr_record_of_loc m l))
    by (destruct l as [|[]]; exact H).
  destruct (_ - e); simpl; auto using iter_shr_1_nonneg.
Qed.

Lemma round_nearest_even_nonneg (m : Z) (l : location) :
  0 <= m -> 0 <= round_nearest_even m l.
Proof.
  intros H. destruct l as [|[]]; simpl; try lia.
  destruct (Z.even m); lia.
Qed.

Lemma binary_round_aux_not_nan (prec emax : Z) (s : bool) (m : positive)
      (e : Z) (l : location) :
  binary_round_aux prec emax s (Zpos m) e l <> S754_nan.
Proof.
  unfold binary_round_aux.
  pose proof (shr_fexp_nonneg prec emax (Zpos m) e l) as H1.
  destruct (shr_fexp prec emax (Zpos m) e l) as [mrs' e'].
  simpl in H1. specialize (H1 ltac:(lia)).
  pose proof (shr_fexp_nonneg prec emax
                (round_nearest_even (shr_m mrs') (loc_of_shr_record mrs'))
                e' loc_Exact
                (round_nearest_even_nonneg _ _ H1)) as H2.
  destruct (shr_fexp prec emax _ e' loc_Exact) as [mrs'' e''].
  simpl in H2. destruct (shr_m mrs''); try discriminate; try lia.
  destruct (e'' <=? _); discriminate.
Qed.

Lemma mul1000_not_nan (f : float) :
  Prim2SF f <> S754_nan -> Prim2SF (f * 1000)%float <> S754_nan.
Proof.
  intros H. rewrite mul_spec. unfold SF64mul.
  change (Prim2SF 1000%float) with (S754_finite false 8796093022208000 (-43)).
  destruct (Prim2SF f) as [s|s| |s m e]; simpl; try discriminate.
  - congruence.
  - apply binary_round_aux_not_nan.
Qed.

Lemma scale_not_nan (v : num) : is_nan v = false -> is_nan (scale v) = false.
Proof.
  destruct v as [z|f]; [reflexivity|].
  unfold is_nan, scale, num_xnum, float_xnum, sf_xnum. intros H.
  pose proof (mul1000_not_nan f) as Hm.
  destruct (Prim2SF f) as [s|s| |s m e]; try discriminate;
    (destruct (Prim2SF (f * 1000)%float) as [s'|[]| |[] m' e'];
     [reflexivity..|now elim Hm|reflexivity|reflexivity]).
Qed.

(** ** Order of a series *)

Lemma under_in (m : string) (ms : list measure) (p : point) :
  In p (under m ms) -> exists r, In r ms /\ metric r = m /\ p = point_of r.
Proof.
  unfold under. intros H. apply in_map_iff in H as (r & <- & Hr).
  apply filter_In in Hr as [Hr He]. apply String.eqb_eq in He. eauto.
Qed.

(** C2, counterexample.  Two pairs with [n = 1] are appended in the order
    [(1, 5)], [(1, 3)]; after the load the series lists [(1, 3)] first, in
    both scripts: the sort compares whole tuples, so equal [n] are ordered
    by value and not by the order of appending. *)
Lemma equal_n_pairs_are_reordered :
  under "m" [("m", 1, NInt 5); ("m", 1, NInt 3)] = [(1, NInt 5); (1, NInt 3)]
  /\ Diet.load (grouped [("k", [("m", 1, NInt 5); ("m", 1, NInt 3)])]) [] =
     (Ok tt, [(PStr "k", [(PStr "m", [(PInt 1, PInt 3); (PInt 1, PInt 5)])])])
  /\ Disk.load (flat [("m", 1, NInt 5); ("m", 1, NInt 3)]) [] =
     (Ok tt, [(PStr "m", [(PInt 1, PInt 3000); (PInt 1, PInt 5000)])]).
Proof. repeat split; vm_compute; reflexivity. Qed.

(** C2, amended.  On every well-shaped document whose values are numbers
    (no NaN), the load ends with each series sorted by Python's order on the
    tuples [(n, value)]: the series is a rearrangement of the appended pairs
    in which [n] never decreases and pairs with equal [n] are in
    non-decreasing order of value. *)
Theorem series_sorted_by_n_then_value :
  (forall (records : list measure) (s0 : Disk.store),
      Forall (fun r => is_nan (snd r) = false) records ->
      exists data,
        Disk.load (flat records) s0 = (Ok tt, data) /\
        forall m, exists pts,
            entries (PStr m) data = map point_value pts /\
            Permutation pts (map scale_point (under m records)) /\
            StronglySorted point_le pts)
  /\
  (forall (groups : list group) (s0 : Diet.store),
      Forall (fun g => Forall (fun r => is_nan (snd r) = false) (snd g))
        groups ->
      exists data,
        Diet.load (grouped groups) s0 = (Ok tt, data) /\
        forall kind m, exists pts,
            Diet.series_of (PStr kind) (PStr m) data = map point_value pts /\
            Permutation pts (under m (of_kind kind groups)) /\
            StronglySorted point_le pts).
Proof.
  split.
  - intros records s0 Hnan.
    destruct (disk_entries_typed records s0) as (data & Hrun & _ & _ & He).
    exists data. split; [exact Hrun|]. intros m.
    exists (sort_points (map scale_point (under m records))).
    split; [apply He|]. split; [apply sort_points_perm|].
    apply sort_points_sorted. apply Forall_forall. intros p Hp.
    apply in_map_iff in Hp as (q & <- & Hq).
    apply under_in in Hq as (r & Hr & _ & ->).
    rewrite Forall_forall in Hnan. exact (scale_not_nan _ (Hnan r Hr)).
  - intros groups s0 Hnan.
    destruct (diet_series_typed groups s0) as (data & Hrun & He).
    exists data. split; [exact Hrun|]. intros kind m.
    exists (sort_points (under m (of_kind kind groups))).
    split; [apply He|]. split; [apply sort_points_perm|].
    apply sort_points_sorted. apply Forall_forall. intros p Hp.
    apply under_in in Hp as (r & Hr & _ & ->).
    apply in_of_kind in Hr as (g & Hg & _ & Hr).
    rewrite Forall_forall in Hnan. specialize (Hnan g Hg).
    rewrite Forall_forall in Hnan. exact (Hnan r Hr).
Qed.

(** A document of each form on which the amended C2 applies. *)
Lemma series_sorted_by_n_then_value_witness :
  (exists data,
      Disk.load (flat [("w", 2, NFloat 0.5); ("w", 1, NInt 3)]) [] =
      (Ok tt, data) /\
      forall m, exists pts,
          entries (PStr m) data = map point_value pts /\
          Permutation pts
            (map scale_point
               (under m [("w", 2, NFloat 0.5); ("w", 1, NInt 3)])) /\
          StronglySorted point_le pts)
  /\
  (exists data,
      Diet.load (grouped [("t", [("a", 2, NInt 7); ("a", 2, NInt 4)])]) [] =
      (Ok tt, data) /\
      forall kind m, exists pts,
          Diet.series_of (PStr kind) (PStr m) data = map point_value pts /\
          Permutation pts
            (under m (of_kind kind [("t", [("a", 2, NInt 7); ("a", 2, NInt 4)])]))
          /\ StronglySorted point_le pts).
Proof.
  split.
  - apply (proj1 series_sorted_by_n_then_value).
    repeat constructor.
  - apply (proj2 series_sorted_by_n_then_value).
    repeat constructor.
Defined.

(** ** Scaling of the disk values *)

Lemma disk_load_fresh (doc : value) (s0 s1 : Disk.store) :
  Disk.load doc s0 = Disk.load doc s1.
Proof. reflexivity. Qed.

Lemma scatter_present (fit : list value -> list value -> result (list value))
      (data : Disk.store) (k : string) (s : series) :
  lookup (PStr k) data = Some s -> s <> [] ->
  Disk.scatter fit data (PStr k) =
  rbind (fit (map fst s) (map snd s))
    (fun line => Ok (map fst s, map snd s, line)).
Proof.
  intros Hl Hs. unfold Disk.scatter, getitem. simpl. rewrite Hl. simpl.
  destruct s; [contradiction|reflexivity].
Qed.

(** C3.  For every disk document, each record [(metric, n, v)] is stored
    as [(n, v * 1000)], where [*] is Python's product (exact on integers,
    the binary64 product on floats): the series of a metric is a
    rearrangement of the pairs [(n, v * 1000)] of its records.  Nothing
    after the loading loop rescales: [scatter] hands the stored coordinates
    to the plot and to the regression as they are, and loading the same
    document again, whatever the store left by the previous load, gives
    the same store. *)
Theorem disk_values_scaled_exactly_once :
  forall (records : list measure) (s0 : Disk.store),
  exists data,
    Disk.load (flat records) s0 = (Ok tt, data) /\
    (forall m,
        Permutation (entries (PStr m) data)
          (map (fun r => (PInt (snd (fst r)), num_value (scale (snd r))))
             (filter (fun r => String.eqb (metric r) m) records))) /\
    (forall fit r,
        In r records ->
        Disk.scatter fit data (PStr (metric r)) =
        rbind (fit (map fst (entries (PStr (metric r)) data))
                 (map snd (entries (PStr (metric r)) data)))
          (fun line =>
             Ok (map fst (entries (PStr (metric r)) data),
                 map snd (entries (PStr (metric r)) data), line))) /\
    (Disk.load (flat records) ;; Disk.load (flat records)) s0 = (Ok tt, data).
Proof.
  intros records s0.
  destruct (disk_entries_typed records s0) as (data & Hrun & _ & Hin & He).
  exists data. split; [exact Hrun|]. split; [|split].
  - intros m. rewrite He. unfold under. rewrite !map_map.
    rewrite <- (map_map (fun r => scale_point (point_of r)) point_value).
    apply Permutation_map.
    rewrite <- (map_map point_of scale_point). apply sort_points_perm.
  - intros fit r Hr.
    assert (Hne : lookup (PStr (metric r)) data <> None).
    { apply Hin. apply under_nonempty. eauto. }
    destruct (lookup (PStr (metric r)) data) as [s|] eqn:El; [|congruence].
    assert (Es : entries (PStr (metric r)) data = s)
      by (unfold entries, get_default; now rewrite El).
    rewrite Es. apply scatter_present; [exact El|].
    intros ->. rewrite He in Es.
    assert (Hp : Permutation
                   (map scale_point (under (metric r) records)) [])
      by (rewrite <- (sort_points_perm (map scale_point _));
          now destruct (sort_points _)).
    apply Permutation_sym, Permutation_nil in Hp.
    apply map_eq_nil in Hp. revert Hp. apply under_nonempty. eauto.
  - unfold bind. rewrite Hrun.
    now rewrite (disk_load_fresh (flat records) data s0).
Qed.

(** The disk scenario of the documentation, as an instance of C3. *)
Lemma disk_values_scaled_exactly_once_witness :
  exists data,
    Disk.load
      (flat [("sequential.read", 1, NFloat 0.002);
             ("sequential.read", 2, NFloat 0.004)]) [] = (Ok tt, data) /\
    (forall m,
        Permutation (entries (PStr m) data)
          (map (fun r => (PInt (snd (fst r)), num_value (scale (snd r))))
             (filter (fun r => String.eqb (metric r) m)
                [("sequential.read", 1, NFloat 0.002);
                 ("sequential.read", 2, NFloat 0.004)]))) /\
    (forall fit r,
        In r [("sequential.read", 1, NFloat 0.002);
              ("sequential.read", 2, NFloat 0.004)] ->
        Disk.scatter fit data (PStr (metric r)) =
        rbind (fit (map fst (entries (PStr (metric r)) data))
                 (map snd (entries (PStr (metric r)) data)))
          (fun line =>
             Ok (map fst (entries (PStr (metric r)) data),
                 map snd (entries (PStr (metric r)) data), line))) /\
    (Disk.load
       (flat [("sequential.read", 1, NFloat 0.002);
              ("sequential.read", 2, NFloat 0.004)]) ;;
     Disk.load
       (flat [("sequential.read", 1, NFloat 0.002);
              ("sequential.read", 2, NFloat 0.004)])) [] = (Ok tt, data).
Proof.
  exact (disk_values_scaled_exactly_once
           [("sequential.read", 1, NFloat 0.002);
            ("sequential.read", 2, NFloat 0.004)] []).
Defined.

(** ** Keys of the aggregated map *)

Lemma lookup_str_key {V} (k : value) (x : V) (d : dict V) :
  str_keys d -> lookup k d = Some x -> exists a, k = PStr a.
Proof.
  intros [_ Hs] Hl. apply lookup_In in Hl as (k' & Hin & He).
  rewrite Forall_forall in Hs.
  destruct (Hs k') as [a ->].
  - unfold keys. apply in_map_iff. exists (k', x). auto.
  - apply py_eq_str_l in He. eauto.
Qed.

(** C8.  For every document, the keys of the aggregated map are exactly the
    metrics (disk) or the (kind, metric) pairs (diet) borne by a tuple of
    the input; no key occurs twice.  As this holds of every document, it
    holds of every prefix of one: a key is there as soon as a tuple bearing
    it has been read, and not before. *)
Theorem keys_are_exactly_the_observed_ones :
  (forall (records : list measure) (s0 : Disk.store),
      exists data,
        Disk.load (flat records) s0 = (Ok tt, data) /\
        NoDup (keys data) /\
        forall k : value,
          In k (keys data) <->
          exists r, In r records /\ k = PStr (metric r))
  /\
  (forall (groups : list group) (s0 : Diet.store),
      exists data,
        Diet.load (grouped groups) s0 = (Ok tt, data) /\
        NoDup (keys data) /\
        forall kind m : value,
          (exists sub_data,
              lookup kind data = Some sub_data /\ In m (keys sub_data)) <->
          exists g r,
            In g groups /\ In r (snd g) /\
            kind = PStr (fst g) /\ m = PStr (metric r)).
Proof.
  split.
  - intros records s0.
    destruct (disk_entries_typed records s0) as (data & Hrun & Hk & Hin & _).
    exists data. split; [exact Hrun|]. split; [apply Hk|].
    intros k. rewrite (str_keys_in k data Hk). split.
    + intros Hl. destruct (lookup k data) as [s|] eqn:E; [|congruence].
      destruct (lookup_str_key k s data Hk E) as [a ->].
      assert (Hu : under a records <> []) by (apply Hin; congruence).
      apply under_nonempty in Hu as (r & Hr & <-). eauto.
    + intros (r & Hr & ->). apply Hin. apply under_nonempty. eauto.
  - intros groups s0.
    destruct (diet_lookup2_typed groups s0)
      as (data & Hrun & Hk & Hsub & Hkind & Hl).
    exists data. split; [exact Hrun|]. split; [apply Hk|].
    intros kind m. split.
    + intros (sub & Hs & Hm).
      destruct (lookup_str_key kind sub data Hk Hs) as [K ->].
      pose proof (Hsub K sub Hs) as Hss.
      apply (str_keys_in m sub Hss) in Hm.
      destruct (lookup m sub) as [s|] eqn:E; [|congruence].
      destruct (lookup_str_key m s sub Hss E) as [a ->].
      assert (Hu : under a (of_kind K groups) <> []).
      { intros Hu. specialize (Hl K a). unfold Diet.lookup2 in Hl.
        rewrite Hs, E, Hu in Hl. discriminate. }
      apply under_nonempty in Hu as (r & Hr & <-).
      apply in_of_kind in Hr as (g & Hg & <- & Hr).
      exists g, r. auto.
    + intros (g & r & Hg & Hr & -> & ->).
      assert (Hu : under (metric r) (of_kind (fst g) groups) <> []).
      { apply under_nonempty. exists r. split; [|reflexivity].
        apply in_of_kind. eauto. }
      specialize (Hl (fst g) (metric r)). unfold Diet.lookup2 in Hl.
      destruct (lookup (PStr (fst g)) data) as [sub|] eqn:Es.
      * exists sub. split; [reflexivity|].
        apply (str_keys_in _ sub (Hsub _ _ Es)). rewrite Hl.
        now destruct (under (metric r) (of_kind (fst g) groups)).
      * now destruct (under (metric r) (of_kind (fst g) groups)).
Qed.

(** ** Failures *)

(** C6.  Resolving a key that is absent from the aggregated map ends with
    Python's [KeyError], the error of a failed subscript: in [scatter] of
    both scripts and, for a kind, in the panel of the diet script.  No
    series, empty or not, is returned. *)
Theorem absent_key_raises_KeyError :
  (forall (fit : list value -> list value -> result (list value))
          (data : Disk.store) (key : value),
      hashable key = true -> lookup key data = None ->
      Disk.scatter fit data key = Raise KeyError)
  /\
  (forall (data : dict series) (key : value),
      hashable key = true -> lookup key data = None ->
      Diet.scatter data key = Raise KeyError)
  /\
  (forall (data : Diet.store) (kind : value),
      hashable kind = true -> lookup kind data = None ->
      Diet.panel data kind = Raise KeyError).
Proof.
  repeat split; intros;
    unfold Disk.scatter, Diet.scatter, Diet.panel, getitem;
    match goal with
    | Hh : hashable _ = true, Hl : lookup _ _ = None |- _ =>
        now rewrite Hh, Hl
    end.
Qed.

(** A map without read series, asked for one of the panel keys. *)
Lemma absent_key_raises_KeyError_witness :
  Disk.scatter (fun _ y => Ok y)
    [(PStr "sequential.write", [(PInt 1, PInt 2000)])]
    (PStr "sequential.read") = Raise KeyError
  /\ Diet.scatter [(PStr "diet/add_interval", [(PInt 5, PInt 60)])]
       (PStr "diet/take_interval") = Raise KeyError
  /\ Diet.panel
       [(PStr "monotonic-clock",
         [(PStr "diet/add_interval", [(PInt 5, PInt 60)])])]
       (PStr "major-allocated") = Raise KeyError.
Proof.
  destruct absent_key_raises_KeyError as (Hdisk & Hdiet & Hpanel).
  split; [|split].
  - apply Hdisk; reflexivity.
  - apply Hdiet; reflexivity.
  - apply Hpanel; reflexivity.
Defined.

(** C10.  A flat document with at least one record, given to the diet
    loader, ends with [ValueError] at the unpacking of its first record
    (three items for the two targets [kind, measures]); the store is still
    the empty dictionary of line 14, nothing has been aggregated.  This
    holds whatever the three items are, and so for every well-shaped flat
    document. *)
Theorem flat_document_fails_in_the_diet_loader :
  (forall (a b c : value) (rest : list value) (s0 : Diet.store),
      Diet.load (PList (PList [a; b; c] :: rest)) s0 = (Raise ValueError, []))
  /\
  (forall (r : measure) (records : list measure) (s0 : Diet.store),
      Diet.load (flat (r :: records)) s0 = (Raise ValueError, [])).
Proof. split; reflexivity. Qed.

(** ** Records of the wrong shape *)

Lemma for_each_app {S X} (body : X -> M S unit) (xs ys : list X) (s : S) :
  for_each (xs ++ ys) body s =
  match for_each xs body s with
  | (Ok _, s') => for_each ys body s'
  | (Raise e, s') => (Raise e, s')
  end.
Proof.
  revert s. induction xs as [|x xs IH]; intros s; simpl; [reflexivity|].
  unfold bind. destruct (body x s) as [[[]|e] s1]; [apply IH|reflexivity].
Qed.

Lemma unpack3_wrong_length (l : list value) :
  List.length l <> 3%nat -> unpack3 (PList l) = Raise ValueError.
Proof.
  destruct l as [|a [|b [|c [|d l]]]]; simpl; intros H;
    try reflexivity. now elim H.
Qed.

Lemma unpack2_wrong_length (l : list value) :
  List.length l <> 2%nat -> unpack2 (PList l) = Raise ValueError.
Proof.
  destruct l as [|a [|b [|c l]]]; simpl; intros H; try reflexivity.
  now elim H.
Qed.

Lemma disk_aggregate_wrong_length (l : list value) (d : Disk.store) :
  List.length l <> 3%nat ->
  Disk.aggregate (PList l) d = (Raise ValueError, d).
Proof.
  intros H. unfold Disk.aggregate, bind, lift.
  now rewrite unpack3_wrong_length.
Qed.

Lemma diet_aggregate_wrong_length (kind : value) (l : list value)
      (d : Diet.store) :
  List.length l <> 3%nat ->
  Diet.aggregate kind (PList l) d = (Raise ValueError, d).
Proof.
  intros H. unfold Diet.aggregate, bind, lift.
  now rewrite unpack3_wrong_length.
Qed.

Lemma diet_group_wrong_length (l : list value) (d : Diet.store) :
  List.length l <> 2%nat ->
  Diet.aggregate_group (PList l) d = (Raise ValueError, d).
Proof.
  intros H. unfold Diet.aggregate_group, bind, lift.
  now rewrite unpack2_wrong_length.
Qed.

Lemma diet_group_bad_measure (kind : value) (measures l : list value) :
  In (PList l) measures -> List.length l <> 3%nat ->
  forall d, exists e d',
      Diet.aggregate_group (PList [kind; PList measures]) d = (Raise e, d').
Proof.
  intros Hin Hlen d.
  unfold Diet.aggregate_group, bind, lift, setdefault, modify. simpl.
  destruct (hashable kind); [|unfold lift; eauto].
  apply (for_each_raises _ measures (PList l) Hin).
  intros s. exists ValueError, s. now apply diet_aggregate_wrong_length.
Qed.

Lemma disk_load_list (records : list value) (s0 : Disk.store) :
  Disk.load (PList records) s0 =
  match for_each records Disk.aggregate [] with
  | (Ok _, d) => Disk.sort_all d
  | (Raise e, d) => (Raise e, d)
  end.
Proof. reflexivity. Qed.

Lemma diet_load_list (groups : list value) (s0 : Diet.store) :
  Diet.load (PList groups) s0 =
  match for_each groups Diet.aggregate_group [] with
  | (Ok _, d) => Diet.sort_all d
  | (Raise e, d) => (Raise e, d)
  end.
Proof. reflexivity. Qed.

Lemma diet_group_list (kind : string) (measures : list value)
      (d : Diet.store) :
  Diet.aggregate_group (PList [PStr kind; PList measures]) d =
  for_each measures (Diet.aggregate (PStr kind))
    (add_default (PStr kind) [] d).
Proof. reflexivity. Qed.

(** C5, counterexample.  A measure whose [n] is [null] and whose value is a
    string is loaded by the diet script, and a measure whose [n] is a string
    and whose value is [true] by the disk script (stored as [1000]): no
    failure, the non-numeric items are in the series. *)
Lemma non_numeric_measures_are_accepted :
  Diet.load
    (PList [PList [PStr "k"; PList [PList [PStr "m"; PNone; PStr "x"]]]]) [] =
  (Ok tt, [(PStr "k", [(PStr "m", [(PNone, PStr "x")])])])
  /\
  Disk.load (PList [PList [PStr "m"; PStr "x"; PBool true]]) [] =
  (Ok tt, [(PStr "m", [(PStr "x", PInt 1000)])]).
Proof. split; vm_compute; reflexivity. Qed.

Lemma disk_script_load_raises
      (fit : list value -> list value -> result (list value))
      (prog path : string) (rest : list string)
      (json_load : string -> option value) (doc : value) (e : exn)
      (data : Disk.store) :
  json_load path = Some doc ->
  Disk.load doc [] = (Raise e, data) ->
  DiskScript.script fit prog (path :: rest) json_load = Plt.Stopped e [].
Proof.
  intros Hdoc Hrun. unfold DiskScript.script. now rewrite Hdoc, Hrun.
Qed.

Lemma diet_script_load_raises (prog path : string) (rest : list string)
      (json_load : string -> option value) (doc : value) (e : exn)
      (data : Diet.store) :
  json_load path = Some doc ->
  Diet.load doc [] = (Raise e, data) ->
  DietScript.script prog (path :: rest) json_load = Plt.Stopped e [].
Proof.
  intros Hdoc Hrun. unfold DietScript.script. now rewrite Hdoc, Hrun.
Qed.

Lemma diet_measures_run (kind : string) (ms : list measure) (d : Diet.store) :
  for_each (map measure_value ms) (Diet.aggregate (PStr kind))
    (add_default (PStr kind) [] d) =
  (Ok tt, collect_group d (kind, ms)).
Proof.
  rewrite <- diet_group_list. exact (diet_group_run (kind, ms) d).
Qed.

Lemma disk_single_record (m : string) (n v : value) (s0 : Disk.store) :
  Disk.load (PList [PList [PStr m; n; v]]) s0 =
  match mul1000 v with
  | Ok p => (Ok tt, [(PStr m, [(n, p)])])
  | Raise e => (Raise e, [(PStr m, [])])
  end.
Proof.
  rewrite disk_load_list. cbn [for_each]. unfold bind at 1.
  unfold Disk.aggregate, unpack3, iter, rbind, bind, lift, setdefault, modify.
  cbn [hashable add_default lookup app].
  destruct (mul1000 v) as [p|e]; [|reflexivity].
  repeat progress
    (unfold Disk.sort_all, at_key, bind, get, append, modify, Py.sort, put,
       lift, ret, list_sort;
     cbn; rewrite ?String.eqb_refl).
  reflexivity.
Qed.

Lemma diet_single_measure (kind m : string) (n v : value) (s0 : Diet.store) :
  Diet.load (PList [PList [PStr kind; PList [PList [PStr m; n; v]]]]) s0 =
  (Ok tt, [(PStr kind, [(PStr m, [(n, v)])])]).
Proof.
  rewrite diet_load_list. cbn [for_each]. unfold bind at 1.
  rewrite diet_group_list.
  repeat progress
    (unfold Diet.sort_all, Diet.aggregate, setdefault, at_key, bind, get,
       append, modify, Py.sort, put, lift, ret, list_sort;
     cbn; rewrite ?String.eqb_refl).
  reflexivity.
Qed.

(** C5, amended.  A document with an array of the wrong length where a
    record is expected is never loaded: the load ends with an exception,
    the run stops there, and no call into the plotting library has been
    made, so that the failed parse has no effect beyond the reading of the
    file.  When what precedes that array is well-shaped, the exception is
    the [ValueError] of its unpacking and the store holds what precedes:
    for a disk record that has not three items, for a diet group that has
    not two, for a diet measure that has not three.

    The types of [n] and of the value are not checked.  The diet loader
    stores a measure with any [n] and any value as it is.  The disk loader
    stores [(n, v * 1000)] whenever Python defines the product, and stops
    with the [TypeError] of the product when the value is [null] or an
    object, again before any call into the plotting library. *)
Theorem wrong_arity_fails :
  (forall (records l : list value),
      In (PList l) records -> List.length l <> 3%nat ->
      exists e,
        (forall s0, exists data,
            Disk.load (PList records) s0 = (Raise e, data)) /\
        (forall fit prog path rest json_load,
            json_load path = Some (PList records) ->
            DiskScript.script fit prog (path :: rest) json_load =
            Plt.Stopped e []))
  /\
  (forall (groups l : list value),
      In (PList l) groups -> List.length l <> 2%nat ->
      exists e,
        (forall s0, exists data,
            Diet.load (PList groups) s0 = (Raise e, data)) /\
        (forall prog path rest json_load,
            json_load path = Some (PList groups) ->
            DietScript.script prog (path :: rest) json_load =
            Plt.Stopped e []))
  /\
  (forall (groups measures l : list value) (kind : value),
      In (PList [kind; PList measures]) groups ->
      In (PList l) measures -> List.length l <> 3%nat ->
      exists e,
        (forall s0, exists data,
            Diet.load (PList groups) s0 = (Raise e, data)) /\
        (forall prog path rest json_load,
            json_load path = Some (PList groups) ->
            DietScript.script prog (path :: rest) json_load =
            Plt.Stopped e []))
  /\
  (forall (good : list measure) (l rest : list value),
      List.length l <> 3%nat ->
      let doc := PList (map measure_value good ++ PList l :: rest) in
      (forall s0,
          Disk.load doc s0 =
          (Raise ValueError, fold_left (collect disk_tuple) good [])) /\
      (forall fit prog path args json_load,
          json_load path = Some doc ->
          DiskScript.script fit prog (path :: args) json_load =
          Plt.Stopped ValueError []))
  /\
  (forall (good : list group) (l rest : list value),
      List.length l <> 2%nat ->
      let doc := PList (map group_value good ++ PList l :: rest) in
      (forall s0,
          Diet.load doc s0 =
          (Raise ValueError, fold_left collect_group good [])) /\
      (forall prog path args json_load,
          json_load path = Some doc ->
          DietScript.script prog (path :: args) json_load =
          Plt.Stopped ValueError []))
  /\
  (forall (good : list group) (kind : string) (good_measures : list measure)
          (l rest_measures rest : list value),
      List.length l <> 3%nat ->
      let doc :=
        PList (map group_value good ++
               PList [PStr kind;
                      PList (map measure_value good_measures ++
                             PList l :: rest_measures)] :: rest) in
      (forall s0,
          Diet.load doc s0 =
          (Raise ValueError,
           fold_left collect_group (good ++ [(kind, good_measures)]) [])) /\
      (forall prog path args json_load,
          json_load path = Some doc ->
          DietScript.script prog (path :: args) json_load =
          Plt.Stopped ValueError []))
  /\
  (forall (kind m : string) (n v : value) (s0 : Diet.store),
      Diet.load (PList [PList [PStr kind; PList [PList [PStr m; n; v]]]]) s0 =
      (Ok tt, [(PStr kind, [(PStr m, [(n, v)])])]))
  /\
  (forall (m : string) (n v : value) (s0 : Disk.store),
      Disk.load (PList [PList [PStr m; n; v]]) s0 =
      match mul1000 v with
      | Ok p => (Ok tt, [(PStr m, [(n, p)])])
      | Raise e => (Raise e, [(PStr m, [])])
      end)
  /\
  (forall (m : string) (n v : value),
      v = PNone \/ (exists d, v = PDict d) ->
      forall fit prog path args json_load,
        json_load path = Some (PList [PList [PStr m; n; v]]) ->
        DiskScript.script fit prog (path :: args) json_load =
        Plt.Stopped TypeError []).
Proof.
  repeat apply conj.
  - intros records l Hin Hlen.
    destruct (for_each_raises Disk.aggregate records (PList l) Hin)
      with (s := @nil (value * series)) as (e & s' & He).
    { intros s. exists ValueError, s. now apply disk_aggregate_wrong_length. }
    assert (Hload : forall s0, Disk.load (PList records) s0 = (Raise e, s'))
      by (intros s0; now rewrite disk_load_list, He).
    exists e. split; [eauto|].
    intros fit prog path rest json_load Hdoc.
    exact (disk_script_load_raises fit prog path rest json_load _ e s' Hdoc
             (Hload [])).
  - intros groups l Hin Hlen.
    destruct (for_each_raises Diet.aggregate_group groups (PList l) Hin)
      with (s := @nil (value * dict series)) as (e & s' & He).
    { intros s. exists ValueError, s. now apply diet_group_wrong_length. }
    assert (Hload : forall s0, Diet.load (PList groups) s0 = (Raise e, s'))
      by (intros s0; now rewrite diet_load_list, He).
    exists e. split; [eauto|].
    intros prog path rest json_load Hdoc.
    exact (diet_script_load_raises prog path rest json_load _ e s' Hdoc
             (Hload [])).
  - intros groups measures l kind Hg Hin Hlen.
    destruct (for_each_raises Diet.aggregate_group groups _ Hg)
      with (s := @nil (value * dict series)) as (e & s' & He).
    { now apply (diet_group_bad_measure kind measures l). }
    assert (Hload : forall s0, Diet.load (PList groups) s0 = (Raise e, s'))
      by (intros s0; now rewrite diet_load_list, He).
    exists e. split; [eauto|].
    intros prog path rest json_load Hdoc.
    exact (diet_script_load_raises prog path rest json_load _ e s' Hdoc
             (Hload [])).
  - intros good l rest Hlen doc.
    assert (Hload : forall s0,
               Disk.load doc s0 =
               (Raise ValueError, fold_left (collect disk_tuple) good [])).
    { intros s0. unfold doc.
      rewrite disk_load_list, for_each_app, disk_loop_run. simpl.
      unfold bind at 1.
      now rewrite disk_aggregate_wrong_length by exact Hlen. }
    split; [exact Hload|]. intros fit prog path args json_load Hdoc.
    exact (disk_script_load_raises fit prog path args json_load _ _ _ Hdoc
             (Hload [])).
  - intros good l rest Hlen doc.
    assert (Hload : forall s0,
               Diet.load doc s0 =
               (Raise ValueError, fold_left collect_group good [])).
    { intros s0. unfold doc.
      rewrite diet_load_list, for_each_app, diet_loop_run. simpl.
      unfold bind at 1.
      now rewrite diet_group_wrong_length by exact Hlen. }
    split; [exact Hload|]. intros prog path args json_load Hdoc.
    exact (diet_script_load_raises prog path args json_load _ _ _ Hdoc
             (Hload [])).
  - intros good kind good_measures l rest_measures rest Hlen doc.
    assert (Hload : forall s0,
               Diet.load doc s0 =
               (Raise ValueError,
                fold_left collect_group (good ++ [(kind, good_measures)]) [])).
    { intros s0. unfold doc.
      rewrite diet_load_list, for_each_app, diet_loop_run.
      change (for_each (?x :: rest) Diet.aggregate_group ?d)
        with (bind (Diet.aggregate_group x)
                (fun _ => for_each rest Diet.aggregate_group) d).
      unfold bind at 1. rewrite diet_group_list, for_each_app.
      rewrite diet_measures_run. simpl. unfold bind at 1.
      rewrite diet_aggregate_wrong_length by exact Hlen.
      now rewrite fold_left_app. }
    split; [exact Hload|]. intros prog path args json_load Hdoc.
    exact (diet_script_load_raises prog path args json_load _ _ _ Hdoc
             (Hload [])).
  - apply diet_single_measure.
  - apply disk_single_record.
  - intros m n v Hv fit prog path args json_load Hdoc.
    apply (disk_script_load_raises fit prog path args json_load _ TypeError
             [(PStr m, [])] Hdoc).
    rewrite disk_single_record.
    now destruct Hv as [->|[d ->]].
Qed.

(** Documents on which the cases of the amended C5 that bear a condition
    apply. *)
Lemma wrong_arity_fails_witness :
  (exists e,
      DiskScript.script (fun _ y => Ok y) "plot.py" ["disk.json"]
        (fun _ => Some (PList [PList [PStr "m"; PInt 1]])) =
      Plt.Stopped e [])
  /\ (exists e,
         DietScript.script "plot.py" ["diet.json"]
           (fun _ => Some (PList [PList [PStr "k"]])) = Plt.Stopped e [])
  /\ (exists e,
         DietScript.script "plot.py" ["diet.json"]
           (fun _ => Some (PList [PList [PStr "k";
                                         PList [PList [PStr "m"]]]])) =
         Plt.Stopped e [])
  /\ Disk.load
       (PList (map measure_value [("m", 1, NInt 2)] ++
               PList [PStr "m"; PInt 1] :: [])) [] =
     (Raise ValueError, [(PStr "m", [(PInt 1, PInt 2000)])])
  /\ Diet.load
       (PList (map group_value [("k", [("m", 1, NInt 2)])] ++
               PList [PStr "k"] :: [])) [] =
     (Raise ValueError, [(PStr "k", [(PStr "m", [(PInt 1, PInt 2)])])])
  /\ Diet.load
       (PList (map group_value [] ++
               PList [PStr "k";
                      PList (map measure_value [("m", 1, NInt 2)] ++
                             PList [PStr "m"; PInt 1; PInt 2; PInt 3]
                             :: [])] :: [])) [] =
     (Raise ValueError, [(PStr "k", [(PStr "m", [(PInt 1, PInt 2)])])])
  /\ DiskScript.script (fun _ y => Ok y) "plot.py" ["disk.json"]
       (fun _ => Some (PList [PList [PStr "m"; PInt 1; PNone]])) =
     Plt.Stopped TypeError [].
Proof.
  destruct wrong_arity_fails
    as (H1 & H2 & H3 & H4 & H5 & H6 & _ & _ & H9).
  repeat apply conj.
  - destruct (H1 [PList [PStr "m"; PInt 1]] [PStr "m"; PInt 1])
      as (e & _ & He); [now left|discriminate|].
    exists e. now apply He.
  - destruct (H2 [PList [PStr "k"]] [PStr "k"]) as (e & _ & He);
      [now left|discriminate|].
    exists e. now apply He.
  - destruct (H3 [PList [PStr "k"; PList [PList [PStr "m"]]]]
                [PList [PStr "m"]] [PStr "m"] (PStr "k")) as (e & _ & He);
      [now left|now left|discriminate|].
    exists e. now apply He.
  - refine (proj1 (H4 [("m", 1, NInt 2)] [PStr "m"; PInt 1] [] _) []).
    discriminate.
  - refine (proj1 (H5 [("k", [("m", 1, NInt 2)])] [PStr "k"] [] _) []).
    discriminate.
  - refine (proj1 (H6 [] "k" [("m", 1, NInt 2)]
                     [PStr "m"; PInt 1; PInt 2; PInt 3] [] [] _) []).
    discriminate.
  - apply (H9 "m" (PInt 1) PNone); [now left|reflexivity].
Defined.

(** ** Series are never empty *)

Lemma insert_perm (x : tuple) (l l' : series) :
  insert x l = Ok l' -> Permutation l' (x :: l).
Proof.
  revert l'. induction l as [|y l IH]; intros l'; simpl.
  - now intros [= <-].
  - destruct (tuple_lt x y) as [[]|e]; simpl; try discriminate.
    + now intros [= <-].
    + destruct (insert x l) as [l1|e]; simpl; [|discriminate].
      intros [= <-]. rewrite (IH l1 eq_refl). apply perm_swap.
Qed.

Lemma sort_from_perm (l acc r : series) :
  sort_from acc l = Ok r -> Permutation r (acc ++ l).
Proof.
  revert acc. induction l as [|x l IH]; intros acc; simpl.
  - intros [= <-]. now rewrite app_nil_r.
  - destruct (insert x acc) as [acc'|e] eqn:E; simpl; [|discriminate].
    intros H. rewrite (IH _ H), (insert_perm _ _ _ E).
    apply Permutation_middle.
Qed.

(** [list.sort()] rearranges the list, whatever the items. *)
Lemma list_sort_perm (s s' : series) : list_sort s = Ok s' -> Permutation s' s.
Proof. apply (sort_from_perm s []). Qed.

Lemma at_key_invariant {V} (Q : V -> Prop) (c : M V unit) (k : value)
      (d d' : dict V) :
  (forall x x', c x = (Ok tt, x') -> Q x -> Q x') ->
  at_key k c d = (Ok tt, d') ->
  (forall k' x, In (k', x) d -> Q x) ->
  forall k' x, In (k', x) d' -> Q x.
Proof.
  intros Hc Hrun Hd k' x Hin. unfold at_key in Hrun.
  destruct (hashable k); [|discriminate].
  destruct (lookup k d) as [y|] eqn:El; [|discriminate].
  destruct (c y) as [[[]|e] y'] eqn:Ec; [|discriminate].
  injection Hrun as <-.
  apply In_update in Hin as [Hin|(z & Hz & Hx)].
  - eapply Hd; eauto.
  - simpl in Hx. subst x. apply (Hc y y' Ec).
    apply lookup_In in El as (k0 & Hin0 & _). eapply Hd; eauto.
Qed.

Lemma append_new_invariant (m : value) (t : tuple) (d d' : dict series) :
  at_key m (append t) (@add_default series m [] d) = (Ok tt, d') ->
  (forall k s, In (k, s) d -> s <> []) ->
  forall k s, In (k, s) d' -> s <> [].
Proof.
  intros Hrun Hd k s Hin. unfold at_key in Hrun.
  destruct (hashable m); [|discriminate].
  destruct (lookup m (@add_default series m [] d)) as [y|] eqn:El;
    [|discriminate].
  unfold append, modify in Hrun. cbv beta iota in Hrun.
  injection Hrun as <-. unfold add_default in *.
  destruct (lookup m d) as [y0|] eqn:E0.
  - apply In_update in Hin as [Hin|(z & Hz & Hx)]; [eapply Hd; eauto|].
    simpl in Hx. subst s. now destruct y.
  - rewrite update_app_none in Hin by exact E0.
    apply in_app_or in Hin as [Hin|Hin]; [eapply Hd; eauto|].
    rewrite lookup_app, E0 in El. simpl in El, Hin.
    destruct (py_eq m m); [|discriminate].
    destruct Hin as [[= <- <-]|[]]. now destruct y.
Qed.

Lemma sort_invariant (s s' : series) :
  Py.sort s = (Ok tt, s') -> s <> [] -> s' <> [].
Proof.
  unfold Py.sort, bind, get, lift, put.
  destruct (list_sort s) as [r|e] eqn:E; [|discriminate].
  intros [= <-] Hs ->. apply list_sort_perm in E.
  apply Permutation_nil in E. contradiction.
Qed.

Lemma sort_keys_invariant (ks : list value) (d d' : dict series) :
  for_each ks (fun k => at_key k Py.sort) d = (Ok tt, d') ->
  (forall k s, In (k, s) d -> s <> []) ->
  forall k s, In (k, s) d' -> s <> [].
Proof.
  intros Hrun Hd.
  refine (for_each_invariant
            (fun d : dict series => forall k s, In (k, s) d -> s <> [])
            (fun k => at_key k Py.sort) ks _ d d' Hd Hrun).
  intros k s s' _ Hs Hk.
  apply (at_key_invariant (fun x : series => x <> []) Py.sort k s s');
    [|exact Hk|exact Hs].
  intros x x' Hx Hq. eapply sort_invariant; eauto.
Qed.

Lemma touch_append_invariant (m : value) (t : tuple) (d d' : dict series) :
  (setdefault m [] ;; at_key m (append t)) d = (Ok tt, d') ->
  (forall k s, In (k, s) d -> s <> []) ->
  forall k s, In (k, s) d' -> s <> [].
Proof.
  unfold bind, setdefault. destruct (hashable m); [|discriminate].
  unfold modify. apply append_new_invariant.
Qed.

Lemma disk_aggregate_invariant (record : value) (d d' : Disk.store) :
  Disk.aggregate record d = (Ok tt, d') ->
  (forall k s, In (k, s) d -> s <> []) ->
  forall k s, In (k, s) d' -> s <> [].
Proof.
  unfold Disk.aggregate, bind, lift.
  destruct (unpack3 record) as [[[m n] v]|e]; [|discriminate].
  unfold setdefault. destruct (hashable m) eqn:Hm; [|discriminate].
  unfold modify. destruct (mul1000 v) as [p|e]; [|discriminate].
  apply append_new_invariant.
Qed.

Lemma disk_load_ok (doc : value) (s0 data : Disk.store) :
  Disk.load doc s0 = (Ok tt, data) ->
  exists records d,
    iter doc = Ok records /\
    for_each records Disk.aggregate [] = (Ok tt, d) /\
    for_each (keys d) (fun k => at_key k Py.sort) d = (Ok tt, data).
Proof.
  unfold Disk.load, Disk.sort_all, bind, put, lift, get.
  destruct (iter doc) as [records|e]; [|discriminate].
  destruct (for_each records Disk.aggregate []) as [[[]|e] d] eqn:E;
    [|discriminate].
  intros H. exists records, d. auto.
Qed.

Lemma diet_aggregate_invariant (kind record : value) (d d' : Diet.store) :
  Diet.aggregate kind record d = (Ok tt, d') ->
  (forall K sub, In (K, sub) d -> forall k s, In (k, s) sub -> s <> []) ->
  forall K sub, In (K, sub) d' -> forall k s, In (k, s) sub -> s <> [].
Proof.
  unfold Diet.aggregate, bind at 1. unfold lift.
  destruct (unpack3 record) as [[[m n] v]|e]; [|discriminate].
  intros Hrun Hd.
  apply (at_key_invariant
           (fun sub : dict series => forall k s, In (k, s) sub -> s <> [])
           (setdefault m [] ;; at_key m (append (n, v))) kind d d');
    [|exact Hrun|exact Hd].
  intros x x'. apply touch_append_invariant.
Qed.

Lemma diet_group_invariant (group : value) (d d' : Diet.store) :
  Diet.aggregate_group group d = (Ok tt, d') ->
  (forall K sub, In (K, sub) d -> forall k s, In (k, s) sub -> s <> []) ->
  forall K sub, In (K, sub) d' -> forall k s, In (k, s) sub -> s <> [].
Proof.
  unfold Diet.aggregate_group, bind, lift.
  destruct (unpack2 group) as [[kind measures]|e]; [|discriminate].
  unfold setdefault. destruct (hashable kind); [|discriminate].
  unfold modify. destruct (iter measures) as [records|e]; [|discriminate].
  intros Hrun Hd.
  refine (for_each_invariant
            (fun d : Diet.store =>
               forall K sub, In (K, sub) d ->
                             forall k s, In (k, s) sub -> s <> [])
            (Diet.aggregate kind) records _ _ d' _ Hrun).
  - intros x s s' _ Hs Hx. eapply diet_aggregate_invariant; eauto.
  - intros K sub Hin. unfold add_default in Hin.
    match type of Hin with
    | context [match ?l with _ => _ end] => destruct l
    end; [exact (Hd K sub Hin)|].
    apply in_app_or in Hin as [Hin|[[= _ <-]|[]]]; [exact (Hd K sub Hin)|].
    intros k s [].
Qed.

Lemma diet_load_ok (doc : value) (s0 data : Diet.store) :
  Diet.load doc s0 = (Ok tt, data) ->
  exists groups d,
    iter doc = Ok groups /\
    for_each groups Diet.aggregate_group [] = (Ok tt, d) /\
    Diet.sort_all d = (Ok tt, data).
Proof.
  unfold Diet.load, bind, put, lift.
  destruct (iter doc) as [groups|e]; [|discriminate].
  destruct (for_each groups Diet.aggregate_group []) as [[[]|e] d] eqn:E;
    [|discriminate].
  intros H. exists groups, d. auto.
Qed.

Lemma diet_sort_all_invariant (d d' : Diet.store) :
  Diet.sort_all d = (Ok tt, d') ->
  (forall K sub, In (K, sub) d -> forall k s, In (k, s) sub -> s <> []) ->
  forall K sub, In (K, sub) d' -> forall k s, In (k, s) sub -> s <> [].
Proof.
  unfold Diet.sort_all, bind at 1. unfold get at 1. intros Hrun Hd.
  refine (for_each_invariant
            (fun d : Diet.store =>
               forall K sub, In (K, sub) d ->
                             forall k s, In (k, s) sub -> s <> [])
            _ (keys d) _ d d' Hd Hrun).
  intros kind s s' _ Hs Hk.
  apply (at_key_invariant
           (fun sub : dict series => forall k s, In (k, s) sub -> s <> [])
           (sub_data <- get ;;
            for_each (keys sub_data) (fun k => at_key k Py.sort)) kind s s');
    [|exact Hk|exact Hs].
  intros x x'. unfold bind, get. apply sort_keys_invariant.
Qed.

Lemma zip_star_nonempty (s : series) :
  s <> [] -> zip_star s = Ok (map fst s, map snd s).
Proof. destruct s; [contradiction|reflexivity]. Qed.

(** C9.  Whatever the document, when a load ends normally every series of
    the aggregated map holds at least one pair: a key only enters the map
    in the turn of the loop that appends a pair to its series, and sorting
    keeps the pairs.  Hence [zip( *series )] in [scatter] yields the two
    coordinate tuples, neither of them empty. *)
Theorem every_series_is_non_empty :
  (forall (doc : value) (s0 data : Disk.store),
      Disk.load doc s0 = (Ok tt, data) ->
      forall k s,
        In (k, s) data ->
        s <> [] /\ zip_star s = Ok (map fst s, map snd s) /\ map fst s <> [])
  /\
  (forall (doc : value) (s0 data : Diet.store),
      Diet.load doc s0 = (Ok tt, data) ->
      forall kind sub_data k s,
        In (kind, sub_data) data -> In (k, s) sub_data ->
        s <> [] /\ zip_star s = Ok (map fst s, map snd s) /\ map fst s <> []).
Proof.
  assert (Hfin : forall s : series,
             s <> [] ->
             s <> [] /\ zip_star s = Ok (map fst s, map snd s) /\
             map fst s <> []).
  { intros s Hs. split; [exact Hs|]. split; [now apply zip_star_nonempty|].
    now destruct s. }
  split.
  - intros doc s0 data Hrun k s Hin. apply Hfin.
    apply disk_load_ok in Hrun as (records & d & _ & Hagg & Hsort).
    refine (sort_keys_invariant (keys d) d data Hsort _ k s Hin).
    refine (for_each_invariant
              (fun d : Disk.store => forall k s, In (k, s) d -> s <> [])
              Disk.aggregate records _ [] d _ Hagg).
    + intros x t t' _ Ht Hx. eapply disk_aggregate_invariant; eauto.
    + intros ? ? [].
  - intros doc s0 data Hrun kind sub k s Hsub Hin. apply Hfin.
    apply diet_load_ok in Hrun as (groups & d & _ & Hagg & Hsort).
    refine (diet_sort_all_invariant d data Hsort _ kind sub Hsub k s Hin).
    refine (for_each_invariant
              (fun d : Diet.store =>
                 forall K sub, In (K, sub) d ->
                               forall k s, In (k, s) sub -> s <> [])
              Diet.aggregate_group groups _ [] d _ Hagg).
    + intros x t t' _ Ht Hx. eapply diet_group_invariant; eauto.
    + intros ? ? [].
Qed.

(** The two scenarios of the documentation, as instances of C9. *)
Lemma every_series_is_non_empty_witness :
  (let s := [(PInt 1, PFloat 2); (PInt 2, PFloat 4)] in
   s <> [] /\ zip_star s = Ok (map fst s, map snd s) /\ map fst s <> [])
  /\
  (let s := [(PInt 5, PInt 60); (PInt 10, PInt 120)] in
   s <> [] /\ zip_star s = Ok (map fst s, map snd s) /\ map fst s <> []).
Proof.
  split.
  - apply (proj1 every_series_is_non_empty
             (flat [("sequential.read", 1, NFloat 0.002);
                    ("sequential.read", 2, NFloat 0.004)])
             [] [(PStr "sequential.read", [(PInt 1, PFloat 2); (PInt 2, PFloat 4)])]
             eq_refl (PStr "sequential.read")).
    now left.
  - apply (proj2 every_series_is_non_empty
             (grouped [("monotonic-clock",
                        [("diet/add_interval", 10, NInt 120);
                         ("diet/add_interval", 5, NInt 60)])])
             []
             [(PStr "monotonic-clock",
               [(PStr "diet/add_interval",
                 [(PInt 5, PInt 60); (PInt 10, PInt 120)])])]
             eq_refl (PStr "monotonic-clock")
             [(PStr "diet/add_interval",
               [(PInt 5, PInt 60); (PInt 10, PInt 120)])]
             (PStr "diet/add_interval")); now left.
Defined.

(** ** Further properties of the documentation *)

Lemma point_le_not_ltb (a b : point) : point_le a b -> point_ltb b a = false.
Proof.
  unfold point_le, point_ltb, num_le, xle, xltb, xeqb.
  intros [H|[H L]].
  - destruct (Z.eqb_spec (fst b) (fst a)); [lia|]. simpl.
    apply Z.ltb_ge. lia.
  - rewrite H, Z.eqb_refl. simpl.
    destruct (xcompare (num_xnum (snd a)) (num_xnum (snd b))) as [c|] eqn:E;
      [|contradiction].
    rewrite (xcompare_antisym _ _ _ E). now destruct c.
Qed.

Lemma insert_point_last (x : point) (l : list point) :
  Forall (fun y => point_le y x) l -> insert_point x l = l ++ [x].
Proof.
  induction 1 as [|y l Hy _ IH]; simpl; [reflexivity|].
  now rewrite (point_le_not_ltb y x Hy), IH.
Qed.

Lemma sorted_app_below (acc l : list point) (x : point) :
  StronglySorted point_le (acc ++ x :: l) -> Forall (fun y => point_le y x) acc.
Proof.
  induction acc as [|y acc IH]; simpl; intros H; [constructor|].
  inversion H as [|? ? Hs Hy]; subst. constructor; [|auto].
  rewrite Forall_forall in Hy. apply Hy, in_or_app. right. now left.
Qed.

Lemma sort_points_from_sorted_same (l acc : list point) :
  StronglySorted point_le (acc ++ l) -> sort_points_from acc l = acc ++ l.
Proof.
  revert acc. induction l as [|x l IH]; intros acc H; simpl.
  - now rewrite app_nil_r.
  - rewrite (insert_point_last x acc (sorted_app_below acc l x H)).
    rewrite IH; rewrite <- app_assoc; [reflexivity|exact H].
Qed.

(** Sorting is idempotent: [sort()] on a series of points that is already
    in Python's tuple order leaves it as it is. *)
Theorem sorting_a_sorted_series_changes_nothing :
  forall pts : list point,
    StronglySorted point_le pts ->
    list_sort (map point_value pts) = Ok (map point_value pts).
Proof.
  intros pts H. rewrite list_sort_points. unfold sort_points.
  now rewrite (sort_points_from_sorted_same pts []).
Qed.

Lemma sorting_a_sorted_series_changes_nothing_witness :
  list_sort (map point_value [(1, NFloat 2); (1, NInt 3); (2, NInt 0)]) =
  Ok (map point_value [(1, NFloat 2); (1, NInt 3); (2, NInt 0)]).
Proof.
  apply sorting_a_sorted_series_changes_nothing.
  repeat constructor; unfold point_le; simpl;
    first [left; lia | right; split; [reflexivity|exact I]].
Defined.

(** The diet scenario: the two measures come out ordered by [n]. *)
Theorem diet_scenario :
  Diet.load
    (grouped [("monotonic-clock",
               [("diet/add_interval", 10, NInt 120);
                ("diet/add_interval", 5, NInt 60)])]) [] =
  (Ok tt,
   [(PStr "monotonic-clock",
     [(PStr "diet/add_interval", [(PInt 5, PInt 60); (PInt 10, PInt 120)])])]).
Proof. vm_compute. reflexivity. Qed.

(** The disk scenario: seconds become milliseconds, [0.002 * 1000 = 2.0]
    and [0.004 * 1000 = 4.0] in binary64. *)
Theorem disk_scenario :
  Disk.load
    (flat [("sequential.read", 1, NFloat 0.002);
           ("sequential.read", 2, NFloat 0.004)]) [] =
  (Ok tt, [(PStr "sequential.read", [(PInt 1, PFloat 2); (PInt 2, PFloat 4)])]).
Proof. vm_compute. reflexivity. Qed.

(** [scatter] of the disk script hands every resolved series to the
    regression as it is, with no check on the number of points or on the
    values of [n]: what it returns, or raises, is what the regression
    returns or raises on the stored coordinates. *)
Theorem scatter_fits_every_series :
  forall (fit : list value -> list value -> result (list value))
         (data : Disk.store) (k : string) (s : series),
    lookup (PStr k) data = Some s -> s <> [] ->
    Disk.scatter fit data (PStr k) =
    rbind (fit (map fst s) (map snd s))
      (fun line => Ok (map fst s, map snd s, line)).
Proof. intros fit data k s. apply scatter_present. Qed.

Lemma scatter_fits_every_series_witness :
  Disk.scatter (fun _ _ => Raise ValueError)
    [(PStr "random.read", [(PInt 4, PFloat 1)])] (PStr "random.read") =
  Raise ValueError.
Proof.
  apply (scatter_fits_every_series (fun _ _ => Raise ValueError)
           [(PStr "random.read", [(PInt 4, PFloat 1)])] "random.read"
           [(PInt 4, PFloat 1)]); [reflexivity|discriminate].
Defined.

(** * The drawing part of the scripts *)

Import Plt.

(** ** Traces *)

Lemma emit_run (c : call) (t : trace) : emit c t = (Ok tt, t ++ [c]).
Proof. reflexivity. Qed.

Lemma bind_run_ok {S A B} (c : M S A) (k : A -> M S B) s a s1 :
  c s = (Ok a, s1) -> bind c k s = k a s1.
Proof. intros H. unfold bind. now rewrite H. Qed.

Lemma bind_run_raise {S A B} (c : M S A) (k : A -> M S B) s e s1 :
  c s = (Raise e, s1) -> bind c k s = (Raise e, s1).
Proof. intros H. unfold bind. now rewrite H. Qed.

Lemma appends_emit (P : call -> Prop) (c : call) : P c -> appends P (emit c).
Proof.
  intros Hc t r t' H. rewrite emit_run in H. injection H as <- <-.
  exists [c]. auto.
Qed.

Lemma appends_lift (P : call -> Prop) {A} (r : result A) :
  appends P (lift r).
Proof.
  intros t r' t' H. unfold lift in H. injection H as <- <-.
  exists []. now rewrite app_nil_r.
Qed.

Lemma appends_bind (P : call -> Prop) {A B} (c : M trace A)
      (k : A -> M trace B) :
  appends P c -> (forall a, appends P (k a)) -> appends P (bind c k).
Proof.
  intros Hc Hk t r t' H. unfold bind in H.
  destruct (c t) as [[a|e] t1] eqn:E.
  - destruct (Hc _ _ _ E) as (u & -> & Hu).
    destruct (Hk a _ _ _ H) as (v & -> & Hv).
    exists (u ++ v). rewrite app_assoc. split; [reflexivity|].
    apply Forall_app. auto.
  - injection H as <- <-. exact (Hc _ _ _ E).
Qed.

Lemma shows_last_emit : shows_last (emit Show).
Proof.
  intros t r t' H. rewrite emit_run in H. injection H as <- <-.
  exists []. split; [constructor|reflexivity].
Qed.

Lemma shows_last_bind {A B} (c : M trace A) (k : A -> M trace B) :
  appends (fun c => is_show c = false) c -> (forall a, shows_last (k a)) ->
  shows_last (bind c k).
Proof.
  intros Hc Hk t r t' H. unfold bind in H.
  destruct (c t) as [[a|e] t1] eqn:E.
  - destruct (Hc _ _ _ E) as (u & -> & Hu).
    destruct (Hk a _ _ _ H) as (v & Hv & Hr).
    exists (u ++ v). split; [apply Forall_app; auto|].
    destruct r; rewrite Hr, <- !app_assoc; reflexivity.
  - injection H as <- <-. destruct (Hc _ _ _ E) as (u & -> & Hu).
    exists u. auto.
Qed.

Lemma no_show_in (u : trace) :
  Forall (fun c => is_show c = false) u -> ~ In Show u.
Proof.
  intros H Hin. rewrite Forall_forall in H. specialize (H _ Hin).
  discriminate.
Qed.

Ltac quiet :=
  repeat first
    [ apply appends_emit; reflexivity
    | apply appends_lift
    | apply appends_bind; [|intros ?] ].

Lemma style_quiet : appends (fun c => is_show c = false) style.
Proof. unfold style. quiet. Qed.

Lemma disk_scatter_quiet fit data ax key label :
  appends (fun c => is_show c = false)
    (DiskScript.scatter fit data ax key label).
Proof. unfold DiskScript.scatter. quiet. Qed.

Lemma diet_scatter_quiet ax data key label :
  appends (fun c => is_show c = false) (DietScript.scatter ax data key label).
Proof. unfold DietScript.scatter. quiet. Qed.

Lemma diet_plot_quiet ax data :
  appends (fun c => is_show c = false) (DietScript.plot ax data).
Proof.
  unfold DietScript.plot.
  repeat first
    [ apply diet_scatter_quiet
    | apply appends_emit; reflexivity
    | apply appends_bind; [|intros ?] ].
Qed.

Lemma diet_panel_quiet data ax kind ylabel :
  appends (fun c => is_show c = false) (DietScript.panel data ax kind ylabel).
Proof.
  unfold DietScript.panel.
  repeat first
    [ apply diet_plot_quiet
    | apply appends_lift
    | apply appends_emit; reflexivity
    | apply appends_bind; [|intros ?] ].
Qed.

Lemma disk_figure_shows_last fit data :
  shows_last (DiskScript.figure fit data).
Proof.
  unfold DiskScript.figure.
  repeat first
    [ apply shows_last_emit
    | apply style_quiet
    | apply disk_scatter_quiet
    | apply appends_emit; reflexivity
    | apply shows_last_bind; [|intros ?] ].
Qed.

Lemma diet_figure_shows_last data : shows_last (DietScript.figure data).
Proof.
  unfold DietScript.figure.
  repeat first
    [ apply shows_last_emit
    | apply style_quiet
    | apply diet_panel_quiet
    | apply appends_emit; reflexivity
    | apply shows_last_bind; [|intros ?] ].
Qed.

Lemma shown_or_stopped (figure : M trace unit) :
  shows_last figure ->
  (forall u, figure [] = (Ok tt, u) ->
             exists v, u = v ++ [Show] /\ ~ In Show v) /\
  (forall e u, figure [] = (Raise e, u) -> ~ In Show u).
Proof.
  intros Hf. split.
  - intros u H. destruct (Hf _ _ _ H) as (v & Hv & ->).
    exists v. split; [reflexivity|now apply no_show_in].
  - intros e u H. destruct (Hf _ _ _ H) as (v & Hv & ->).
    now apply no_show_in.
Qed.

(** [plt.show()] is the last call of a run that shows the figure, and it is
    made once; a run that stops with an exception has not called it, so a
    failure in the loading block, a missing series or a failing regression
    never leaves a partial figure on the screen. *)
Theorem show_is_last_and_only_after_success :
  (forall fit prog args json_load t,
      DiskScript.script fit prog args json_load = Shown t ->
      exists u, t = u ++ [Show] /\ ~ In Show u)
  /\
  (forall fit prog args json_load e t,
      DiskScript.script fit prog args json_load = Stopped e t ->
      ~ In Show t)
  /\
  (forall prog args json_load t,
      DietScript.script prog args json_load = Shown t ->
      exists u, t = u ++ [Show] /\ ~ In Show u)
  /\
  (forall prog args json_load e t,
      DietScript.script prog args json_load = Stopped e t ->
      ~ In Show t).
Proof.
  repeat apply conj.
  - intros fit prog args jl t H. unfold DiskScript.script in H.
    destruct args as [|path rest]; [discriminate|].
    destruct (jl path) as [doc|]; [|discriminate].
    destruct (Disk.load doc []) as [[[]|e] data]; [|discriminate].
    destruct (DiskScript.figure fit data []) as [[[]|e] u] eqn:E;
      [|discriminate].
    injection H as <-.
    now apply (shown_or_stopped _ (disk_figure_shows_last fit data)).
  - intros fit prog args jl e t H. unfold DiskScript.script in H.
    destruct args as [|path rest]; [discriminate|].
    destruct (jl path) as [doc|]; [|discriminate].
    destruct (Disk.load doc []) as [[[]|e'] data].
    + destruct (DiskScript.figure fit data []) as [[[]|e'] u] eqn:E;
        [discriminate|].
      injection H as <- <-.
      now apply (shown_or_stopped _ (disk_figure_shows_last fit data)
                 ) with (e := e').
    + injection H as <- <-. intros [].
  - intros prog args jl t H. unfold DietScript.script in H.
    destruct args as [|path rest]; [discriminate|].
    destruct (jl path) as [doc|]; [|discriminate].
    destruct (Diet.load doc []) as [[[]|e] data]; [|discriminate].
    destruct (DietScript.figure data []) as [[[]|e] u] eqn:E; [|discriminate].
    injection H as <-.
    now apply (shown_or_stopped _ (diet_figure_shows_last data)).
  - intros prog args jl e t H. unfold DietScript.script in H.
    destruct args as [|path rest]; [discriminate|].
    destruct (jl path) as [doc|]; [|discriminate].
    destruct (Diet.load doc []) as [[[]|e'] data].
    + destruct (DietScript.figure data []) as [[[]|e'] u] eqn:E;
        [discriminate|].
      injection H as <- <-.
      now apply (shown_or_stopped _ (diet_figure_shows_last data)
                 ) with (e := e').
    + injection H as <- <-. intros [].
Qed.

(** A disk document with its six series, shown; a diet document without
    the allocation kinds, stopped. *)
Lemma show_is_last_and_only_after_success_witness :
  (exists t,
      DiskScript.script (fun _ y => Ok y) "plot.py" ["disk.json"]
        (fun _ =>
           Some (flat (map (fun m => (m, 1, NInt 2)) DiskScript.metrics))) =
      Shown t /\
      exists u, t = u ++ [Show] /\ ~ In Show u)
  /\
  (exists e t,
      DietScript.script "plot.py" ["diet.json"]
        (fun _ =>
           Some (grouped [("monotonic-clock",
                           [("diet/add_interval", 5, NInt 60)])])) =
      Stopped e t /\
      ~ In Show t).
Proof.
  destruct show_is_last_and_only_after_success as (H1 & _ & _ & H4).
  split.
  - eexists. split; [vm_compute; reflexivity|].
    apply (H1 (fun _ y => Ok y) "plot.py" ["disk.json"]
             (fun _ =>
                Some (flat (map (fun m => (m, 1, NInt 2))
                              DiskScript.metrics)))).
    vm_compute. reflexivity.
  - do 2 eexists. split; [vm_compute; reflexivity|].
    apply (H4 "plot.py" ["diet.json"]
             (fun _ =>
                Some (grouped [("monotonic-clock",
                                [("diet/add_interval", 5, NInt 60)])]))
             KeyError).
    vm_compute. reflexivity.
Defined.

(** ** What the figures hold *)

Lemma disk_loaded_series (doc : value) (s0 data : Disk.store) :
  Disk.load doc s0 = (Ok tt, data) ->
  forall k s, lookup k data = Some s -> s <> [].
Proof.
  intros Hrun k s Hl. apply lookup_In in Hl as (k' & Hin & _).
  apply disk_load_ok in Hrun as (records & d & _ & Hagg & Hsort).
  refine (sort_keys_invariant (keys d) d data Hsort _ k' s Hin).
  refine (for_each_invariant
            (fun d : Disk.store => forall k s, In (k, s) d -> s <> [])
            Disk.aggregate records _ [] d _ Hagg).
  - intros x t t' _ Ht Hx. eapply disk_aggregate_invariant; eauto.
  - intros ? ? [].
Qed.

Lemma diet_loaded_series (doc : value) (s0 data : Diet.store) :
  Diet.load doc s0 = (Ok tt, data) ->
  forall kind m s, Diet.lookup2 kind m data = Some s -> s <> [].
Proof.
  intros Hrun kind m s Hl. unfold Diet.lookup2 in Hl.
  destruct (lookup kind data) as [sub|] eqn:Hsub; [|discriminate].
  apply lookup_In in Hsub as (K & Hsub & _).
  apply lookup_In in Hl as (k & Hin & _).
  apply diet_load_ok in Hrun as (groups & d & _ & Hagg & Hsort).
  refine (diet_sort_all_invariant d data Hsort _ K sub Hsub k s Hin).
  refine (for_each_invariant
            (fun d : Diet.store =>
               forall K sub, In (K, sub) d ->
                             forall k s, In (k, s) sub -> s <> [])
            Diet.aggregate_group groups _ [] d _ Hagg).
  - intros x t t' _ Ht Hx. eapply diet_group_invariant; eauto.
  - intros ? ? [].
Qed.

Lemma scatters_app (t u : trace) : scatters (t ++ u) = scatters t ++ scatters u.
Proof. apply flat_map_app. Qed.

Lemma lines_app (t u : trace) : lines (t ++ u) = lines t ++ lines u.
Proof. apply flat_map_app. Qed.

(** One call of [scatter] of the diet script. *)
Lemma diet_scatter_run (ax : nat) (sub : dict series) (key label : string)
      (t : trace) :
  (forall s, lookup (PStr key) sub = Some s -> s <> []) ->
  DietScript.scatter ax sub key label t =
  match lookup (PStr key) sub with
  | Some s => (Ok tt, t ++ [Scatter ax (map fst s) (map snd s) label 6])
  | None => (Raise KeyError, t)
  end.
Proof.
  intros Hs. unfold DietScript.scatter, Diet.scatter, getitem, bind, lift.
  simpl. destruct (lookup (PStr key) sub) as [s|]; [|reflexivity].
  simpl. now rewrite (zip_star_nonempty s (Hs s eq_refl)).
Qed.

(** One call of [scatter] of the disk script. *)
Lemma disk_scatter_run (fit : list value -> list value -> result (list value))
      (data : Disk.store) (ax : nat) (key label : string) (t : trace) :
  (forall s, lookup (PStr key) data = Some s -> s <> []) ->
  DiskScript.scatter fit data ax key label t =
  match lookup (PStr key) data with
  | Some s =>
      match fit (map fst s) (map snd s) with
      | Ok line =>
          (Ok tt, t ++ [Scatter ax (map fst s) (map snd s) label 10;
                        Plot ax (map fst s) line 1])
      | Raise e =>
          (Raise e, t ++ [Scatter ax (map fst s) (map snd s) label 10])
      end
  | None => (Raise KeyError, t)
  end.
Proof.
  intros Hs. unfold DiskScript.scatter, getitem, bind, lift.
  simpl. destruct (lookup (PStr key) data) as [s|]; [|reflexivity].
  rewrite (zip_star_nonempty s (Hs s eq_refl)). simpl.
  destruct (fit (map fst s) (map snd s)); [|reflexivity].
  rewrite !emit_run, <- app_assoc. reflexivity.
Qed.

(** Composition of drawings. *)
Lemma draws_emit (c : call) :
  scatters [c] = [] -> lines [c] = [] -> draws (emit c) [] [] None.
Proof.
  intros Hs Hl t. exists (Ok tt), [c]. rewrite emit_run.
  repeat split; auto. now exists tt.
Qed.

Lemma draws_lift_ok {A} (a : A) : draws (lift (Ok a)) [] [] None.
Proof.
  intros t. exists (Ok a), []. unfold lift. rewrite app_nil_r.
  repeat split. now exists a.
Qed.

Lemma draws_lift_raise {A} (e : exn) :
  draws (@lift trace A (Raise e)) [] [] (Some e).
Proof.
  intros t. exists (Raise e), []. unfold lift. rewrite app_nil_r.
  repeat split.
Qed.

Lemma draws_seq {A B} (c : M trace A) (k : A -> M trace B)
      p1 l1 p2 l2 stop :
  draws c p1 l1 None -> (forall a, draws (k a) p2 l2 stop) ->
  draws (bind c k) (p1 ++ p2) (l1 ++ l2) stop.
Proof.
  intros Hc Hk t. destruct (Hc t) as (r & u & E & Hp & Hl & [a ->]).
  destruct (Hk a (t ++ u)) as (r' & v & E' & Hp' & Hl' & Hr).
  exists r', (u ++ v). unfold bind. rewrite E, E', app_assoc.
  rewrite scatters_app, lines_app, Hp, Hl, Hp', Hl'. auto.
Qed.

Lemma draws_stop {A B} (c : M trace A) (k : A -> M trace B) p l e :
  draws c p l (Some e) -> draws (bind c k) p l (Some e).
Proof.
  intros Hc t. destruct (Hc t) as (r & u & E & Hp & Hl & ->).
  exists (Raise e), u. unfold bind. rewrite E. repeat split; assumption.
Qed.

Lemma draws_run {A} (c : M trace A) p l stop :
  draws c p l stop ->
  exists r t, c [] = (r, t) /\ scatters t = p /\ lines t = l /\ ends r stop.
Proof. intros Hc. destruct (Hc []) as (r & u & E & H). now exists r, u. Qed.

Lemma style_draws : draws style [] [] None.
Proof.
  unfold style.
  repeat first
    [ apply draws_emit; reflexivity
    | apply (draws_seq _ _ [] [] [] []); [|intros ?] ].
Qed.

Lemma draws_after {A B} (c : M trace A) (k : A -> M trace B) p l stop :
  draws c [] [] None -> (forall a, draws (k a) p l stop) ->
  draws (bind c k) p l stop.
Proof. intros Hc Hk. exact (draws_seq c k [] [] p l stop Hc Hk). Qed.

Lemma draws_assoc {A B C} (c : M trace A) (k1 : A -> M trace B)
      (k2 : B -> M trace C) p l stop :
  draws (bind c (fun a => bind (k1 a) k2)) p l stop ->
  draws (bind (bind c k1) k2) p l stop.
Proof.
  intros H t. destruct (H t) as (r & u & E & Hr). exists r, u.
  split; [|exact Hr]. rewrite <- E. unfold bind.
  destruct (c t) as [[a|e] t1]; reflexivity.
Qed.

(** ** The diet figure *)

Lemma diet_scatter_then (data : Diet.store) (sub : dict series) (ax : nat)
      (kind m label : string) (rest : list (nat * string * string * string))
      (k : unit -> M trace unit) :
  let series_at := fun K m => Diet.lookup2 (PStr K) (PStr m) data in
  lookup (PStr kind) data = Some sub ->
  (forall K m s, series_at K m = Some s -> s <> []) ->
  (forall a, draws (k a) (fst (DietScript.drawn series_at rest)) []
               (snd (DietScript.drawn series_at rest))) ->
  draws (bind (DietScript.scatter ax sub m label) k)
    (fst (DietScript.drawn series_at ((ax, kind, m, label) :: rest))) []
    (snd (DietScript.drawn series_at ((ax, kind, m, label) :: rest))).
Proof.
  intros series_at Hsub Hne Hk.
  assert (Hat : series_at kind m = lookup (PStr m) sub).
  { unfold series_at, Diet.lookup2. now rewrite Hsub. }
  assert (Hrun : forall t,
             DietScript.scatter ax sub m label t =
             match lookup (PStr m) sub with
             | Some s =>
                 (Ok tt, t ++ [Scatter ax (map fst s) (map snd s) label 6])
             | None => (Raise KeyError, t)
             end).
  { intros t. apply diet_scatter_run. intros s Hs. apply (Hne kind m).
    now rewrite Hat. }
  cbn [DietScript.drawn]. rewrite Hat.
  destruct (lookup (PStr m) sub) as [s|].
  - destruct (DietScript.drawn series_at rest) as [points stop].
    apply (draws_seq _ _ [(ax, map fst s, map snd s, label)] [] points []);
      [|exact Hk].
    intros t. exists (Ok tt), [Scatter ax (map fst s) (map snd s) label 6].
    rewrite Hrun. repeat split. now exists tt.
  - apply draws_stop. intros t. exists (Raise KeyError), [].
    rewrite Hrun, app_nil_r. repeat split.
Qed.

Lemma draws_ok_then {A B} (a : A) (k : A -> M trace B) p l stop :
  draws (k a) p l stop -> draws (bind (lift (Ok a)) k) p l stop.
Proof. intros H t. exact (H t). Qed.

Lemma diet_panel_then (data : Diet.store) (ax : nat) (kind ylabel : string)
      (rest : list (nat * string * string * string))
      (k : unit -> M trace unit) :
  let series_at := fun K m => Diet.lookup2 (PStr K) (PStr m) data in
  (forall K m s, series_at K m = Some s -> s <> []) ->
  (forall a, draws (k a) (fst (DietScript.drawn series_at rest)) []
               (snd (DietScript.drawn series_at rest))) ->
  draws (bind (DietScript.panel data ax kind ylabel) k)
    (fst (DietScript.drawn series_at
            (map (fun m => (ax, kind, fst m, snd m)) DietScript.metrics
             ++ rest))) []
    (snd (DietScript.drawn series_at
            (map (fun m => (ax, kind, fst m, snd m)) DietScript.metrics
             ++ rest))).
Proof.
  intros series_at Hne Hk. unfold DietScript.panel. apply draws_assoc.
  unfold getitem. cbn [hashable].
  destruct (lookup (PStr kind) data) as [sub|] eqn:Hsub.
  - apply draws_ok_then, draws_assoc. unfold DietScript.plot.
    cbn [DietScript.metrics map app fst snd].
    repeat first
      [ apply (diet_scatter_then data sub); [exact Hsub|exact Hne|intros ?]
      | apply draws_assoc
      | apply draws_after; [apply draws_emit; reflexivity|intros ?]
      | apply Hk ].
  - assert (Hnone : forall m, series_at kind m = None).
    { intros m. unfold series_at, Diet.lookup2. now rewrite Hsub. }
    cbn [DietScript.drawn DietScript.metrics map app fst snd].
    rewrite Hnone. apply draws_stop, draws_lift_raise.
Qed.

Lemma diet_figure_draws (data : Diet.store) :
  let series_at := fun K m => Diet.lookup2 (PStr K) (PStr m) data in
  (forall K m s, series_at K m = Some s -> s <> []) ->
  draws (DietScript.figure data)
    (fst (DietScript.drawn series_at DietScript.required)) []
    (snd (DietScript.drawn series_at DietScript.required)).
Proof.
  intros series_at Hne. unfold DietScript.figure.
  change DietScript.required
    with (map (fun m => (0%nat, "monotonic-clock", fst m, snd m))
            DietScript.metrics ++
          map (fun m => (1%nat, "major-allocated", fst m, snd m))
            DietScript.metrics ++
          map (fun m => (2%nat, "minor-allocated", fst m, snd m))
            DietScript.metrics ++ []).
  apply draws_after; [apply style_draws|intros _].
  apply draws_after; [apply draws_emit; reflexivity|intros _].
  apply draws_after; [apply draws_emit; reflexivity|intros _].
  apply (diet_panel_then data); [exact Hne|intros _].
  apply (diet_panel_then data); [exact Hne|intros _].
  apply (diet_panel_then data); [exact Hne|intros _].
  apply draws_after; [apply draws_emit; reflexivity|intros _].
  apply draws_emit; reflexivity.
Qed.

(** The drawing part of the diet script, on a map whose series are
    non-empty lists of points [(n, v)] with [n] an integer and [v] a
    number, in whatever order: the figure holds the point layers of the
    series found in the map, in the order of the nine (kind, metric) pairs
    and up to the first pair that has no series; it is complete when every
    pair has one, and the drawing stops with [KeyError] at the first pair
    that has none.  Nothing is sorted or dropped on the way from the map
    to the axes, and no line is drawn. *)
Theorem diet_figure_draws_what_is_stored :
  forall (data : Diet.store),
    (forall K m s,
        Diet.lookup2 (PStr K) (PStr m) data = Some s ->
        exists pts, pts <> [] /\ s = map point_value pts) ->
    let series_at := fun K m => Diet.lookup2 (PStr K) (PStr m) data in
    exists r t,
      DietScript.figure data [] = (r, t) /\
      scatters t = fst (DietScript.drawn series_at DietScript.required) /\
      lines t = [] /\
      ends r (snd (DietScript.drawn series_at DietScript.required)).
Proof.
  intros data Hpts series_at.
  apply draws_run, diet_figure_draws.
  intros K m s Hs. destruct (Hpts K m s Hs) as ([|p pts] & Hne & ->);
    [now elim Hne|discriminate].
Qed.

Lemma diet_figure_draws_what_is_stored_witness :
  exists r t,
    DietScript.figure
      [(PStr "monotonic-clock",
        [(PStr "diet/add_interval", [(PInt 5, PInt 60); (PInt 10, PInt 120)]);
         (PStr "diet/take_interval", [(PInt 5, PInt 7)])])] [] = (r, t) /\
    scatters t =
    [(0%nat, [PInt 5; PInt 10], [PInt 60; PInt 120], "Adding an interval")] /\
    lines t = [] /\
    r = Raise KeyError.
Proof.
  apply (diet_figure_draws_what_is_stored
           [(PStr "monotonic-clock",
             [(PStr "diet/add_interval",
               [(PInt 5, PInt 60); (PInt 10, PInt 120)]);
              (PStr "diet/take_interval", [(PInt 5, PInt 7)])])]).
  intros K m s. unfold Diet.lookup2. cbn [lookup]. rewrite py_eq_str.
  destruct (String.eqb "monotonic-clock" K); [|discriminate].
  cbn [lookup]. rewrite !py_eq_str.
  destruct (String.eqb "diet/add_interval" m).
  - intros [= <-]. exists [(5, NInt 60); (10, NInt 120)].
    split; [discriminate|reflexivity].
  - destruct (String.eqb "diet/take_interval" m); [|discriminate].
    intros [= <-]. exists [(5, NInt 7)]. split; [discriminate|reflexivity].
Defined.

(** ** The disk figure *)

Lemma disk_scatter_then
      (fit : list value -> list value -> result (list value))
      (data : Disk.store) (ax : nat) (key label : string)
      (rest : list (nat * string * string)) (k : unit -> M trace unit) :
  let series_at := fun m => lookup (PStr m) data in
  (forall m s, series_at m = Some s -> s <> []) ->
  (forall a,
      draws (k a) (fst (fst (DiskScript.drawn fit series_at rest)))
        (snd (fst (DiskScript.drawn fit series_at rest)))
        (snd (DiskScript.drawn fit series_at rest))) ->
  draws (bind (DiskScript.scatter fit data ax key label) k)
    (fst (fst (DiskScript.drawn fit series_at ((ax, key, label) :: rest))))
    (snd (fst (DiskScript.drawn fit series_at ((ax, key, label) :: rest))))
    (snd (DiskScript.drawn fit series_at ((ax, key, label) :: rest))).
Proof.
  intros series_at Hne Hk.
  pose proof (fun t =>
                disk_scatter_run fit data ax key label t (Hne key)) as Hrun.
  subst series_at. cbn [DiskScript.drawn]. cbv beta.
  destruct (lookup (PStr key) data) as [s|].
  - destruct (fit (map fst s) (map snd s)) as [line|e].
    + destruct (DiskScript.drawn fit _ rest) as [[points curves] stop].
      apply (draws_seq _ _ [(ax, map fst s, map snd s, label)]
               [(ax, map fst s, line)] points curves); [|exact Hk].
      intros t.
      exists (Ok tt), [Scatter ax (map fst s) (map snd s) label 10;
                       Plot ax (map fst s) line 1].
      rewrite Hrun. repeat split. now exists tt.
    + apply draws_stop. intros t.
      exists (Raise e), [Scatter ax (map fst s) (map snd s) label 10].
      rewrite Hrun. repeat split.
  - apply draws_stop. intros t. exists (Raise KeyError), [].
    rewrite Hrun, app_nil_r. repeat split.
Qed.

Lemma disk_figure_draws
      (fit : list value -> list value -> result (list value))
      (data : Disk.store) :
  let series_at := fun m => lookup (PStr m) data in
  (forall m s, series_at m = Some s -> s <> []) ->
  draws (DiskScript.figure fit data)
    (fst (fst (DiskScript.drawn fit series_at DiskScript.layers)))
    (snd (fst (DiskScript.drawn fit series_at DiskScript.layers)))
    (snd (DiskScript.drawn fit series_at DiskScript.layers)).
Proof.
  intros series_at Hne. unfold DiskScript.figure, DiskScript.layers.
  apply draws_after; [apply style_draws|intros _].
  do 2 (apply draws_after; [apply draws_emit; reflexivity|intros _]).
  do 3 (apply (disk_scatter_then fit data); [exact Hne|intros _]).
  do 3 (apply draws_after; [apply draws_emit; reflexivity|intros _]).
  do 3 (apply (disk_scatter_then fit data); [exact Hne|intros _]).
  do 4 (apply draws_after; [apply draws_emit; reflexivity|intros _]).
  apply draws_emit; reflexivity.
Qed.

(** The drawing part of the disk script, on a map whose series are
    non-empty lists of points [(n, v)] with [n] an integer and [v] a
    number, in whatever order: the figure holds, for the six metrics in
    their order, the points of the series found in the map and the line
    that the regression gives over the same abscissas.  The drawing stops
    with [KeyError] at the first metric that has no series, and with the
    exception of the regression at the first series on which it raises;
    the points of that series are on the axes by then, its line is not. *)
Theorem disk_figure_draws_what_is_stored :
  forall (fit : list value -> list value -> result (list value))
         (data : Disk.store),
    (forall m s,
        lookup (PStr m) data = Some s ->
        exists pts, pts <> [] /\ s = map point_value pts) ->
    let series_at := fun m => lookup (PStr m) data in
    exists r t,
      DiskScript.figure fit data [] = (r, t) /\
      scatters t =
      fst (fst (DiskScript.drawn fit series_at DiskScript.layers)) /\
      lines t =
      snd (fst (DiskScript.drawn fit series_at DiskScript.layers)) /\
      ends r (snd (DiskScript.drawn fit series_at DiskScript.layers)).
Proof.
  intros fit data Hpts series_at.
  apply draws_run, disk_figure_draws.
  intros m s Hs. destruct (Hpts m s Hs) as ([|p pts] & Hne & ->);
    [now elim Hne|discriminate].
Qed.

Lemma disk_figure_draws_what_is_stored_witness :
  exists r t,
    DiskScript.figure
      (fun x y => match x with [_] => Raise ValueError | _ => Ok y end)
      [(PStr "sequential.read", [(PInt 1, PInt 2000); (PInt 2, PInt 4000)]);
       (PStr "append.read", [(PInt 1, PInt 3000)])] [] = (r, t) /\
    scatters t =
    [(0%nat, [PInt 1; PInt 2], [PInt 2000; PInt 4000], "Sequential read");
     (0%nat, [PInt 1], [PInt 3000], "Sequential read with O_APPEND")] /\
    lines t = [(0%nat, [PInt 1; PInt 2], [PInt 2000; PInt 4000])] /\
    r = Raise ValueError.
Proof.
  apply (disk_figure_draws_what_is_stored
           (fun x y => match x with [_] => Raise ValueError | _ => Ok y end)
           [(PStr "sequential.read",
             [(PInt 1, PInt 2000); (PInt 2, PInt 4000)]);
            (PStr "append.read", [(PInt 1, PInt 3000)])]).
  intros m s. cbn [lookup]. rewrite !py_eq_str.
  destruct (String.eqb "sequential.read" m).
  - intros [= <-]. exists [(1, NInt 2000); (2, NInt 4000)].
    split; [discriminate|reflexivity].
  - destruct (String.eqb "append.read" m); [|discriminate].
    intros [= <-]. exists [(1, NInt 3000)]. split; [discriminate|reflexivity].
Defined.

(** ** From the document to the figure *)

Lemma diet_drawn_ext (f g : string -> string -> option series) l :
  (forall K m, f K m = g K m) -> DietScript.drawn f l = DietScript.drawn g l.
Proof.
  intros H. induction l as [|[[[ax K] m] label] l IH]; [reflexivity|].
  cbn [DietScript.drawn]. now rewrite H, IH.
Qed.

Lemma disk_drawn_ext fit (f g : string -> option series) l :
  (forall m, f m = g m) -> DiskScript.drawn fit f l = DiskScript.drawn fit g l.
Proof.
  intros H. induction l as [|[[ax m] label] l IH]; [reflexivity|].
  cbn [DiskScript.drawn]. now rewrite H, IH.
Qed.

Lemma diet_script_draws (prog path : string) (rest : list string)
      (json_load : string -> option value) (doc : value) (data : Diet.store) :
  json_load path = Some doc ->
  Diet.load doc [] = (Ok tt, data) ->
  let series_at := fun K m => Diet.lookup2 (PStr K) (PStr m) data in
  exists t,
    DietScript.script prog (path :: rest) json_load =
    match snd (DietScript.drawn series_at DietScript.required) with
    | None => Shown t
    | Some e => Stopped e t
    end /\
    scatters t = fst (DietScript.drawn series_at DietScript.required) /\
    lines t = [].
Proof.
  intros Hdoc Hrun series_at.
  destruct (draws_run _ _ _ _ (diet_figure_draws data
              (fun K m => diet_loaded_series doc [] data Hrun
                            (PStr K) (PStr m))))
    as (r & t & E & Hp & Hl & Hr).
  exists t. unfold DietScript.script. rewrite Hdoc, Hrun, E.
  split; [|split; assumption].
  fold series_at in Hr.
  destruct (snd (DietScript.drawn series_at DietScript.required)).
  - simpl in Hr. now rewrite Hr.
  - destruct Hr as [[] ->]. reflexivity.
Qed.

Lemma disk_script_draws
      (fit : list value -> list value -> result (list value))
      (prog path : string) (rest : list string)
      (json_load : string -> option value) (doc : value) (data : Disk.store) :
  json_load path = Some doc ->
  Disk.load doc [] = (Ok tt, data) ->
  let series_at := fun m => lookup (PStr m) data in
  exists t,
    DiskScript.script fit prog (path :: rest) json_load =
    match snd (DiskScript.drawn fit series_at DiskScript.layers) with
    | None => Shown t
    | Some e => Stopped e t
    end /\
    scatters t =
    fst (fst (DiskScript.drawn fit series_at DiskScript.layers)) /\
    lines t = snd (fst (DiskScript.drawn fit series_at DiskScript.layers)).
Proof.
  intros Hdoc Hrun series_at.
  destruct (draws_run _ _ _ _ (disk_figure_draws fit data
              (fun m => disk_loaded_series doc [] data Hrun (PStr m))))
    as (r & t & E & Hp & Hl & Hr).
  exists t. unfold DiskScript.script. rewrite Hdoc, Hrun, E.
  split; [|split; assumption].
  fold series_at in Hr.
  destruct (snd (DiskScript.drawn fit series_at DiskScript.layers)).
  - simpl in Hr. now rewrite Hr.
  - destruct Hr as [[] ->]. reflexivity.
Qed.

Lemma diet_submitted_stored (groups : list group) :
  exists data,
    Diet.load (grouped groups) [] = (Ok tt, data) /\
    forall K m,
      Diet.lookup2 (PStr K) (PStr m) data = DietScript.submitted groups K m.
Proof.
  destruct (diet_lookup2_typed groups []) as (data & Hrun & _ & _ & _ & Hl).
  exists data. split; [exact Hrun|]. intros K m. rewrite Hl. reflexivity.
Qed.

Lemma disk_submitted_stored (records : list measure) :
  exists data,
    Disk.load (flat records) [] = (Ok tt, data) /\
    forall m, lookup (PStr m) data = DiskScript.submitted records m.
Proof.
  destruct (disk_load_typed records []) as (data & Hrun & _ & Hl).
  exists data. split; [exact Hrun|]. intros m. rewrite Hl. reflexivity.
Qed.

(** The diet script on a well-shaped document without NaN values: the
    figure holds, for each of the nine (kind, metric) pairs in turn, the
    points submitted for the pair, by increasing [n] and then value, the
    [n] as abscissas and the values as ordinates, under the label of the
    metric and on the axes of the kind.  The figure is shown when every
    pair has a measure; the run stops with [KeyError] at the first pair
    that has none, with the layers of the pairs before it drawn and
    nothing shown. *)
Theorem diet_script_draws_the_submitted_points :
  forall (prog path : string) (rest : list string)
         (json_load : string -> option value) (groups : list group),
    json_load path = Some (grouped groups) ->
    Forall (fun g => Forall (fun r => is_nan (snd r) = false) (snd g))
      groups ->
    exists t,
      DietScript.script prog (path :: rest) json_load =
      match snd (DietScript.drawn (DietScript.submitted groups)
                   DietScript.required) with
      | None => Shown t
      | Some e => Stopped e t
      end /\
      scatters t =
      fst (DietScript.drawn (DietScript.submitted groups)
             DietScript.required) /\
      lines t = [].
Proof.
  intros prog path rest json_load groups Hdoc _.
  destruct (diet_submitted_stored groups) as (data & Hrun & Hl).
  rewrite <- (diet_drawn_ext _ _ DietScript.required Hl).
  now apply (diet_script_draws prog path rest json_load (grouped groups)).
Qed.

(** The disk script on a well-shaped document without NaN values: the
    figure holds, for each of the six metrics in turn, the points
    submitted for the metric with their values times 1000, by increasing
    [n] and then value, and the line that the regression gives on these
    coordinates.  The run stops with [KeyError] at the first metric that
    has no measure and with the exception of the regression at the first
    series on which it raises. *)
Theorem disk_script_draws_the_submitted_points :
  forall (fit : list value -> list value -> result (list value))
         (prog path : string) (rest : list string)
         (json_load : string -> option value) (records : list measure),
    json_load path = Some (flat records) ->
    Forall (fun r => is_nan (snd r) = false) records ->
    exists t,
      DiskScript.script fit prog (path :: rest) json_load =
      match snd (DiskScript.drawn fit (DiskScript.submitted records)
                   DiskScript.layers) with
      | None => Shown t
      | Some e => Stopped e t
      end /\
      scatters t =
      fst (fst (DiskScript.drawn fit (DiskScript.submitted records)
                  DiskScript.layers)) /\
      lines t =
      snd (fst (DiskScript.drawn fit (DiskScript.submitted records)
                  DiskScript.layers)).
Proof.
  intros fit prog path rest json_load records Hdoc _.
  destruct (disk_submitted_stored records) as (data & Hrun & Hl).
  rewrite <- (disk_drawn_ext fit _ _ DiskScript.layers Hl).
  now apply (disk_script_draws fit prog path rest json_load (flat records)).
Qed.

(** A document with the nine series; the two measures of the first one
    are drawn by increasing [n]. *)
Lemma diet_script_draws_the_submitted_points_witness :
  exists t,
    DietScript.script "plot.py" ["diet.json"]
      (fun _ =>
         Some (grouped
                 [("monotonic-clock",
                   [("diet/add_interval", 10, NInt 120);
                    ("diet/remove_interval", 5, NInt 70);
                    ("diet/take_interval", 5, NInt 80);
                    ("diet/add_interval", 5, NInt 60)]);
                  ("major-allocated",
                   [("diet/add_interval", 5, NFloat 1.5);
                    ("diet/remove_interval", 5, NInt 0);
                    ("diet/take_interval", 5, NInt 0)]);
                  ("minor-allocated",
                   [("diet/add_interval", 5, NInt 31);
                    ("diet/remove_interval", 5, NInt 12);
                    ("diet/take_interval", 5, NInt 9)])])) = Shown t /\
    scatters t =
    [(0%nat, [PInt 5; PInt 10], [PInt 60; PInt 120], "Adding an interval");
     (0%nat, [PInt 5], [PInt 70], "Deleting an interval");
     (0%nat, [PInt 5], [PInt 80], "Finding a sub-interval");
     (1%nat, [PInt 5], [PFloat 1.5], "Adding an interval");
     (1%nat, [PInt 5], [PInt 0], "Deleting an interval");
     (1%nat, [PInt 5], [PInt 0], "Finding a sub-interval");
     (2%nat, [PInt 5], [PInt 31], "Adding an interval");
     (2%nat, [PInt 5], [PInt 12], "Deleting an interval");
     (2%nat, [PInt 5], [PInt 9], "Finding a sub-interval")] /\
    lines t = [].
Proof.
  apply (diet_script_draws_the_submitted_points "plot.py" "diet.json" []
           (fun _ =>
              Some (grouped
                      [("monotonic-clock",
                        [("diet/add_interval", 10, NInt 120);
                         ("diet/remove_interval", 5, NInt 70);
                         ("diet/take_interval", 5, NInt 80);
                         ("diet/add_interval", 5, NInt 60)]);
                       ("major-allocated",
                        [("diet/add_interval", 5, NFloat 1.5);
                         ("diet/remove_interval", 5, NInt 0);
                         ("diet/take_interval", 5, NInt 0)]);
                       ("minor-allocated",
                        [("diet/add_interval", 5, NInt 31);
                         ("diet/remove_interval", 5, NInt 12);
                         ("diet/take_interval", 5, NInt 9)])]))
           _ eq_refl).
  repeat constructor.
Defined.

(** A document without a measure of [random.read]: two series are drawn
    with their lines, then the run stops. *)
Lemma disk_script_draws_the_submitted_points_witness :
  exists t,
    DiskScript.script (fun _ y => Ok y) "plot.py" ["disk.json"]
      (fun _ =>
         Some (flat [("sequential.read", 2, NInt 4);
                     ("append.read", 1, NFloat 0.5);
                     ("sequential.read", 1, NInt 2)])) =
    Stopped KeyError t /\
    scatters t =
    [(0%nat, [PInt 1; PInt 2], [PInt 2000; PInt 4000], "Sequential read");
     (0%nat, [PInt 1], [PFloat 500], "Sequential read with O_APPEND")] /\
    lines t =
    [(0%nat, [PInt 1; PInt 2], [PInt 2000; PInt 4000]);
     (0%nat, [PInt 1], [PFloat 500])].
Proof.
  apply (disk_script_draws_the_submitted_points (fun _ y => Ok y)
           "plot.py" "disk.json" []
           (fun _ =>
              Some (flat [("sequential.read", 2, NInt 4);
                          ("append.read", 1, NFloat 0.5);
                          ("sequential.read", 1, NInt 2)]))
           _ eq_refl).
  repeat constructor.
Defined.

(** ** When the figure is shown *)

Lemma diet_drawn_complete (f : string -> string -> option series) l :
  snd (DietScript.drawn f l) = None <->
  forall ax K m label, In (ax, K, m, label) l -> f K m <> None.
Proof.
  induction l as [|[[[ax K] m] label] l IH].
  - split; [intros _ ? ? ? ? []|reflexivity].
  - cbn [DietScript.drawn]. destruct (f K m) as [s|] eqn:E.
    + destruct (DietScript.drawn f l) as [points stop]. cbn [snd] in *.
      rewrite IH. split.
      * intros H ax' K' m' label' [[= <- <- <- <-]|Hin];
          [congruence|eauto].
      * intros H ax' K' m' label' Hin. apply (H ax' K' m' label').
        now right.
    + split; [discriminate|]. intros H. exfalso.
      apply (H ax K m label); [now left|exact E].
Qed.

Lemma diet_drawn_stop (f : string -> string -> option series) l e :
  snd (DietScript.drawn f l) = Some e -> e = KeyError.
Proof.
  induction l as [|[[[ax K] m] label] l IH]; [discriminate|].
  cbn [DietScript.drawn]. destruct (f K m) as [s|].
  - destruct (DietScript.drawn f l) as [points stop]. exact IH.
  - now intros [= <-].
Qed.

Lemma diet_submitted_some (groups : list group) (K m : string) :
  DietScript.submitted groups K m <> None <->
  exists g r, In g groups /\ fst g = K /\ In r (snd g) /\ metric r = m.
Proof.
  unfold DietScript.submitted.
  transitivity (under m (of_kind K groups) <> []).
  - destruct (under m (of_kind K groups)); split; congruence.
  - rewrite under_nonempty. split.
    + intros (r & Hin & Hm). apply in_of_kind in Hin as (g & Hg & HK & Hr).
      now exists g, r.
    + intros (g & r & Hg & HK & Hr & Hm). exists r. split; [|exact Hm].
      apply in_of_kind. now exists g.
Qed.

(** The diet script on a well-shaped document shows its figure exactly
    when each of the nine (kind, metric) pairs that it draws has at least
    one measure in the document; when a pair has none the run stops with
    [KeyError].  An empty document, or one with two kinds only, gives no
    figure. *)
Theorem diet_figure_needs_its_nine_series :
  forall (prog path : string) (rest : list string)
         (json_load : string -> option value) (groups : list group),
    json_load path = Some (grouped groups) ->
    let complete :=
      forall ax K m label,
        In (ax, K, m, label) DietScript.required ->
        exists g r, In g groups /\ fst g = K /\ In r (snd g) /\ metric r = m in
    (complete <->
     exists t, DietScript.script prog (path :: rest) json_load = Shown t) /\
    (~ complete <->
     exists t,
       DietScript.script prog (path :: rest) json_load = Stopped KeyError t).
Proof.
  intros prog path rest json_load groups Hdoc complete.
  destruct (diet_submitted_stored groups) as (data & Hrun & Hl).
  destruct (diet_script_draws prog path rest json_load _ data Hdoc Hrun)
    as (t & E & _).
  rewrite (diet_drawn_ext _ _ DietScript.required Hl) in E.
  assert (Hc : complete <->
               snd (DietScript.drawn (DietScript.submitted groups)
                      DietScript.required) = None).
  { rewrite diet_drawn_complete. unfold complete. split.
    - intros H ax K m label Hin. apply diet_submitted_some. eauto.
    - intros H ax K m label Hin. apply diet_submitted_some. eauto. }
  destruct (snd (DietScript.drawn (DietScript.submitted groups)
                   DietScript.required)) as [e|] eqn:Hstop.
  - apply diet_drawn_stop in Hstop as ->. split.
    + split; [intros H; apply Hc in H; discriminate|].
      intros (u & Hu). congruence.
    + split; [eauto|]. intros _ H. apply Hc in H. discriminate.
  - split.
    + split; [eauto|]. intros _. now apply Hc.
    + split; [intros H; elim H; now apply Hc|].
      intros (u & Hu). congruence.
Qed.

Lemma diet_figure_needs_its_nine_series_witness :
  ~ (forall ax K m label,
        In (ax, K, m, label) DietScript.required ->
        exists g r,
          In g [("monotonic-clock", [("diet/add_interval", 5, NInt 60)])] /\
          fst g = K /\ In r (snd g) /\ metric r = m) <->
  exists t,
    DietScript.script "plot.py" ["diet.json"]
      (fun _ =>
         Some (grouped
                 [("monotonic-clock", [("diet/add_interval", 5, NInt 60)])]))
    = Stopped KeyError t.
Proof.
  exact (proj2 (diet_figure_needs_its_nine_series "plot.py" "diet.json" []
                  (fun _ =>
                     Some (grouped
                             [("monotonic-clock",
                               [("diet/add_interval", 5, NInt 60)])]))
                  _ eq_refl)).
Defined.

Lemma disk_drawn_complete
      (fit : list value -> list value -> result (list value))
      (f : string -> option series) l :
  snd (DiskScript.drawn fit f l) = None <->
  forall ax m label,
    In (ax, m, label) l ->
    exists s line, f m = Some s /\ fit (map fst s) (map snd s) = Ok line.
Proof.
  induction l as [|[[ax m] label] l IH].
  - split; [intros _ ? ? ? []|reflexivity].
  - cbn [DiskScript.drawn]. destruct (f m) as [s|] eqn:E.
    + destruct (fit (map fst s) (map snd s)) as [line|e] eqn:Ef.
      * destruct (DiskScript.drawn fit f l) as [[points curves] stop].
        cbn [snd] in *. rewrite IH. split.
        -- intros H ax' m' label' [[= <- <- <-]|Hin]; [eauto|eauto].
        -- intros H ax' m' label' Hin. apply (H ax' m' label'). now right.
      * split; [discriminate|]. intros H. exfalso.
        destruct (H ax m label) as (s' & line & Hs & Hf); [now left|].
        congruence.
    + split; [discriminate|]. intros H. exfalso.
      destruct (H ax m label) as (s' & line & Hs & Hf); [now left|].
      congruence.
Qed.

Lemma disk_submitted_some (records : list measure) (m : string) :
  DiskScript.submitted records m <> None <->
  exists r, In r records /\ metric r = m.
Proof.
  unfold DiskScript.submitted. rewrite <- under_nonempty.
  destruct (under m records); split; congruence.
Qed.

(** The disk script on a well-shaped document without NaN values shows its
    figure exactly when each of the six metrics that it draws has a
    series, that is at least one measure in the document, and the
    regression returns on each of the six series; in every other case the
    run stops with an exception.  A document that lacks one of the six
    metrics gives no figure, whatever the regression does. *)
Theorem disk_figure_needs_its_six_series :
  forall (fit : list value -> list value -> result (list value))
         (prog path : string) (rest : list string)
         (json_load : string -> option value) (records : list measure),
    json_load path = Some (flat records) ->
    Forall (fun r => is_nan (snd r) = false) records ->
    ((exists t,
         DiskScript.script fit prog (path :: rest) json_load = Shown t) <->
     forall ax m label,
       In (ax, m, label) DiskScript.layers ->
       exists s line,
         DiskScript.submitted records m = Some s /\
         fit (map fst s) (map snd s) = Ok line) /\
    ((exists t,
         DiskScript.script fit prog (path :: rest) json_load = Shown t) ->
     forall m, In m DiskScript.metrics ->
               exists r, In r records /\ metric r = m) /\
    ((exists t,
         DiskScript.script fit prog (path :: rest) json_load = Shown t) \/
     (exists e t,
         DiskScript.script fit prog (path :: rest) json_load = Stopped e t)).
Proof.
  intros fit prog path rest json_load records Hdoc _.
  destruct (disk_submitted_stored records) as (data & Hrun & Hl).
  destruct (disk_script_draws fit prog path rest json_load _ data Hdoc Hrun)
    as (t & E & _).
  rewrite (disk_drawn_ext fit _ _ DiskScript.layers Hl) in E.
  pose proof (disk_drawn_complete fit (DiskScript.submitted records)
                DiskScript.layers) as Hc.
  assert (Hshown :
            (exists t,
                DiskScript.script fit prog (path :: rest) json_load = Shown t)
            <->
            forall ax m label,
              In (ax, m, label) DiskScript.layers ->
              exists s line,
                DiskScript.submitted records m = Some s /\
                fit (map fst s) (map snd s) = Ok line).
  { rewrite <- Hc.
    destruct (snd (DiskScript.drawn fit (DiskScript.submitted records)
                     DiskScript.layers)) as [e|].
    - split; [|discriminate]. intros (u & Hu). congruence.
    - split; [reflexivity|eauto]. }
  split; [exact Hshown|]. split.
  - intros Hs m Hin. unfold DiskScript.metrics in Hin.
    apply in_map_iff in Hin as ([[ax m'] label] & <- & Hin).
    destruct (proj1 Hshown Hs ax m' label Hin) as (s & line & Hsome & _).
    apply disk_submitted_some. cbn [fst snd]. congruence.
  - destruct (snd (DiskScript.drawn fit (DiskScript.submitted records)
                     DiskScript.layers)) as [e|]; eauto.
Qed.

Lemma disk_figure_needs_its_six_series_witness :
  (exists t,
      DiskScript.script (fun _ y => Ok y) "plot.py" ["disk.json"]
        (fun _ => Some (flat [("sequential.read", 1, NInt 2)])) = Shown t) \/
  (exists e t,
      DiskScript.script (fun _ y => Ok y) "plot.py" ["disk.json"]
        (fun _ => Some (flat [("sequential.read", 1, NInt 2)])) =
      Stopped e t).
Proof.
  refine (proj2 (proj2 (disk_figure_needs_its_six_series (fun _ y => Ok y)
                          "plot.py" "disk.json" []
                          (fun _ =>
                             Some (flat [("sequential.read", 1, NInt 2)]))
                          _ eq_refl _))).
  repeat constructor.
Defined.

(** ** What the figure depends on *)

Lemma bind_ext {S A B} (c1 c2 : M S A) (k1 k2 : A -> M S B) :
  (forall s, c1 s = c2 s) -> (forall a s, k1 a s = k2 a s) ->
  forall s, bind c1 k1 s = bind c2 k2 s.
Proof.
  intros Hc Hk s. unfold bind. rewrite Hc.
  destruct (c2 s) as [[a|e] s1]; [apply Hk|reflexivity].
Qed.

Lemma disk_scatter_ext
      (fit : list value -> list value -> result (list value))
      (d1 d2 : Disk.store) (ax : nat) (key label : string) :
  lookup (PStr key) d1 = lookup (PStr key) d2 ->
  forall t, DiskScript.scatter fit d1 ax key label t =
            DiskScript.scatter fit d2 ax key label t.
Proof.
  intros H t. unfold DiskScript.scatter, getitem. cbn [hashable].
  now rewrite H.
Qed.

Lemma disk_figure_ext
      (fit : list value -> list value -> result (list value))
      (d1 d2 : Disk.store) :
  (forall m, In m DiskScript.metrics ->
             lookup (PStr m) d1 = lookup (PStr m) d2) ->
  forall t, DiskScript.figure fit d1 t = DiskScript.figure fit d2 t.
Proof.
  intros H. unfold DiskScript.figure.
  repeat first
    [ apply disk_scatter_ext; apply H; cbn; tauto
    | apply bind_ext; [|intros _]
    | reflexivity ].
Qed.

Lemma diet_scatter_ext (ax : nat) (d1 d2 : dict series) (key label : string) :
  lookup (PStr key) d1 = lookup (PStr key) d2 ->
  forall t, DietScript.scatter ax d1 key label t =
            DietScript.scatter ax d2 key label t.
Proof.
  intros H t. unfold DietScript.scatter, Diet.scatter, getitem.
  cbn [hashable]. now rewrite H.
Qed.

Lemma diet_plot_ext (ax : nat) (d1 d2 : dict series) :
  (forall m label, In (m, label) DietScript.metrics ->
                   lookup (PStr m) d1 = lookup (PStr m) d2) ->
  forall t, DietScript.plot ax d1 t = DietScript.plot ax d2 t.
Proof.
  intros H. unfold DietScript.plot.
  repeat first
    [ apply diet_scatter_ext; eapply H; cbn; tauto
    | apply bind_ext; [|intros _]
    | reflexivity ].
Qed.

Lemma diet_plot_absent (ax : nat) (d : dict series) (t : trace) :
  lookup (PStr "diet/add_interval") d = None ->
  DietScript.plot ax d t = (Raise KeyError, t).
Proof.
  intros H. unfold DietScript.plot, DietScript.scatter, Diet.scatter, getitem.
  cbn [hashable]. unfold bind at 1 2. unfold lift at 1. now rewrite H.
Qed.

Lemma bind_lift_ok {S A B} (a : A) (k : A -> M S B) (s : S) :
  bind (lift (Ok a)) k s = k a s.
Proof. reflexivity. Qed.

Lemma bind_lift_raise {S A B} (e : exn) (k : A -> M S B) (s : S) :
  bind (lift (Raise e)) k s = (Raise e, s).
Proof. reflexivity. Qed.

Lemma diet_panel_ext (d1 d2 : Diet.store) (ax : nat) (kind ylabel : string) :
  (forall m label,
      In (m, label) DietScript.metrics ->
      Diet.lookup2 (PStr kind) (PStr m) d1 =
      Diet.lookup2 (PStr kind) (PStr m) d2) ->
  forall t, DietScript.panel d1 ax kind ylabel t =
            DietScript.panel d2 ax kind ylabel t.
Proof.
  intros H t. unfold DietScript.panel, getitem. cbn [hashable].
  unfold Diet.lookup2 in H.
  destruct (lookup (PStr kind) d1) as [sub1|],
           (lookup (PStr kind) d2) as [sub2|];
    rewrite ?bind_lift_ok, ?bind_lift_raise.
  - apply bind_ext; [|reflexivity]. now apply diet_plot_ext.
  - unfold bind. rewrite diet_plot_absent; [reflexivity|].
    apply (H _ "Adding an interval"). cbn. tauto.
  - unfold bind. rewrite diet_plot_absent; [reflexivity|].
    symmetry. apply (H _ "Adding an interval"). cbn. tauto.
  - reflexivity.
Qed.

Lemma diet_figure_ext (d1 d2 : Diet.store) :
  (forall ax kind m label,
      In (ax, kind, m, label) DietScript.required ->
      Diet.lookup2 (PStr kind) (PStr m) d1 =
      Diet.lookup2 (PStr kind) (PStr m) d2) ->
  forall t, DietScript.figure d1 t = DietScript.figure d2 t.
Proof.
  intros H. unfold DietScript.figure.
  repeat first
    [ apply diet_panel_ext; intros m label Hin;
      cbn in Hin; decompose [or] Hin; clear Hin;
      match goal with
      | E : (_, _) = (_, _) |- _ => injection E as <- <-
      | F : False |- _ => elim F
      end;
      eapply H; cbn; tauto
    | apply bind_ext; [|intros _]
    | reflexivity ].
Qed.

Lemma disk_script_ext
      (fit : list value -> list value -> result (list value))
      (prog path : string) (rest : list string)
      (jl1 jl2 : string -> option value) (doc1 doc2 : value)
      (d1 d2 : Disk.store) :
  jl1 path = Some doc1 -> jl2 path = Some doc2 ->
  Disk.load doc1 [] = (Ok tt, d1) -> Disk.load doc2 [] = (Ok tt, d2) ->
  (forall m, In m DiskScript.metrics ->
             lookup (PStr m) d1 = lookup (PStr m) d2) ->
  DiskScript.script fit prog (path :: rest) jl1 =
  DiskScript.script fit prog (path :: rest) jl2.
Proof.
  intros H1 H2 L1 L2 H. unfold DiskScript.script.
  rewrite H1, H2, L1, L2. now rewrite (disk_figure_ext fit d1 d2 H).
Qed.

Lemma diet_script_ext (prog path : string) (rest : list string)
      (jl1 jl2 : string -> option value) (doc1 doc2 : value)
      (d1 d2 : Diet.store) :
  jl1 path = Some doc1 -> jl2 path = Some doc2 ->
  Diet.load doc1 [] = (Ok tt, d1) -> Diet.load doc2 [] = (Ok tt, d2) ->
  (forall ax kind m label,
      In (ax, kind, m, label) DietScript.required ->
      Diet.lookup2 (PStr kind) (PStr m) d1 =
      Diet.lookup2 (PStr kind) (PStr m) d2) ->
  DietScript.script prog (path :: rest) jl1 =
  DietScript.script prog (path :: rest) jl2.
Proof.
  intros H1 H2 L1 L2 H. unfold DietScript.script.
  rewrite H1, H2, L1, L2. now rewrite (diet_figure_ext d1 d2 H).
Qed.

(** The disk script reads the series of its six metrics and nothing else:
    two well-shaped documents that hold the same measures for each of the
    six metrics, whatever else they hold, give the same run, call for
    call. *)
Theorem disk_script_reads_its_six_metrics_only :
  forall (fit : list value -> list value -> result (list value))
         (prog path : string) (rest : list string)
         (jl1 jl2 : string -> option value) (records1 records2 : list measure),
    jl1 path = Some (flat records1) ->
    jl2 path = Some (flat records2) ->
    (forall m, In m DiskScript.metrics ->
               under m records1 = under m records2) ->
    DiskScript.script fit prog (path :: rest) jl1 =
    DiskScript.script fit prog (path :: rest) jl2.
Proof.
  intros fit prog path rest jl1 jl2 records1 records2 H1 H2 H.
  destruct (disk_submitted_stored records1) as (d1 & L1 & E1).
  destruct (disk_submitted_stored records2) as (d2 & L2 & E2).
  apply (disk_script_ext fit prog path rest jl1 jl2 _ _ d1 d2 H1 H2 L1 L2).
  intros m Hm. rewrite E1, E2. unfold DiskScript.submitted.
  now rewrite (H m Hm).
Qed.

Lemma disk_script_reads_its_six_metrics_only_witness :
  DiskScript.script (fun _ y => Ok y) "plot.py" ["a.json"]
    (fun _ => Some (flat [("sequential.read", 2, NInt 4);
                          ("fsync", 1, NInt 9);
                          ("sequential.read", 1, NInt 2)])) =
  DiskScript.script (fun _ y => Ok y) "plot.py" ["a.json"]
    (fun _ => Some (flat [("sequential.read", 2, NInt 4);
                          ("sequential.read", 1, NInt 2);
                          ("mmap", 3, NFloat 0.5)])).
Proof.
  apply (disk_script_reads_its_six_metrics_only (fun _ y => Ok y)
           "plot.py" "a.json" []
           (fun _ => Some (flat [("sequential.read", 2, NInt 4);
                                 ("fsync", 1, NInt 9);
                                 ("sequential.read", 1, NInt 2)]))
           (fun _ => Some (flat [("sequential.read", 2, NInt 4);
                                 ("sequential.read", 1, NInt 2);
                                 ("mmap", 3, NFloat 0.5)]))
           _ _ eq_refl eq_refl).
  intros m Hm. cbn in Hm. decompose [or] Hm; subst; try reflexivity.
  contradiction.
Defined.

(** The diet script reads the series of its nine (kind, metric) pairs and
    nothing else: two well-shaped documents that hold the same measures
    for each of the nine pairs, whatever their grouping and whatever else
    they hold, give the same run, call for call. *)
Theorem diet_script_reads_its_nine_series_only :
  forall (prog path : string) (rest : list string)
         (jl1 jl2 : string -> option value) (groups1 groups2 : list group),
    jl1 path = Some (grouped groups1) ->
    jl2 path = Some (grouped groups2) ->
    (forall ax kind m label,
        In (ax, kind, m, label) DietScript.required ->
        under m (of_kind kind groups1) = under m (of_kind kind groups2)) ->
    DietScript.script prog (path :: rest) jl1 =
    DietScript.script prog (path :: rest) jl2.
Proof.
  intros prog path rest jl1 jl2 groups1 groups2 H1 H2 H.
  destruct (diet_submitted_stored groups1) as (d1 & L1 & E1).
  destruct (diet_submitted_stored groups2) as (d2 & L2 & E2).
  apply (diet_script_ext prog path rest jl1 jl2 _ _ d1 d2 H1 H2 L1 L2).
  intros ax kind m label Hin. rewrite E1, E2. unfold DietScript.submitted.
  now rewrite (H ax kind m label Hin).
Qed.

Lemma diet_script_reads_its_nine_series_only_witness :
  DietScript.script "plot.py" ["a.json"]
    (fun _ =>
       Some (grouped [("monotonic-clock",
                       [("diet/add_interval", 5, NInt 60);
                        ("diet/union", 5, NInt 1)]);
                      ("monotonic-clock",
                       [("diet/add_interval", 10, NInt 120)])])) =
  DietScript.script "plot.py" ["a.json"]
    (fun _ =>
       Some (grouped [("monotonic-clock",
                       [("diet/add_interval", 5, NInt 60);
                        ("diet/add_interval", 10, NInt 120)]);
                      ("promoted", [("diet/add_interval", 5, NInt 0)])])).
Proof.
  apply (diet_script_reads_its_nine_series_only "plot.py" "a.json" []
           (fun _ =>
              Some (grouped [("monotonic-clock",
                              [("diet/add_interval", 5, NInt 60);
                               ("diet/union", 5, NInt 1)]);
                             ("monotonic-clock",
                              [("diet/add_interval", 10, NInt 120)])]))
           (fun _ =>
              Some (grouped [("monotonic-clock",
                              [("diet/add_interval", 5, NInt 60);
                               ("diet/add_interval", 10, NInt 120)]);
                             ("promoted", [("diet/add_interval", 5, NInt 0)])]))
           _ _ eq_refl eq_refl).
  intros ax kind m label Hin. cbn in Hin.
  decompose [or] Hin; try contradiction;
    match goal with
    | E : (_, _, _, _) = (_, _, _, _) |- _ => injection E as <- <- <- <-
    end; reflexivity.
Defined.

(** ** The order of the records *)

Lemma sorted_perm_eq {A} (R : A -> A -> Prop) (l1 l2 : list A) :
  (forall a b, In a l1 -> In b l1 -> R a b -> R b a -> a = b) ->
  StronglySorted R l1 -> StronglySorted R l2 -> Permutation l1 l2 ->
  l1 = l2.
Proof.
  revert l2. induction l1 as [|a l1 IH]; intros l2 Hanti S1 S2 HP.
  - apply Permutation_nil in HP. now subst.
  - destruct l2 as [|b l2].
    { apply Permutation_sym, Permutation_nil in HP. discriminate. }
    apply StronglySorted_inv in S1 as [S1 F1].
    apply StronglySorted_inv in S2 as [S2 F2].
    rewrite Forall_forall in F1, F2.
    assert (Hab : a = b).
    { assert (Ha : In a (b :: l2))
        by (eapply Permutation_in; [exact HP|now left]).
      assert (Hb : In b (a :: l1))
        by (eapply Permutation_in; [apply Permutation_sym, HP|now left]).
      destruct Ha as [Ha|Ha]; [now symmetry|].
      destruct Hb as [Hb|Hb]; [exact Hb|].
      apply Hanti; [now left|now right|now apply F1|now apply F2]. }
    subst b. f_equal. apply IH; auto.
    + intros x y Hx Hy. apply Hanti; now right.
    + eapply Permutation_cons_inv, HP.
Qed.

Lemma filter_perm {A} (f : A -> bool) (l1 l2 : list A) :
  Permutation l1 l2 -> Permutation (filter f l1) (filter f l2).
Proof.
  induction 1 as [|x l1 l2 _ IH|x y l|l1 l2 l3 _ IH1 _ IH2]; simpl.
  - constructor.
  - destruct (f x); [now constructor|exact IH].
  - destruct (f x), (f y); try reflexivity. constructor.
  - now transitivity (filter f l2).
Qed.

Lemma under_perm (m : string) (l1 l2 : list measure) :
  Permutation l1 l2 -> Permutation (under m l1) (under m l2).
Proof. intros H. unfold under. now apply Permutation_map, filter_perm. Qed.

Lemma in_under (m : string) (l : list measure) (p : point) :
  In p (under m l) -> In p (map point_of l).
Proof.
  unfold under. rewrite !in_map_iff. intros (r & <- & Hin).
  apply filter_In in Hin as [Hin _]. eauto.
Qed.

(** Sorting forgets the order of the points it is given, ties apart. *)
Lemma sort_points_of_perm (l1 l2 : list point) :
  Permutation l1 l2 ->
  Forall (fun p => is_nan (snd p) = false) l1 ->
  no_ties l1 ->
  sort_points l1 = sort_points l2.
Proof.
  intros HP Hnan Hties.
  assert (Hnan2 : Forall (fun p => is_nan (snd p) = false) l2).
  { rewrite Forall_forall in *. intros p Hp. apply Hnan.
    eapply Permutation_in; [apply Permutation_sym, HP|exact Hp]. }
  apply (sorted_perm_eq point_le).
  - intros a b Ha Hb. apply Hties;
      (eapply Permutation_in; [apply sort_points_perm|]); assumption.
  - now apply sort_points_sorted.
  - now apply sort_points_sorted.
  - rewrite !sort_points_perm. exact HP.
Qed.

Lemma scaled_not_nan (l : list measure) :
  Forall (fun r => is_nan (snd r) = false) l ->
  Forall (fun p => is_nan (snd p) = false) (map scale_point (map point_of l)).
Proof.
  intros H. rewrite !Forall_map. eapply Forall_impl; [|exact H].
  intros r Hr. now apply scale_not_nan.
Qed.

Lemma forall_under (P : point -> Prop) (m : string) (l : list measure) :
  Forall P (map point_of l) -> Forall P (under m l).
Proof.
  rewrite !Forall_forall. intros H p Hp. now apply H, (in_under m).
Qed.

Lemma disk_submitted_perm (records1 records2 : list measure) (m : string) :
  Permutation records1 records2 ->
  Forall (fun r => is_nan (snd r) = false) records1 ->
  no_ties (map scale_point (map point_of records1)) ->
  DiskScript.submitted records1 m = DiskScript.submitted records2 m.
Proof.
  intros HP Hnan Hties. unfold DiskScript.submitted.
  pose proof (under_perm m _ _ HP) as Hu.
  assert (E : sort_points (map scale_point (under m records1)) =
              sort_points (map scale_point (under m records2))).
  { apply sort_points_of_perm.
    - now apply Permutation_map.
    - apply scaled_not_nan in Hnan. rewrite Forall_forall in *.
      intros p Hp. apply Hnan. apply in_map_iff in Hp as (q & <- & Hq).
      apply in_map, (in_under m), Hq.
    - intros p q Hp Hq. apply Hties.
      + apply in_map_iff in Hp as (x & <- & Hx).
        apply in_map, (in_under m), Hx.
      + apply in_map_iff in Hq as (x & <- & Hx).
        apply in_map, (in_under m), Hx. }
  destruct (under m records1) as [|p1 u1], (under m records2) as [|p2 u2].
  - reflexivity.
  - apply Permutation_nil in Hu. discriminate.
  - apply Permutation_sym, Permutation_nil in Hu. discriminate.
  - now rewrite E.
Qed.

Lemma diet_submitted_perm (groups1 groups2 : list group) (kind m : string) :
  Permutation (of_kind kind groups1) (of_kind kind groups2) ->
  Forall (fun r => is_nan (snd r) = false) (of_kind kind groups1) ->
  no_ties (map point_of (of_kind kind groups1)) ->
  DietScript.submitted groups1 kind m = DietScript.submitted groups2 kind m.
Proof.
  intros HP Hnan Hties. unfold DietScript.submitted.
  pose proof (under_perm m _ _ HP) as Hu.
  assert (E : sort_points (under m (of_kind kind groups1)) =
              sort_points (under m (of_kind kind groups2))).
  { apply sort_points_of_perm.
    - exact Hu.
    - apply forall_under. now rewrite Forall_map.
    - intros p q Hp Hq. apply Hties; now apply (in_under m). }
  destruct (under m (of_kind kind groups1)) as [|p1 u1],
           (under m (of_kind kind groups2)) as [|p2 u2].
  - reflexivity.
  - apply Permutation_nil in Hu. discriminate.
  - apply Permutation_sym, Permutation_nil in Hu. discriminate.
  - now rewrite E.
Qed.

(** The run of the disk script does not depend on the order of the records
    in the document: two well-shaped documents with the same records in
    any order give the same run, call for call.  NaN values are excluded,
    and so are distinct values that Python's order cannot tell apart,
    whose relative order in a series is the one of the document. *)
Theorem disk_record_order_is_irrelevant :
  forall (fit : list value -> list value -> result (list value))
         (prog path : string) (rest : list string)
         (jl1 jl2 : string -> option value) (records1 records2 : list measure),
    jl1 path = Some (flat records1) ->
    jl2 path = Some (flat records2) ->
    Permutation records1 records2 ->
    Forall (fun r => is_nan (snd r) = false) records1 ->
    no_ties (map scale_point (map point_of records1)) ->
    DiskScript.script fit prog (path :: rest) jl1 =
    DiskScript.script fit prog (path :: rest) jl2.
Proof.
  intros fit prog path rest jl1 jl2 records1 records2 H1 H2 HP Hnan Hties.
  destruct (disk_submitted_stored records1) as (d1 & L1 & E1).
  destruct (disk_submitted_stored records2) as (d2 & L2 & E2).
  apply (disk_script_ext fit prog path rest jl1 jl2 _ _ d1 d2 H1 H2 L1 L2).
  intros m _. rewrite E1, E2. now apply disk_submitted_perm.
Qed.

Lemma disk_record_order_is_irrelevant_witness :
  DiskScript.script (fun _ y => Ok y) "plot.py" ["a.json"]
    (fun _ => Some (flat [("sequential.read", 2, NInt 4);
                          ("append.read", 1, NInt 3);
                          ("sequential.read", 1, NInt 2)])) =
  DiskScript.script (fun _ y => Ok y) "plot.py" ["a.json"]
    (fun _ => Some (flat [("sequential.read", 1, NInt 2);
                          ("sequential.read", 2, NInt 4);
                          ("append.read", 1, NInt 3)])).
Proof.
  apply (disk_record_order_is_irrelevant (fun _ y => Ok y)
           "plot.py" "a.json" []
           (fun _ => Some (flat [("sequential.read", 2, NInt 4);
                                 ("append.read", 1, NInt 3);
                                 ("sequential.read", 1, NInt 2)]))
           (fun _ => Some (flat [("sequential.read", 1, NInt 2);
                                 ("sequential.read", 2, NInt 4);
                                 ("append.read", 1, NInt 3)]))
           _ _ eq_refl eq_refl).
  - apply Permutation_sym, (Permutation_cons_app [_; _] []). reflexivity.
  - repeat constructor.
  - intros p q Hp Hq H1 H2. cbn in Hp, Hq.
    decompose [or] Hp; decompose [or] Hq; subst; try reflexivity;
      try contradiction;
      exfalso; unfold point_le, num_le, xle in H1, H2; cbn in H1, H2;
      intuition (try lia; try discriminate).
Defined.

(** The run of the diet script does not depend on the order of the
    measures nor on how they are grouped: two well-shaped documents that
    hold, for each kind, the same measures in any order and in any number
    of groups give the same run, call for call.  NaN values and distinct
    values that Python's order cannot tell apart are excluded. *)
Theorem diet_record_order_is_irrelevant :
  forall (prog path : string) (rest : list string)
         (jl1 jl2 : string -> option value) (groups1 groups2 : list group),
    jl1 path = Some (grouped groups1) ->
    jl2 path = Some (grouped groups2) ->
    (forall kind,
        Permutation (of_kind kind groups1) (of_kind kind groups2)) ->
    (forall kind,
        Forall (fun r => is_nan (snd r) = false) (of_kind kind groups1)) ->
    (forall kind, no_ties (map point_of (of_kind kind groups1))) ->
    DietScript.script prog (path :: rest) jl1 =
    DietScript.script prog (path :: rest) jl2.
Proof.
  intros prog path rest jl1 jl2 groups1 groups2 H1 H2 HP Hnan Hties.
  destruct (diet_submitted_stored groups1) as (d1 & L1 & E1).
  destruct (diet_submitted_stored groups2) as (d2 & L2 & E2).
  apply (diet_script_ext prog path rest jl1 jl2 _ _ d1 d2 H1 H2 L1 L2).
  intros ax kind m label _. rewrite E1, E2. now apply diet_submitted_perm.
Qed.

Lemma diet_record_order_is_irrelevant_witness :
  DietScript.script "plot.py" ["a.json"]
    (fun _ =>
       Some (grouped [("monotonic-clock",
                       [("diet/add_interval", 10, NInt 120);
                        ("diet/add_interval", 5, NInt 60)])])) =
  DietScript.script "plot.py" ["a.json"]
    (fun _ =>
       Some (grouped [("monotonic-clock",
                       [("diet/add_interval", 5, NInt 60)]);
                      ("monotonic-clock",
                       [("diet/add_interval", 10, NInt 120)])])).
Proof.
  apply (diet_record_order_is_irrelevant "plot.py" "a.json" []
           (fun _ =>
              Some (grouped [("monotonic-clock",
                              [("diet/add_interval", 10, NInt 120);
                               ("diet/add_interval", 5, NInt 60)])]))
           (fun _ =>
              Some (grouped [("monotonic-clock",
                              [("diet/add_interval", 5, NInt 60)]);
                             ("monotonic-clock",
                              [("diet/add_interval", 10, NInt 120)])]))
           _ _ eq_refl eq_refl).
  - intros kind. unfold of_kind. cbn [flat_map fst snd].
    destruct (String.eqb "monotonic-clock" kind); [apply perm_swap|].
    constructor.
  - intros kind. unfold of_kind. cbn [flat_map fst snd].
    destruct (String.eqb "monotonic-clock" kind); repeat constructor.
  - intros kind p q Hp Hq H1 H2. unfold of_kind in Hp, Hq.
    cbn [flat_map fst snd] in Hp, Hq.
    destruct (String.eqb "monotonic-clock" kind); cbn in Hp, Hq;
      [|contradiction].
    decompose [or] Hp; decompose [or] Hq; subst; try reflexivity;
      try contradiction;
      exfalso; unfold point_le, num_le, xle in H1, H2; cbn in H1, H2;
      intuition (try lia; try discriminate).
Defined.

(** ** Values that the loaders cannot take *)

Lemma disk_aggregate_type_error (m n v : value) (d : Disk.store) :
  hashable m = false \/ mul1000 v = Raise TypeError ->
  exists d', Disk.aggregate (PList [m; n; v]) d = (Raise TypeError, d').
Proof.
  intros H. unfold Disk.aggregate, bind, lift, setdefault. simpl.
  destruct (hashable m) eqn:Hm.
  - destruct H as [H|H]; [discriminate|]. unfold modify. rewrite H. eauto.
  - unfold lift. eauto.
Qed.

Lemma diet_group_type_error (kind measures : value) (d : Diet.store) :
  hashable kind = false \/ iter measures = Raise TypeError ->
  exists d',
    Diet.aggregate_group (PList [kind; measures]) d = (Raise TypeError, d').
Proof.
  intros H. unfold Diet.aggregate_group, bind, lift, setdefault. simpl.
  destruct (hashable kind) eqn:Hk.
  - destruct H as [H|H]; [discriminate|]. unfold modify. rewrite H. eauto.
  - unfold lift. eauto.
Qed.

(** What is no array, string or object cannot stand for the document or
    for the measures of a group, a [null] or an object cannot be
    multiplied by 1000, and an array or an object cannot be a key: each of
    these stops the load with [TypeError].  The disk script thus rejects a
    record whose value is [null], which the diet script stores. *)
Theorem loaders_raise_TypeError :
  (forall (doc : value) (s0 : Disk.store),
      iter doc = Raise TypeError ->
      Disk.load doc s0 = (Raise TypeError, []))
  /\
  (forall (doc : value) (s0 : Diet.store),
      iter doc = Raise TypeError ->
      Diet.load doc s0 = (Raise TypeError, []))
  /\
  (forall (good : list measure) (m n v : value) (rest : list value)
          (s0 : Disk.store),
      (v = PNone \/ (exists d, v = PDict d)) \/
      ((exists l, m = PList l) \/ (exists d, m = PDict d)) ->
      exists data,
        Disk.load (PList (map measure_value good ++ PList [m; n; v] :: rest))
          s0 = (Raise TypeError, data))
  /\
  (forall (good : list group) (kind measures : value) (rest : list value)
          (s0 : Diet.store),
      ((exists l, kind = PList l) \/ (exists d, kind = PDict d)) \/
      iter measures = Raise TypeError ->
      exists data,
        Diet.load
          (PList (map group_value good ++ PList [kind; measures] :: rest))
          s0 = (Raise TypeError, data)).
Proof.
  repeat apply conj.
  - intros doc s0 H. unfold Disk.load, bind, put, lift. now rewrite H.
  - intros doc s0 H. unfold Diet.load, bind, put, lift. now rewrite H.
  - intros good m n v rest s0 H.
    rewrite disk_load_list, for_each_app, disk_loop_run.
    cbn [for_each]. unfold bind at 1.
    destruct (disk_aggregate_type_error m n v
                (fold_left (collect disk_tuple) good [])) as (d' & ->).
    + destruct H as [[->|[d ->]]|[[l ->]|[d ->]]]; auto.
    + eauto.
  - intros good kind measures rest s0 H.
    rewrite diet_load_list, for_each_app, diet_loop_run.
    cbn [for_each]. unfold bind at 1.
    destruct (diet_group_type_error kind measures
                (fold_left collect_group good [])) as (d' & ->).
    + destruct H as [[[l ->]|[d ->]]|H]; auto.
    + eauto.
Qed.

Lemma loaders_raise_TypeError_witness :
  Disk.load (PInt 3) [] = (Raise TypeError, [])
  /\ Diet.load PNone [] = (Raise TypeError, [])
  /\ (exists data,
         Disk.load
           (PList (map measure_value [("random.read", 1, NInt 2)] ++
                   PList [PStr "random.read"; PInt 2; PNone] :: []))
           [] = (Raise TypeError, data))
  /\ (exists data,
         Diet.load
           (PList (map group_value [] ++
                   PList [PStr "monotonic-clock"; PInt 7] :: []))
           [] = (Raise TypeError, data)).
Proof.
  destruct loaders_raise_TypeError as (H1 & H2 & H3 & H4).
  repeat apply conj.
  - apply H1. reflexivity.
  - apply H2. reflexivity.
  - apply H3. left. now left.
  - apply H4. right. reflexivity.
Defined.

(** ** The abscissas of a layer *)

Lemma point_ltb_n (a b : point) : point_ltb a b = true -> fst a <= fst b.
Proof.
  unfold point_ltb. destruct (Z.eqb_spec (fst a) (fst b)) as [E|E]; simpl.
  - intros _. lia.
  - intros H. apply Z.ltb_lt in H. lia.
Qed.

Lemma point_ltb_n_ge (a b : point) : point_ltb a b = false -> fst b <= fst a.
Proof.
  unfold point_ltb. destruct (Z.eqb_spec (fst a) (fst b)) as [E|E]; simpl.
  - intros _. lia.
  - intros H. apply Z.ltb_ge in H. lia.
Qed.

Lemma insert_point_n_sorted (x : point) (l : list point) :
  StronglySorted (fun a b => fst a <= fst b) l ->
  StronglySorted (fun a b => fst a <= fst b) (insert_point x l).
Proof.
  intros Hs. induction Hs as [|y l Hs IH Hy]; simpl.
  - repeat constructor.
  - destruct (point_ltb x y) eqn:E.
    + apply point_ltb_n in E. constructor; [now constructor|].
      constructor; [exact E|].
      eapply Forall_impl; [|exact Hy]. cbv beta. intros z Hz. lia.
    + apply point_ltb_n_ge in E. constructor; [exact IH|].
      rewrite insert_point_perm. now constructor.
Qed.

Lemma sort_points_n_sorted (l : list point) :
  StronglySorted Z.le (map fst (sort_points l)).
Proof.
  assert (H : forall acc,
             StronglySorted (fun a b : point => fst a <= fst b) acc ->
             StronglySorted (fun a b : point => fst a <= fst b)
               (sort_points_from acc l)).
  { induction l as [|x l IH]; intros acc Hacc; simpl; [exact Hacc|].
    apply IH. now apply insert_point_n_sorted. }
  specialize (H [] (SSorted_nil _)). fold (sort_points l) in H.
  induction H as [|a s Hs IH Ha]; simpl; constructor; [exact IH|].
  rewrite Forall_map. exact Ha.
Qed.

Lemma abscissas_of_points (pts : list point) :
  map fst (map point_value pts) = map PInt (map fst pts).
Proof. rewrite !map_map. reflexivity. Qed.

Lemma diet_drawn_in (f : string -> string -> option series) l ax x y label :
  In (ax, x, y, label) (fst (DietScript.drawn f l)) ->
  exists K m s, f K m = Some s /\ x = map fst s /\ y = map snd s.
Proof.
  induction l as [|[[[ax' K] m] label'] l IH]; [intros []|].
  cbn [DietScript.drawn]. destruct (f K m) as [s|] eqn:E; [|intros []].
  destruct (DietScript.drawn f l) as [points stop]. cbn [fst] in *.
  intros [[= <- <- <- <-]|Hin]; [now exists K, m, s|auto].
Qed.

Lemma disk_drawn_in fit (f : string -> option series) l :
  (forall ax x y label,
      In (ax, x, y, label) (fst (fst (DiskScript.drawn fit f l))) ->
      exists m s, f m = Some s /\ x = map fst s /\ y = map snd s) /\
  (forall ax x y,
      In (ax, x, y) (snd (fst (DiskScript.drawn fit f l))) ->
      exists m s, f m = Some s /\ x = map fst s /\
                  fit (map fst s) (map snd s) = Ok y).
Proof.
  induction l as [|[[ax' m] label'] l [IH1 IH2]];
    [split; intros; cbn in *; contradiction|].
  cbn [DiskScript.drawn]. destruct (f m) as [s|] eqn:E;
    [|split; intros; cbn in *; contradiction].
  destruct (fit (map fst s) (map snd s)) as [line|e] eqn:Ef.
  - destruct (DiskScript.drawn fit f l) as [[points curves] stop].
    cbn [fst snd] in *. split.
    + intros ax x y label [[= <- <- <- <-]|Hin]; [now exists m, s|eauto].
    + intros ax x y [[= <- <- <-]|Hin]; [now exists m, s|eauto].
  - cbn [fst snd]. split.
    + intros ax x y label [[= <- <- <- <-]|[]]. now exists m, s.
    + intros ? ? ? [].
Qed.

Lemma disk_submitted_abscissas (records : list measure) (m : string) s :
  DiskScript.submitted records m = Some s ->
  exists ns, map fst s = map PInt ns /\ StronglySorted Z.le ns.
Proof.
  unfold DiskScript.submitted.
  destruct (under m records) as [|p pts]; [discriminate|]. intros [= <-].
  eexists. split; [apply abscissas_of_points|apply sort_points_n_sorted].
Qed.

Lemma diet_submitted_abscissas (groups : list group) (K m : string) s :
  DietScript.submitted groups K m = Some s ->
  exists ns, map fst s = map PInt ns /\ StronglySorted Z.le ns.
Proof.
  unfold DietScript.submitted.
  destruct (under m (of_kind K groups)) as [|p pts]; [discriminate|].
  intros [= <-].
  eexists. split; [apply abscissas_of_points|apply sort_points_n_sorted].
Qed.

(** Whatever a run on a well-shaped document puts on the axes has its
    abscissas in non-decreasing order: the points of every layer of both
    scripts, and every regression line of the disk script, which is thus
    drawn from left to right.  This needs no assumption on the values,
    NaN included: the order of the [n] alone decides. *)
Theorem abscissas_are_in_increasing_order :
  (forall (fit : list value -> list value -> result (list value))
          (prog path : string) (rest : list string)
          (json_load : string -> option value) (records : list measure),
      json_load path = Some (flat records) ->
      let t := calls (DiskScript.script fit prog (path :: rest) json_load) in
      (forall ax x y label,
          In (ax, x, y, label) (scatters t) ->
          exists ns, x = map PInt ns /\ StronglySorted Z.le ns) /\
      (forall ax x y,
          In (ax, x, y) (lines t) ->
          exists ns, x = map PInt ns /\ StronglySorted Z.le ns))
  /\
  (forall (prog path : string) (rest : list string)
          (json_load : string -> option value) (groups : list group),
      json_load path = Some (grouped groups) ->
      let t := calls (DietScript.script prog (path :: rest) json_load) in
      forall ax x y label,
        In (ax, x, y, label) (scatters t) ->
        exists ns, x = map PInt ns /\ StronglySorted Z.le ns).
Proof.
  split.
  - intros fit prog path rest json_load records Hdoc.
    destruct (disk_submitted_stored records) as (data & Hrun & Hl).
    destruct (disk_script_draws fit prog path rest json_load _ data Hdoc Hrun)
      as (t & E & Hp & Hc).
    rewrite (disk_drawn_ext fit _ _ DiskScript.layers Hl) in E, Hp, Hc.
    assert (Ht : calls (DiskScript.script fit prog (path :: rest) json_load)
                 = t).
    { rewrite E. now destruct (snd _). }
    cbv zeta. rewrite Ht, Hp, Hc.
    destruct (disk_drawn_in fit (DiskScript.submitted records)
                DiskScript.layers) as [H1 H2].
    split.
    + intros ax x y label Hin.
      destruct (H1 ax x y label Hin) as (m & s & Hs & -> & _).
      now apply (disk_submitted_abscissas records m).
    + intros ax x y Hin.
      destruct (H2 ax x y Hin) as (m & s & Hs & -> & _).
      now apply (disk_submitted_abscissas records m).
  - intros prog path rest json_load groups Hdoc.
    destruct (diet_submitted_stored groups) as (data & Hrun & Hl).
    destruct (diet_script_draws prog path rest json_load _ data Hdoc Hrun)
      as (t & E & Hp & _).
    rewrite (diet_drawn_ext _ _ DietScript.required Hl) in E, Hp.
    assert (Ht : calls (DietScript.script prog (path :: rest) json_load) = t).
    { rewrite E. now destruct (snd _). }
    cbv zeta. rewrite Ht, Hp.
    intros ax x y label Hin.
    destruct (diet_drawn_in _ _ ax x y label Hin) as (K & m & s & Hs & -> & _).
    now apply (diet_submitted_abscissas groups K m).
Qed.

Lemma abscissas_are_in_increasing_order_witness :
  (let t :=
     calls (DiskScript.script (fun _ y => Ok y) "plot.py" ["a.json"]
              (fun _ => Some (flat [("sequential.read", 2, NInt 4);
                                    ("sequential.read", 1, NInt 2)]))) in
   (forall ax x y label,
       In (ax, x, y, label) (scatters t) ->
       exists ns, x = map PInt ns /\ StronglySorted Z.le ns) /\
   (forall ax x y,
       In (ax, x, y) (lines t) ->
       exists ns, x = map PInt ns /\ StronglySorted Z.le ns))
  /\
  (let t :=
     calls (DietScript.script "plot.py" ["a.json"]
              (fun _ =>
                 Some (grouped [("monotonic-clock",
                                 [("diet/add_interval", 10, NInt 120);
                                  ("diet/add_interval", 5, NInt 60)])]))) in
   forall ax x y label,
     In (ax, x, y, label) (scatters t) ->
     exists ns, x = map PInt ns /\ StronglySorted Z.le ns).
Proof.
  split.
  - exact (proj1 abscissas_are_in_increasing_order (fun _ y => Ok y)
             "plot.py" "a.json" []
             (fun _ => Some (flat [("sequential.read", 2, NInt 4);
                                   ("sequential.read", 1, NInt 2)]))
             _ eq_refl).
  - exact (proj2 abscissas_are_in_increasing_order
             "plot.py" "a.json" []
             (fun _ =>
                Some (grouped [("monotonic-clock",
                                [("diet/add_interval", 10, NInt 120);
                                 ("diet/add_interval", 5, NInt 60)])]))
             _ eq_refl).
Defined.
